(** * ascii-video-play: geometry, glyph renderer and read loop

    A shallow embedding of [ascii-video-play.c].  The program decodes a
    video with FFmpeg, scales every frame to an 80-column grid of 8-bit
    luminance samples and prints each sample as one of five characters.

    - C [int] values are integers in [Z]; signed overflow and out-of-range
      conversions are undefined behaviour and are modelled by [None].
    - C [double] values are the kernel's binary64 floats ([PrimFloat.float]),
      so every arithmetic step rounds exactly as the compiled program does.
    - [uint8_t] samples are [Byte.byte]; a pointer into [frame->data[0]] is an
      offset into a list of bytes, and reading outside it is [None].
    - Calls into FFmpeg are answered from a script of return values, and
      everything the program prints or releases is recorded in a trace.
    - The file has three parts: the scale calculation of [init_filters],
      [display_frame], and the read loop of [main]; the definitions of all
      three come first, the facts about them after.  [open_input_file] and
      the calls with which [init_filters] builds the graph are modelled
      as well. *)

From Stdlib Require Import ZArith QArith Qround Lia Bool List String Ascii.
From Stdlib Require Import Floats Uint63.
From Stdlib Require Strings.Byte.
Import ListNotations.

Local Open Scope Z_scope.

(* ================================================================== *)
(** ** Partial computations *)

(** Undefined behaviour is absorbed by [option]: a step that the C
    standard leaves undefined yields [None], and so does everything after. *)
Definition bind {A B : Type} (m : option A) (k : A -> option B) : option B :=
  match m with
  | Some a => k a
  | None => None
  end.

Declare Scope ub_scope.
Delimit Scope ub_scope with ub.
Notation "x <- m ;; k" := (bind m (fun x => k))
  (at level 61, m at next level, right associativity) : ub_scope.
Local Open Scope ub_scope.

(* ================================================================== *)
(** ** C scalars *)

Module CInt.

Definition INT_MAX : Z := 2147483647.
Definition INT_MIN : Z := -2147483648.

Definition in_range (z : Z) : bool := (INT_MIN <=? z) && (z <=? INT_MAX).

(** [a * b] on [int]: undefined when the product does not fit. *)
Definition mul (a b : Z) : option Z :=
  let r := a * b in
  if in_range r then Some r else None.

End CInt.

Module CDouble.

(** [(double) z] for an [int] [z]; exact, since |z| < 2^53. *)
Definition of_int (z : Z) : float :=
  if z <? 0 then PrimFloat.opp (PrimFloat.of_uint63 (Uint63.of_Z (- z)))
  else PrimFloat.of_uint63 (Uint63.of_Z z).

(** [(int) x]: the fractional part is discarded; the conversion is
    undefined when the truncated value is not an [int], and for
    infinities and NaN. *)
Definition to_int (x : float) : option Z :=
  match Prim2SF x with
  | S754_zero _ => Some 0
  | S754_finite s m e =>
      let t := if 0 <=? e then Zpos m * 2 ^ e else Zpos m / 2 ^ (- e) in
      let v := if s then - t else t in
      if CInt.in_range v then Some v else None
  | S754_infinity _ | S754_nan => None
  end.

(** libm's [round]: nearest integer, halfway cases away from zero, the
    sign of the argument kept.  A finite double is [m * 2^e]; with
    [e >= 0] it is an integer already. *)
Definition round (x : float) : float :=
  match Prim2SF x with
  | S754_finite s m e =>
      if 0 <=? e then x
      else
        let q := (Zpos m + 2 ^ (- e - 1)) / 2 ^ (- e) in
        let r := PrimFloat.of_uint63 (Uint63.of_Z q) in
        if s then PrimFloat.opp r else r
  | S754_zero _ | S754_infinity _ | S754_nan => x
  end.

End CDouble.

(* ================================================================== *)
(** ** FFmpeg data the program reads *)

Module AVRational.
Record t : Set := mk { num : Z; den : Z }.
End AVRational.

(** [av_q2d] of libavutil/rational.h: [a.num / (double) a.den]. *)
Definition av_q2d (a : AVRational.t) : float :=
  (CDouble.of_int (AVRational.num a) / CDouble.of_int (AVRational.den a))%float.

Module AVCodecContext.
Record t : Set := mk {
  width : Z;
  height : Z;
  pix_fmt : Z;
  sample_aspect_ratio : AVRational.t
}.
End AVCodecContext.

(** The file-scope variables of the program that [init_filters] reads:
    [dec_ctx], the time base of the selected stream of [fmt_ctx], and
    [video_stream_index]. *)
Record globals : Set := mk_globals {
  dec_ctx : AVCodecContext.t;
  stream_time_base : AVRational.t;
  video_stream_index : Z
}.

(* ================================================================== *)
(** ** init_filters: the dynamic scale calculation *)

Definition MAX_ASCII_WIDTH : Z := 80.
Definition CHARACTER_ASPECT_RATIO : float := 0.5%float.

(** [x = (double)((int)round(x / 2.0) * 2)], the "make it even" step. *)
Definition make_even (x : float) : option float :=
  i <- CDouble.to_int (CDouble.round (x / 2)%float) ;;
  i2 <- CInt.mul i 2 ;;
  Some (CDouble.of_int i2).

(** The block of [init_filters] between the comment DYNAMIC SCALE
    CALCULATION and the [snprintf] of [filters_descr]; the result is the
    pair [((int)target_width, (int)target_height)] printed into
    ["scale=%d:%d,format=gray"]. *)
Definition scale_dimensions (g : globals) (input_width input_height : Z)
  : option (Z * Z) :=
  let video_width := CDouble.of_int input_width in
  let video_height := CDouble.of_int input_height in
  let sar := AVCodecContext.sample_aspect_ratio (dec_ctx g) in
  let video_width :=
    if (0 <? AVRational.num sar) && (0 <? AVRational.den sar)
    then (video_width * av_q2d sar)%float
    else video_width in
  let video_display_aspect_ratio := (video_width / video_height)%float in
  let adjusted_aspect_ratio :=
    (video_display_aspect_ratio / CHARACTER_ASPECT_RATIO)%float in
  let target_width := CDouble.of_int MAX_ASCII_WIDTH in
  let target_height :=
    CDouble.round (target_width / adjusted_aspect_ratio)%float in
  let target_height :=
    if (target_height <? 1)%float then 1%float else target_height in
  target_width <- make_even target_width ;;
  target_height <- make_even target_height ;;
  let target_width :=
    if (target_width =? 0)%float then 2%float else target_width in
  let target_height :=
    if (target_height =? 0)%float then 2%float else target_height in
  columns <- CDouble.to_int target_width ;;
  rows <- CDouble.to_int target_height ;;
  Some (columns, rows).

(** The row count as the specification words it: [round(80 / ((srcWidth *
    sarReal / srcHeight) / 0.5))], floored at 1, rounded to the nearest even
    integer, clamped to at least 2.  The arithmetic is that of C doubles. *)
Definition spec_rows (srcWidth srcHeight : Z) (sarReal : float) : option Z :=
  let rows :=
    CDouble.round
      (80 / ((CDouble.of_int srcWidth * sarReal / CDouble.of_int srcHeight)
             / 0.5))%float in
  let floored := if (rows <? 1)%float then 1%float else rows in
  half <- CDouble.to_int (CDouble.round (floored / 2)%float) ;;
  Some (Z.max 2 (half * 2)).

(** What is specified of a result [(c, r)] of the scale calculation for a source
    [w] x [h] with sample aspect ratio [sar]: 80 columns, an even number of
    rows that is at least 2, and the rows of the formula. *)
Definition grid_as_specified (w h : Z) (sar : AVRational.t) (c r : Z) : Prop :=
  c = 80
  /\ Z.even r = true
  /\ 2 <= r
  /\ spec_rows w h (av_q2d sar) = Some r.

(** The same row count in exact rational arithmetic, for comparison:
    no double rounds anywhere, and [round] is to the nearest integer with
    halves away from zero. *)
Definition Qround_half_away (x : Q) : Z :=
  if Qle_bool 0 x then Qfloor (x + (1 # 2)) else Qceiling (x - (1 # 2)).

Definition exact_rows (srcWidth srcHeight : Z) (sar : AVRational.t) : Z :=
  let sarReal := (inject_Z (AVRational.num sar) / inject_Z (AVRational.den sar))%Q in
  let rows :=
    Qround_half_away
      (80 / ((inject_Z srcWidth * sarReal / inject_Z srcHeight) / (1 # 2)))%Q in
  let floored := Z.max rows 1 in
  Z.max 2 (Qround_half_away (inject_Z floored / 2)%Q * 2).

(** [g] with the decoder's sample aspect ratio replaced. *)
Definition with_sample_aspect_ratio (g : globals) (sar : AVRational.t) : globals :=
  let c := dec_ctx g in
  mk_globals
    (AVCodecContext.mk (AVCodecContext.width c) (AVCodecContext.height c)
       (AVCodecContext.pix_fmt c) sar)
    (stream_time_base g) (video_stream_index g).

(** A decoder context for a [w]x[h] stream with pixel aspect [n]:[d]. *)
Definition example_globals (w h n d : Z) : globals :=
  mk_globals (AVCodecContext.mk w h 0 (AVRational.mk n d)) (AVRational.mk 1 25) 0.

(* ================================================================== *)
(** ** display_frame *)

Module AVFrame.
(** The fields of an [AVFrame] that [display_frame] reads.  [plane] is the
    buffer that holds the first plane, [data0] the offset in it at which
    [frame->data[0]] points, [linesize0] is [frame->linesize[0]] (it may
    exceed the width, and FFmpeg allows it to be negative). *)
Record t : Set := mk {
  plane : list Byte.byte;
  data0 : Z;
  linesize0 : Z;
  width : Z;
  height : Z
}.
End AVFrame.

(** What the program does to [stdout]: write one character, or flush. *)
Inductive stdout_op : Set :=
| Putc (c : ascii)
| Fflush.

(** [printf] of a string without conversions. *)
Definition printf (s : string) : list stdout_op :=
  map Putc (list_ascii_of_string s).

Definition sample_value (b : Byte.byte) : Z := Z.of_N (Byte.to_N b).

(** [*p] for a [uint8_t *p] at offset [p] of the plane. *)
Definition load (plane : list Byte.byte) (p : Z) : option Byte.byte :=
  if p <? 0 then None else nth_error plane (Z.to_nat p).

(** The string literal indexed in [display_frame]. *)
Definition ramp : string := " .-+#".

(** [" .-+#"[i]]. *)
Definition ramp_at (i : Z) : option ascii :=
  if i <? 0 then None else String.get (Z.to_nat i) ramp.

(** The argument of [putchar] for the sample [b]: [" .-+#"[b / 52]]. *)
Definition glyph (b : Byte.byte) : option ascii :=
  ramp_at (Z.quot (sample_value b) 52).

Definition cursor_home : string :=
  String (ascii_of_nat 27) "[H".

Definition newline : ascii := ascii_of_nat 10.

(** [for (x = 0; x < frame->width; x++) putchar(" .-+#"[*(p++) / 52]);]
    with [n] iterations left. *)
Fixpoint row_loop (plane : list Byte.byte) (n : nat) (p : Z)
  (out : list stdout_op) : option (list stdout_op) :=
  match n with
  | O => Some out
  | S n' =>
      b <- load plane p ;;
      c <- glyph b ;;
      row_loop plane n' (p + 1) (out ++ [Putc c])
  end.

(** [for (y = 0; y < frame->height; y++) { p = p0; ...; putchar('\n');
    p0 += frame->linesize[0]; }] with [n] iterations left. *)
Fixpoint frame_loop (frame : AVFrame.t) (n : nat) (p0 : Z)
  (out : list stdout_op) : option (list stdout_op) :=
  match n with
  | O => Some out
  | S n' =>
      out <- row_loop (AVFrame.plane frame)
               (Z.to_nat (AVFrame.width frame)) p0 out ;;
      frame_loop frame n' (p0 + AVFrame.linesize0 frame)
        (out ++ [Putc newline])
  end.

(** [display_frame]: the operations on [stdout] are appended to [out]. *)
Definition display_frame (frame : AVFrame.t) (time_base : AVRational.t)
  (out : list stdout_op) : option (list stdout_op) :=
  let p0 := AVFrame.data0 frame in
  let out := out ++ printf cursor_home in
  out <- frame_loop frame (Z.to_nat (AVFrame.height frame)) p0 out ;;
  Some (out ++ [Fflush]).

(** The grid [display_frame] is meant to print for the samples
    [sample y x], as the specification words it: the cursor reset, then
    one line per row with one ramp character per sample and a newline,
    then one flush. *)
Definition ramp_char (b : Byte.byte) : ascii :=
  nth (Z.to_nat (sample_value b / 52)) (list_ascii_of_string ramp) " "%char.

Definition rendered_row (width : nat) (row : nat -> Byte.byte) : list stdout_op :=
  map (fun x => Putc (ramp_char (row x))) (seq 0 width) ++ [Putc newline].

Definition rendered (width height : nat) (sample : nat -> nat -> Byte.byte)
  : list stdout_op :=
  printf cursor_home
  ++ flat_map (fun y => rendered_row width (sample y)) (seq 0 height)
  ++ [Fflush].

(** The frame at which [p0 + y * linesize + x] holds [sample y x]. *)
Definition holds_samples (frame : AVFrame.t) (sample : nat -> nat -> Byte.byte)
  : Prop :=
  forall y x : nat,
    (y < Z.to_nat (AVFrame.height frame))%nat ->
    (x < Z.to_nat (AVFrame.width frame))%nat ->
    load (AVFrame.plane frame)
      (AVFrame.data0 frame + Z.of_nat y * AVFrame.linesize0 frame + Z.of_nat x)
    = Some (sample y x).

(** The 2x2 frame with samples 0, 255, 255, 0, rows packed ... *)
Definition frame_2x2 : AVFrame.t :=
  AVFrame.mk [Byte.x00; Byte.xff; Byte.xff; Byte.x00] 0 2 2 2.

(** ... and the same picture with three bytes of padding after each row. *)
Definition frame_2x2_padded : AVFrame.t :=
  AVFrame.mk
    [Byte.x00; Byte.xff; Byte.x11; Byte.x22; Byte.x33;
     Byte.xff; Byte.x00; Byte.x44; Byte.x55; Byte.x66] 0 5 2 2.

Definition samples_2x2 (y x : nat) : Byte.byte :=
  match y, x with
  | O, S _ => Byte.xff
  | S _, O => Byte.xff
  | _, _ => Byte.x00
  end.

(* ================================================================== *)
(** ** main *)

(** The two return codes of libavutil/error.h that [main] compares with.
    Their values are fixed by FFmpeg and by the platform's errno.h, not by
    the program, so the program is modelled for any pair of them. *)
Record averror : Set := mk_averror {
  AVERROR_EOF : Z;
  AVERROR_EAGAIN : Z
}.

(** The values on Linux: [FFERRTAG('E','O','F',' ')] negated, and [-EAGAIN]. *)
Definition averror_linux : averror := mk_averror (-541478725) (-11).

(** The lines [main] writes to [stderr], through [av_log] at
    [AV_LOG_ERROR] or [fprintf], with the return code they report. *)
Inductive message : Set :=
| Usage
| Could_not_allocate
| Error_reading_frame (code : Z)
| Error_sending_packet (code : Z)
| Error_receiving_frame (code : Z)
| Error_feeding_filtergraph (code : Z)
| Error_pulling_from_filtergraph (code : Z)
| Program_finished_with_error (code : Z)
| End_of_file_no_frame.

(** What [main] does besides writing to [stdout], in order. *)
Inductive event : Set :=
| Log (m : message)
| Display_frame (filt_frame : AVFrame.t)
| Frame_unref_filt_frame
| Frame_unref_frame
| Packet_unref
| Free_all.

(** The answers of FFmpeg to the calls of one run, per function and in
    call order.  A list that runs out is continued by the answer of a
    finished stream: end of file for [av_read_frame], "send me more" for
    [avcodec_receive_frame] and [av_buffersink_get_frame], success for
    [avcodec_send_packet] and [av_buffersrc_add_frame_flags]. *)
Record script : Set := mk_script {
  open_ret : Z;                  (* open_input_file(argv[1]) *)
  buffers_ret : Z;               (* init_filters before the scale calculation *)
  graph_ret : Z;                 (* avfilter_graph_parse_ptr and _config *)
  reads : list (Z * Z);          (* av_read_frame: ret, packet->stream_index *)
  sends : list Z;                (* avcodec_send_packet *)
  receives : list Z;             (* avcodec_receive_frame *)
  pushes : list Z;               (* av_buffersrc_add_frame_flags *)
  pulls : list (Z * AVFrame.t)   (* av_buffersink_get_frame: ret, filt_frame *)
}.

(** The variables of [main], the unread answers other than those of
    [av_read_frame] and [avcodec_receive_frame] (the loops consume these
    two lists directly), and what the run has written and done. *)
Record state : Set := mk_state {
  ret : Z;
  frame_displayed : Z;
  sends_left : list Z;
  pushes_left : list Z;
  pulls_left : list (Z * AVFrame.t);
  stdout : list stdout_op;
  trace : list event
}.

Definition set_ret (r : Z) (st : state) : state :=
  mk_state r (frame_displayed st) (sends_left st) (pushes_left st)
    (pulls_left st) (stdout st) (trace st).

Definition set_stdout (out : list stdout_op) (st : state) : state :=
  mk_state (ret st) (frame_displayed st) (sends_left st) (pushes_left st)
    (pulls_left st) out (trace st).

Definition emit (e : event) (st : state) : state :=
  mk_state (ret st) (frame_displayed st) (sends_left st) (pushes_left st)
    (pulls_left st) (stdout st) (trace st ++ [e]).

Definition avcodec_send_packet (st : state) : Z * state :=
  match sends_left st with
  | [] => (0, st)
  | r :: l =>
      (r, mk_state (ret st) (frame_displayed st) l (pushes_left st)
            (pulls_left st) (stdout st) (trace st))
  end.

Definition av_buffersrc_add_frame_flags (st : state) : Z * state :=
  match pushes_left st with
  | [] => (0, st)
  | r :: l =>
      (r, mk_state (ret st) (frame_displayed st) (sends_left st) l
            (pulls_left st) (stdout st) (trace st))
  end.

Definition empty_frame : AVFrame.t := AVFrame.mk [] 0 0 0 0.

Definition av_buffersink_get_frame (E : averror) (st : state)
  : Z * AVFrame.t * state :=
  match pulls_left st with
  | [] => (AVERROR_EAGAIN E, empty_frame, st)
  | (r, f) :: l =>
      (r, f, mk_state (ret st) (frame_displayed st) (sends_left st)
               (pushes_left st) l (stdout st) (trace st))
  end.

(** How a piece of [main] is left: by running off its end (or by a
    [break] of the loop it is), or by [goto end]. *)
Inductive flow : Set :=
| Fallthrough
| Goto_end.

Section ReadLoop.

Variable E : averror.
Variable g : globals.

(** The [while (1)] around [av_buffersink_get_frame]: every path through
    its body leaves it, so the body runs once.  The assignment
    [frame_displayed = 1] is commented out in the source and is absent
    here. *)
Definition pull_loop (st : state) : option (flow * state) :=
  let '(r, filt_frame, st) := av_buffersink_get_frame E st in
  let st := set_ret r st in
  if (r =? AVERROR_EAGAIN E) || (r =? AVERROR_EOF E) then
    Some (Fallthrough, st)
  else if r <? 0 then
    Some (Goto_end, emit (Log (Error_pulling_from_filtergraph r)) st)
  else
    out <- display_frame filt_frame (stream_time_base g) (stdout st) ;;
    let st := emit (Display_frame filt_frame) (set_stdout out st) in
    let st := emit Frame_unref_filt_frame st in
    Some (Fallthrough, st).

(** [while (ret >= 0) { ret = avcodec_receive_frame(...); ... }], with
    the unread answers of [avcodec_receive_frame] in [rs]; they are
    returned with the state. *)
Fixpoint receive_loop (rs : list Z) (st : state)
  : option (flow * list Z * state) :=
  if ret st <? 0 then Some (Fallthrough, rs, st)
  else
    match rs with
    | [] => Some (Fallthrough, [], set_ret (AVERROR_EAGAIN E) st)
    | r :: rs' =>
        let st := set_ret r st in
        if (r =? AVERROR_EAGAIN E) || (r =? AVERROR_EOF E) then
          Some (Fallthrough, rs', st)
        else if r <? 0 then
          Some (Goto_end, rs', emit (Log (Error_receiving_frame r)) st)
        else
          let '(pushed, st) := av_buffersrc_add_frame_flags st in
          if pushed <? 0 then
            Some (Fallthrough, rs',
                  emit (Log (Error_feeding_filtergraph (ret st))) st)
          else
            res <- pull_loop st ;;
            match res with
            | (Goto_end, st) => Some (Goto_end, rs', st)
            | (Fallthrough, st) =>
                let st := emit Frame_unref_frame st in
                if negb (frame_displayed st =? 0) then
                  Some (Fallthrough, rs', st)
                else receive_loop rs' st
            end
    end.

(** [while (!frame_displayed) { ... }], with the unread answers of
    [av_read_frame] in [rds] and those of [avcodec_receive_frame] in [rs]. *)
Fixpoint read_loop (rds : list (Z * Z)) (rs : list Z) (st : state)
  : option (flow * state) :=
  if negb (frame_displayed st =? 0) then Some (Fallthrough, st)
  else
    match rds with
    | [] => Some (Fallthrough, set_ret (AVERROR_EOF E) st)
    | (r, stream_index) :: rds' =>
        let st := set_ret r st in
        if r <? 0 then
          Some (Fallthrough,
                if negb (r =? AVERROR_EOF E)
                then emit (Log (Error_reading_frame r)) st
                else st)
        else if stream_index =? video_stream_index g then
          let '(r, st) := avcodec_send_packet st in
          let st := set_ret r st in
          let st :=
            if r <? 0 then emit (Log (Error_sending_packet r)) st else st in
          if (r <? 0)
             && negb (r =? AVERROR_EAGAIN E) && negb (r =? AVERROR_EOF E)
          then Some (Fallthrough, st)
          else
            res <- receive_loop rs st ;;
            match res with
            | (Goto_end, _, st) => Some (Goto_end, st)
            | (Fallthrough, rs, st) =>
                let st := emit Packet_unref st in
                if negb (frame_displayed st =? 0) then Some (Fallthrough, st)
                else read_loop rds' rs st
            end
        else
          let st := emit Packet_unref st in
          if negb (frame_displayed st =? 0) then Some (Fallthrough, st)
          else read_loop rds' rs st
    end.

(** From the label [end] on: the six releases, then the final report and
    the exit code. *)
Definition finish (st : state) : Z * state :=
  let st := emit Free_all st in
  if (ret st <? 0) && negb (ret st =? AVERROR_EOF E)
     && (frame_displayed st =? 0)
  then (1, emit (Log (Program_finished_with_error (ret st))) st)
  else if (frame_displayed st =? 0) && (ret st =? AVERROR_EOF E)
  then (1, emit (Log End_of_file_no_frame) st)
  else (0, st).

(** [init_filters(dec_ctx->width, dec_ctx->height)]: its return value. *)
Definition init_filters (s : script) : option Z :=
  if buffers_ret s <? 0 then Some (buffers_ret s)
  else
    _ <- scale_dimensions g (AVCodecContext.width (dec_ctx g))
           (AVCodecContext.height (dec_ctx g)) ;;
    Some (graph_ret s).

(** [main]: the exit code and the final state.  [goto end] from the two
    initialisation steps jumps over [int frame_displayed = 0], so the final
    report reads a variable without a value: undefined. *)
Definition main (argc : Z) (allocated : bool) (s : script)
  : option (Z * state) :=
  let st := mk_state 0 0 (sends s) (pushes s) (pulls s) [] [] in
  if negb (argc =? 2) then Some (1, emit (Log Usage) st)
  else if negb allocated then Some (1, emit (Log Could_not_allocate) st)
  else if open_ret s <? 0 then None
  else
    r <- init_filters s ;;
    if r <? 0 then None
    else
      let st := set_ret r st in
      res <- read_loop (reads s) (receives s) st ;;
      Some (finish (snd res)).

End ReadLoop.

(** Number of calls of [display_frame] in a trace. *)
Fixpoint displayed (t : list event) : nat :=
  match t with
  | [] => O
  | Display_frame _ :: t' => S (displayed t')
  | _ :: t' => displayed t'
  end.

(** The messages of a trace. *)
Fixpoint logged (t : list event) : list message :=
  match t with
  | [] => []
  | Log m :: t' => m :: logged t'
  | _ :: t' => logged t'
  end.

(** A stream of [n] packets that all belong to the video stream (index
    0); each decodes to one frame, after which the decoder asks for the next
    packet, and the filter graph turns each frame into [frame_2x2]. *)
Fixpoint one_frame_per_packet (E : averror) (n : nat) : list Z :=
  match n with
  | O => []
  | S n' => 0 :: AVERROR_EAGAIN E :: one_frame_per_packet E n'
  end.

Definition video_script (E : averror) (n : nat) : script :=
  mk_script 0 0 0
    (repeat (0, 0) n) (repeat 0 n) (one_frame_per_packet E n) (repeat 0 n)
    (repeat (0, frame_2x2) n).

(** Two video packets, each decoding to a frame; the filter graph answers
    the first pull with [AVERROR_EOF] and the second with a frame. *)
Definition drained_script (E : averror) : script :=
  mk_script 0 0 0
    [(0, 0); (0, 0)] [0; 0] [0; 0; AVERROR_EAGAIN E] [0; 0]
    [(AVERROR_EOF E, empty_frame); (0, frame_2x2)].

Definition video_globals : globals := example_globals 720 720 1 1.

(* ================================================================== *)
(** ** open_input_file *)

(** [AVERROR(e)] of libavutil/error.h, for the positive [errno] codes of
    POSIX: [-(e)]. *)
Definition AVERROR (e : Z) : Z := - e.

(** The lines [open_input_file] logs at [AV_LOG_ERROR]. *)
Inductive open_message : Set :=
| Cannot_open_input_file
| Cannot_find_stream_information
| Cannot_find_a_video_stream
| Cannot_open_video_decoder.

(** What FFmpeg answers to the calls of [open_input_file], in the order
    of the calls; [avcodec_alloc_context3] answers whether the context it
    returns is not [NULL]. *)
Record open_answers : Set := mk_open_answers {
  avformat_open_input : Z;
  avformat_find_stream_info : Z;
  av_find_best_stream : Z;
  avcodec_alloc_context3 : bool;
  avcodec_parameters_to_context : Z;
  avcodec_open2 : Z
}.

(** The return value of [open_input_file], the file-scope variables it
    leaves ([video_stream_index], and whether [dec_ctx] points to a
    context), and what it has logged. *)
Record opened : Set := mk_opened {
  open_returned : Z;
  open_stream_index : Z;
  open_dec_ctx : bool;
  open_logged : list open_message
}.

(** [open_input_file], with [ENOMEM] of errno.h and the value
    [video_stream_index] has before the call (the program starts with -1).
    The return value of [avcodec_parameters_to_context] is dropped by the
    source. *)
Definition open_input_file (ENOMEM : Z) (a : open_answers)
  (video_stream_index : Z) : opened :=
  let ret := avformat_open_input a in
  if ret <? 0 then
    mk_opened ret video_stream_index false [Cannot_open_input_file]
  else
    let ret := avformat_find_stream_info a in
    if ret <? 0 then
      mk_opened ret video_stream_index false [Cannot_find_stream_information]
    else
      let ret := av_find_best_stream a in
      if ret <? 0 then
        mk_opened ret video_stream_index false [Cannot_find_a_video_stream]
      else
        let video_stream_index := ret in
        if negb (avcodec_alloc_context3 a) then
          mk_opened (AVERROR ENOMEM) video_stream_index false []
        else
          let _ := avcodec_parameters_to_context a in
          let ret := avcodec_open2 a in
          if ret <? 0 then
            mk_opened ret video_stream_index true [Cannot_open_video_decoder]
          else mk_opened 0 video_stream_index true [].

(** The four calls whose result [open_input_file] checks all succeed. *)
Definition opens (a : open_answers) : Prop :=
  0 <= avformat_open_input a
  /\ 0 <= avformat_find_stream_info a
  /\ 0 <= av_find_best_stream a
  /\ avcodec_alloc_context3 a = true
  /\ 0 <= avcodec_open2 a.

(* ================================================================== *)
(** ** init_filters: building the graph *)

(** [printf]'s [%d] for an [int]: the decimal digits, most significant
    first, after a minus sign for a negative number.  An [int] has at most
    ten digits. *)
Definition digit (n : Z) : ascii := ascii_of_nat (48 + Z.to_nat n).

Fixpoint digits (fuel : nat) (n : Z) (acc : string) : string :=
  match fuel with
  | O => acc
  | S fuel' =>
      let acc := String (digit (n mod 10)) acc in
      if n <? 10 then acc else digits fuel' (n / 10) acc
  end.

Definition print_int (z : Z) : string :=
  if z <? 0 then String "-" (digits 10 (- z) "") else digits 10 z "".

(** [snprintf(buf, size, ...)]: at most [size - 1] characters of the
    formatted text are stored. *)
Definition snprintf (size : nat) (formatted : string) : string :=
  substring 0 (size - 1) formatted.

(** The text of ["video_size=%dx%d:pix_fmt=%d:time_base=%d/%d:pixel_aspect=%d/%d"]
    for the arguments [init_filters] passes. *)
Definition buffer_args (g : globals) (input_width input_height : Z) : string :=
  let sar := AVCodecContext.sample_aspect_ratio (dec_ctx g) in
  ("video_size=" ++ print_int input_width ++ "x" ++ print_int input_height
   ++ ":pix_fmt=" ++ print_int (AVCodecContext.pix_fmt (dec_ctx g))
   ++ ":time_base=" ++ print_int (AVRational.num (stream_time_base g))
   ++ "/" ++ print_int (AVRational.den (stream_time_base g))
   ++ ":pixel_aspect=" ++ print_int (AVRational.num sar)
   ++ "/" ++ print_int (AVRational.den sar))%string.

(** The text of ["scale=%d:%d,format=gray"]. *)
Definition scale_descr (columns rows : Z) : string :=
  ("scale=" ++ print_int columns ++ ":" ++ print_int rows ++ ",format=gray")%string.

(** What FFmpeg answers to the calls of [init_filters]: for the three
    allocations whether the result is not [NULL], for the other calls the
    return value. *)
Record filter_answers : Set := mk_filter_answers {
  inout_alloc_outputs : bool;
  inout_alloc_inputs : bool;
  graph_alloc : bool;
  create_buffer : Z;
  create_buffersink : Z;
  set_pix_fmts : Z;
  graph_parse_ptr : Z;
  graph_config : Z
}.

(** The calls [init_filters] makes once the allocations are done, and the
    lines it logs at [AV_LOG_ERROR]; the four lines at [AV_LOG_INFO] are one
    event each. *)
Inductive filter_event : Set :=
| Create_buffer (args : string)
| Create_buffersink
| Set_pix_fmts
| Log_info
| Graph_parse_ptr (filters_descr : string)
| Graph_config
| Cannot_create_buffer_source
| Cannot_create_buffer_sink
| Cannot_set_output_pixel_format
| Cannot_parse_graph_description (code : Z)
| Cannot_configure_filter_graph (code : Z)
| Inout_free_outputs
| Inout_free_inputs.

(** The label [end] of [init_filters]. *)
Definition filters_end (ret : Z) (done : list filter_event)
  : option (Z * list filter_event) :=
  Some (ret, done ++ [Inout_free_outputs; Inout_free_inputs]).

(** [init_filters(input_width, input_height)]: the return value and what
    was called and logged, in order.  The scale calculation in its middle is
    [scale_dimensions]. *)
Definition init_filters_graph (ENOMEM : Z) (g : globals) (a : filter_answers)
  (input_width input_height : Z) : option (Z * list filter_event) :=
  if negb (inout_alloc_outputs a) || negb (inout_alloc_inputs a)
     || negb (graph_alloc a)
  then filters_end (AVERROR ENOMEM) []
  else
    let args := snprintf 512 (buffer_args g input_width input_height) in
    let ret := create_buffer a in
    let done := [Create_buffer args] in
    if ret <? 0 then filters_end ret (done ++ [Cannot_create_buffer_source])
    else
      let ret := create_buffersink a in
      let done := done ++ [Create_buffersink] in
      if ret <? 0 then filters_end ret (done ++ [Cannot_create_buffer_sink])
      else
        let ret := set_pix_fmts a in
        let done := done ++ [Set_pix_fmts] in
        if ret <? 0
        then filters_end ret (done ++ [Cannot_set_output_pixel_format])
        else
          dims <- scale_dimensions g input_width input_height ;;
          let filters_descr :=
            snprintf 128 (scale_descr (fst dims) (snd dims)) in
          let done := done ++ [Log_info; Log_info; Log_info; Log_info] in
          let ret := graph_parse_ptr a in
          let done := done ++ [Graph_parse_ptr filters_descr] in
          if ret <? 0
          then filters_end ret (done ++ [Cannot_parse_graph_description ret])
          else
            let ret := graph_config a in
            let done := done ++ [Graph_config] in
            if ret <? 0
            then filters_end ret (done ++ [Cannot_configure_filter_graph ret])
            else filters_end ret done.

(** The first step of [init_filters] that fails, as a return code: the
    allocations, then the three calls that set up the two buffers. *)
Definition buffers_code (ENOMEM : Z) (a : filter_answers) : Z :=
  if negb (inout_alloc_outputs a) || negb (inout_alloc_inputs a)
     || negb (graph_alloc a)
  then AVERROR ENOMEM
  else if create_buffer a <? 0 then create_buffer a
  else if create_buffersink a <? 0 then create_buffersink a
  else set_pix_fmts a.

(** The return code of the two calls after the scale calculation. *)
Definition graph_code (a : filter_answers) : Z :=
  if graph_parse_ptr a <? 0 then graph_parse_ptr a else graph_config a.

(* ================================================================== *)
(** ** main, with the storage of frame_displayed *)

(** The two [goto end] of the set-up (lines 271-276) jump over the
    declaration [int frame_displayed = 0] of line 279, so the final report
    at lines 354-359 tests a variable that was never assigned.  ISO C leaves
    that read undefined, which is what [main] says.  A compiled program
    reads whatever the storage of the variable holds; [main_with_stale] is
    [main] with that value, [stale], as a parameter: after a failed set-up
    it goes through the releases and the final report of [finish] with [ret]
    the code of the failed call and [frame_displayed] equal to [stale].  On
    every other path it is [main]. *)
Definition main_with_stale (E : averror) (g : globals) (stale : Z)
  (argc : Z) (allocated : bool) (s : script) : option (Z * state) :=
  let st := mk_state 0 0 (sends s) (pushes s) (pulls s) [] [] in
  let unset := mk_state 0 stale (sends s) (pushes s) (pulls s) [] [] in
  if negb (argc =? 2) then Some (1, emit (Log Usage) st)
  else if negb allocated then Some (1, emit (Log Could_not_allocate) st)
  else if open_ret s <? 0 then Some (finish E (set_ret (open_ret s) unset))
  else
    r <- init_filters g s ;;
    if r <? 0 then Some (finish E (set_ret r unset))
    else
      let st := set_ret r st in
      res <- read_loop E g (reads s) (receives s) st ;;
      Some (finish E (snd res)).

(** The set-up of [main] fails with the code [code]. *)
Definition setup_fails (g : globals) (s : script) (code : Z) : Prop :=
  (open_ret s < 0 /\ code = open_ret s)
  \/ (0 <= open_ret s /\ init_filters g s = Some code /\ code < 0).

(* ================================================================== *)
(** ** Notions used in the proofs *)

(** Not negative: a zero, a positive number, plus infinity, or NaN. *)
Definition not_negative (f : spec_float) : Prop :=
  match f with
  | S754_zero _ => True
  | S754_infinity s => s = false
  | S754_nan => True
  | S754_finite s _ _ => s = false
  end.

(** A positive normal double: a 53-bit mantissa, and a magnitude (53
    plus the exponent, so that the value lies in [2^(mag-1), 2^mag)) between
    [lo] and [hi]. *)
Definition normal_pos (x : spec_float) (lo hi : Z) : Prop :=
  exists (m : positive) (e : Z),
    x = S754_finite false m e
    /\ Zpos (digits2_pos m) = 53
    /\ lo <= 53 + e <= hi.

(** The doubles [init_filters] holds in [target_height] after the floor
    at 1, for a source whose (possibly corrected) width is [video_width]. *)
Definition floored_height (video_width video_height : float) : float :=
  let h :=
    CDouble.round
      (CDouble.of_int MAX_ASCII_WIDTH
       / (video_width / video_height / CHARACTER_ASPECT_RATIO))%float in
  if (h <? 1)%float then 1%float else h.

(** No statement of the loops assigns [frame_displayed]; a [goto end]
    out of them carries a negative code other than [AVERROR_EOF]. *)
Definition left_properly (E : averror) (fl : flow) (st st' : state) : Prop :=
  frame_displayed st' = frame_displayed st
  /\ (fl = Goto_end -> ret st' < 0 /\ ret st' <> AVERROR_EOF E).

(** What one pass of the read loop's body adds to the trace when the
    packet yields a frame. *)
Definition one_pass : list event :=
  [Display_frame frame_2x2; Frame_unref_filt_frame; Frame_unref_frame;
   Packet_unref].


(* ================================================================== *)
(** ** Notions used for the runs of main *)

(** The messages the loops of [main] log, with the codes they can carry:
    four of them report the negative code their call returned; the
    message for a failed [av_buffersrc_add_frame_flags] prints [ret],
    which still holds the code of the [avcodec_receive_frame] before it. *)
Definition loop_message (m : message) : Prop :=
  match m with
  | Error_reading_frame c | Error_sending_packet c
  | Error_receiving_frame c | Error_pulling_from_filtergraph c => c < 0
  | Error_feeding_filtergraph c => 0 <= c
  | Usage | Could_not_allocate | Program_finished_with_error _
  | End_of_file_no_frame => False
  end.

Definition loop_event (e : event) : Prop :=
  match e with
  | Log m => loop_message m
  | Free_all => False
  | Display_frame _ | Frame_unref_filt_frame | Frame_unref_frame
  | Packet_unref => True
  end.

(** [m] is the message of a call that ends the run, for the code [c]. *)
Definition origin (m : message) (c : Z) : Prop :=
  m = Error_reading_frame c \/ m = Error_sending_packet c
  \/ m = Error_receiving_frame c \/ m = Error_pulling_from_filtergraph c.

(** What [display_frame] writes for [f]. *)
Definition rendering (f : AVFrame.t) : list stdout_op :=
  match display_frame f (AVRational.mk 0 1) [] with
  | Some ops => ops
  | None => []
  end.

(** What the calls of [display_frame] in a trace write, in order. *)
Fixpoint shown (t : list event) : list stdout_op :=
  match t with
  | [] => []
  | Display_frame f :: t' => rendering f ++ shown t'
  | _ :: t' => shown t'
  end.

(** The filtered frame is released right after each call of
    [display_frame] and at no other point; [held] tells whether a frame
    has been displayed and not yet released. *)
Fixpoint released_at_once (held : bool) (t : list event) : bool :=
  match t with
  | [] => negb held
  | Display_frame _ :: t' => negb held && released_at_once true t'
  | Frame_unref_filt_frame :: t' => held && released_at_once false t'
  | _ :: t' => negb held && released_at_once false t'
  end.

(** One thing the loops of [main] do to the state: an assignment to [ret]
    or the consumption of an answer (nothing written, nothing recorded), a
    message, a frame displayed and released, or a release. *)
Inductive action (g : globals) : state -> state -> Prop :=
| Quiet (st st' : state) :
    stdout st' = stdout st -> trace st' = trace st ->
    frame_displayed st' = frame_displayed st ->
    action g st st'
| Logs (m : message) (st : state) :
    loop_message m -> action g st (emit (Log m) st)
| Displays (f : AVFrame.t) (out : list stdout_op) (st : state) :
    display_frame f (stream_time_base g) (stdout st) = Some out ->
    action g st
      (emit Frame_unref_filt_frame (emit (Display_frame f) (set_stdout out st)))
| Releases_frame (st : state) : action g st (emit Frame_unref_frame st)
| Releases_packet (st : state) : action g st (emit Packet_unref st).

Inductive actions (g : globals) : state -> state -> Prop :=
| Done (st : state) : actions g st st
| Then (st1 st2 st3 : state) :
    actions g st1 st2 -> action g st2 st3 -> actions g st1 st3.

(** How the read loop leaves [ret] and the trace: at the end of the file,
    or with a negative code right after the message of the call that
    returned it. *)
Definition ended (E : averror) (st : state) : Prop :=
  ret st = AVERROR_EOF E
  \/ (ret st < 0 /\ ret st <> AVERROR_EOF E
      /\ exists (tr : list event) (m : message),
           trace st = tr ++ [Log m] /\ origin m (ret st)).

(** Every byte [display_frame] dereferences for [frame] lies in its plane:
    [data[0] + y * linesize[0] + x] for each row [y] below the height and
    each column [x] below the width. *)
Definition in_bounds (frame : AVFrame.t) : Prop :=
  forall y x : Z,
    0 <= y < AVFrame.height frame ->
    0 <= x < AVFrame.width frame ->
    0 <= AVFrame.data0 frame + y * AVFrame.linesize0 frame + x
      < Z.of_nat (List.length (AVFrame.plane frame)).

(** The sample of [frame] in row [y] and column [x]. *)
Definition sample_at (frame : AVFrame.t) (y x : nat) : Byte.byte :=
  match load (AVFrame.plane frame)
          (AVFrame.data0 frame + Z.of_nat y * AVFrame.linesize0 frame + Z.of_nat x)
  with
  | Some b => b
  | None => Byte.x00
  end.

(** A packet of a stream other than the video stream, read without error. *)
Definition other_stream (g : globals) (p : Z * Z) : Prop :=
  0 <= fst p /\ snd p <> video_stream_index g.

(** An answer of [av_buffersink_get_frame] whose frame, if it is one, can
    be displayed. *)
Definition displayable (p : Z * AVFrame.t) : Prop :=
  0 <= fst p -> in_bounds (snd p).

(** The double [init_filters] holds in [video_width] after the correction
    by the sample aspect ratio. *)
Definition video_width (g : globals) (input_width : Z) : float :=
  let sar := AVCodecContext.sample_aspect_ratio (dec_ctx g) in
  if (0 <? AVRational.num sar) && (0 <? AVRational.den sar)
  then (CDouble.of_int input_width * av_q2d sar)%float
  else CDouble.of_int input_width.

(* ================================================================== *)
(** ** Facts about binary64 arithmetic *)

Module FloatFacts.

Lemma iter_pos_is_iter {A : Type} (f : A -> A) (n : positive) :
  forall x, SpecFloat.iter_pos f n x = Pos.iter f x n.
Proof.
  induction n as [n IH | n IH | ]; intros x; simpl.
  - now rewrite !IH, <- !Pos.iter_swap.
  - now rewrite !IH.
  - reflexivity.
Qed.

Lemma digits2_pos_shift (n : positive) :
  forall p, digits2_pos (Pos.iter xO p n) = (digits2_pos p + n)%positive.
Proof.
  induction n as [ | n IH] using Pos.peano_ind; intros p.
  - simpl. lia.
  - rewrite Pos.iter_succ. simpl. rewrite IH. lia.
Qed.

Lemma Zpos_shift (n : positive) :
  forall p, Zpos (Pos.iter xO p n) = Zpos p * 2 ^ Zpos n.
Proof.
  induction n as [ | n IH] using Pos.peano_ind; intros p.
  - simpl. lia.
  - rewrite Pos.iter_succ, Pos2Z.inj_succ, Z.pow_succ_r by lia.
    rewrite Pos2Z.inj_xO, IH. ring.
Qed.

Lemma shr_1_shift (n : positive) :
  forall p,
    Pos.iter shr_1 (Build_shr_record (Zpos (Pos.iter xO p n)) false false) n
    = Build_shr_record (Zpos p) false false.
Proof.
  induction n as [ | n IH] using Pos.peano_ind; intros p.
  - reflexivity.
  - rewrite (Pos.iter_succ_r n positive xO p), (Pos.iter_succ n shr_record shr_1), IH.
    reflexivity.
Qed.

Lemma digits2_pos_bounds (p : positive) :
  2 ^ (Zpos (digits2_pos p) - 1) <= Zpos p < 2 ^ Zpos (digits2_pos p).
Proof.
  induction p as [p IH | p IH | ]; simpl digits2_pos.
  - rewrite Pos2Z.inj_succ, Z.pow_succ_r by lia.
    replace (Z.succ (Zpos (digits2_pos p)) - 1)
      with (Z.succ (Zpos (digits2_pos p) - 1)) by lia.
    rewrite Z.pow_succ_r by lia. lia.
  - rewrite Pos2Z.inj_succ, Z.pow_succ_r by lia.
    replace (Z.succ (Zpos (digits2_pos p)) - 1)
      with (Z.succ (Zpos (digits2_pos p) - 1)) by lia.
    rewrite Z.pow_succ_r by lia. lia.
  - simpl. lia.
Qed.

(** A mantissa already in canonical position is left alone by rounding. *)
Lemma binary_round_aux_canonical (s : bool) (m : positive) (e : Z) :
  bounded prec emax m e = true ->
  binary_round_aux prec emax s (Zpos m) e loc_Exact = S754_finite s m e.
Proof.
  unfold bounded, canonical_mantissa. intros H.
  apply andb_true_iff in H. destruct H as [Hc He].
  apply Z.eqb_eq in Hc.
  unfold binary_round_aux, shr_fexp.
  cbn [Zdigits2]. rewrite Hc, Z.sub_diag.
  cbn [shr shr_record_of_loc shr_m loc_of_shr_record round_nearest_even Zdigits2].
  rewrite Hc, Z.sub_diag.
  cbn [shr shr_record_of_loc shr_m].
  now rewrite He.
Qed.

(** The same mantissa shifted left by [n] bits, with the exponent lowered
    by [n], rounds back to it exactly. *)
Lemma binary_round_aux_shifted (s : bool) (m n : positive) (e : Z) :
  bounded prec emax m e = true ->
  binary_round_aux prec emax s (Zpos (Pos.iter xO m n)) (e - Zpos n) loc_Exact
  = S754_finite s m e.
Proof.
  intros H. generalize H. unfold bounded, canonical_mantissa. intros H'.
  apply andb_true_iff in H'. destruct H' as [Hc He].
  apply Z.eqb_eq in Hc.
  unfold binary_round_aux at 1. unfold shr_fexp at 1. cbn [Zdigits2].
  rewrite digits2_pos_shift.
  replace (Zpos (digits2_pos m + n) + (e - Zpos n))
    with (Zpos (digits2_pos m) + e) by lia.
  rewrite Hc.
  replace (e - (e - Zpos n)) with (Zpos n) by lia.
  unfold shr_record_of_loc, shr.
  rewrite iter_pos_is_iter, shr_1_shift.
  replace (e - Zpos n + Zpos n) with e by lia.
  cbn [shr_m loc_of_shr_record round_nearest_even].
  unfold shr_fexp. cbn [Zdigits2]. rewrite Hc, Z.sub_diag.
  cbn [shr shr_record_of_loc shr_m].
  now rewrite He.
Qed.

Lemma xorb_false_r' (s : bool) : xorb s false = s.
Proof. now destruct s. Qed.

Lemma Prim2SF_one : Prim2SF 1%float = S754_finite false 4503599627370496 (-52).
Proof. reflexivity. Qed.

(** Multiplying a double by 1.0 is the identity. *)
Lemma mul_one (x : float) : (x * 1)%float = x.
Proof.
  apply Prim2SF_inj. rewrite FloatAxioms.mul_spec, Prim2SF_one.
  pose proof (Prim2SF_valid x) as Hv.
  destruct (Prim2SF x) as [s | s | | s m e]; unfold SF64mul; simpl;
    rewrite ?xorb_false_r'; try reflexivity.
  replace (m * 4503599627370496)%positive with (Pos.iter xO m 52)
    by (rewrite Pos.mul_comm; reflexivity).
  change (e + -52) with (e - 52).
  now apply binary_round_aux_shifted.
Qed.

Lemma Prim2SF_zero : Prim2SF 0%float = S754_zero false.
Proof. reflexivity. Qed.

Lemma Prim2SF_two : Prim2SF 2%float = S754_finite false 4503599627370496 (-51).
Proof. reflexivity. Qed.

(** The double made from a positive integer below 2^52: the integer
    shifted up to 53 bits, with the matching negative exponent. *)
Lemma Prim2SF_of_pos (p : positive) :
  Zpos p < 2 ^ 52 ->
  exists k : positive,
    Prim2SF (PrimFloat.of_uint63 (Uint63.of_Z (Zpos p)))
    = S754_finite false (Pos.iter xO p k) (Zneg k).
Proof.
  intros Hp.
  destruct (digits2_pos_bounds p) as [Hlo _].
  assert (Hd : Zpos (digits2_pos p) - 1 < 52).
  { apply (Z.pow_lt_mono_r_iff 2); lia. }
  exists (Z.to_pos (53 - Zpos (digits2_pos p))).
  set (k := Z.to_pos (53 - Zpos (digits2_pos p))).
  assert (Hk : Zpos k = 53 - Zpos (digits2_pos p)) by (unfold k; lia).
  rewrite of_uint63_spec, Uint63.of_Z_spec.
  rewrite Z.mod_small by (change wB with (2 ^ 63); lia).
  unfold binary_normalize, binary_round, shl_align.
  replace (fexp prec emax (Zpos (digits2_pos p) + 0)) with (Zneg k)
    by (unfold fexp, SpecFloat.emin, prec, emax; lia).
  cbn [Z.sub Z.opp Z.add].
  apply binary_round_aux_canonical.
  unfold bounded, canonical_mantissa.
  rewrite digits2_pos_shift.
  apply andb_true_iff. split.
  - apply Z.eqb_eq. unfold fexp, SpecFloat.emin, prec, emax. lia.
  - apply Z.leb_le. unfold prec, emax. lia.
Qed.

Lemma in_range_bounds (z : Z) :
  CInt.in_range z = true -> - 2 ^ 31 <= z < 2 ^ 31.
Proof.
  unfold CInt.in_range, CInt.INT_MIN, CInt.INT_MAX. intros H.
  apply andb_true_iff in H. destruct H as [H1 H2].
  apply Z.leb_le in H1. apply Z.leb_le in H2.
  change (2 ^ 31) with 2147483648. lia.
Qed.

(** Shape of [(double) z] for a non-zero [int]. *)
Lemma Prim2SF_of_int (z : Z) :
  CInt.in_range z = true -> z <> 0 ->
  exists (m k : positive),
    Prim2SF (CDouble.of_int z) = S754_finite (z <? 0) m (Zneg k)
    /\ Zpos m = Z.abs z * 2 ^ Zpos k.
Proof.
  intros Hr Hz. apply in_range_bounds in Hr.
  assert (H52 : 2 ^ 31 < 2 ^ 52) by (apply Z.pow_lt_mono_r; lia).
  unfold CDouble.of_int.
  destruct z as [ | p | p]; [congruence | | ].
  - destruct (Prim2SF_of_pos p) as [k Hk]; [lia | ].
    exists (Pos.iter xO p k), k. split; [exact Hk | apply Zpos_shift].
  - destruct (Prim2SF_of_pos p) as [k Hk]; [lia | ].
    exists (Pos.iter xO p k), k. split; [ | apply Zpos_shift].
    change (Zneg p <? 0) with true. change (- Zneg p) with (Zpos p).
    cbv iota. now rewrite FloatAxioms.opp_spec, Hk.
Qed.

(** Converting an [int] to double and back gives the same [int]. *)
Lemma to_int_of_int (z : Z) :
  CInt.in_range z = true -> CDouble.to_int (CDouble.of_int z) = Some z.
Proof.
  intros Hr. destruct (Z.eq_dec z 0) as [-> | Hz]; [reflexivity | ].
  destruct (Prim2SF_of_int z Hr Hz) as (m & k & Hsf & Hm).
  unfold CDouble.to_int. rewrite Hsf.
  change (0 <=? Zneg k) with false. change (- Zneg k) with (Zpos k).
  rewrite Hm, Z.div_mul by (apply Z.pow_nonzero; lia).
  replace (if z <? 0 then - Z.abs z else Z.abs z) with z
    by (destruct (Z.ltb_spec z 0); lia).
  now rewrite Hr.
Qed.

(** [(double) z == 0] holds exactly when [z] is 0. *)
Lemma of_int_eqb_zero (z : Z) :
  CInt.in_range z = true -> (CDouble.of_int z =? 0)%float = (z =? 0).
Proof.
  intros Hr. destruct (Z.eq_dec z 0) as [-> | Hz]; [reflexivity | ].
  destruct (Prim2SF_of_int z Hr Hz) as (m & k & Hsf & _).
  rewrite FloatAxioms.eqb_spec, Hsf, Prim2SF_zero.
  unfold SFeqb, SFcompare.
  destruct (z <? 0); symmetry; now apply Z.eqb_neq.
Qed.

(** *** Signs *)


Lemma binary_round_aux_sign (m e : Z) (l : location) :
  not_negative (binary_round_aux prec emax false m e l).
Proof.
  unfold binary_round_aux.
  destruct (shr_fexp prec emax m e l) as [mrs e'].
  destruct (shr_fexp prec emax _ e' loc_Exact) as [mrs' e''].
  destruct (shr_m mrs'); cbn [not_negative]; auto.
  destruct (e'' <=? emax - prec); reflexivity.
Qed.

Lemma half_sign (x : float) :
  not_negative (Prim2SF x) -> not_negative (Prim2SF (x / 2)%float).
Proof.
  rewrite FloatAxioms.div_spec, Prim2SF_two. unfold SF64div, SFdiv.
  destruct (Prim2SF x) as [s | s | | s m e]; simpl; auto.
  - intros ->. reflexivity.
  - intros ->.
    destruct (SFdiv_core_binary prec emax (Zpos m) e 4503599627370496 (-51))
      as [[mz ez] lz].
    apply binary_round_aux_sign.
Qed.

Lemma of_uint63_sign (n : int) :
  not_negative (Prim2SF (PrimFloat.of_uint63 n)).
Proof.
  rewrite of_uint63_spec. unfold binary_normalize.
  pose proof (Uint63.to_Z_bounded n) as Hn.
  destruct (Uint63.to_Z n) as [ | p | p]; simpl; auto; [ | lia].
  unfold binary_round.
  destruct (shl_align p 0 _) as [mz ez].
  apply binary_round_aux_sign.
Qed.

Lemma round_sign (x : float) :
  not_negative (Prim2SF x) -> not_negative (Prim2SF (CDouble.round x)).
Proof.
  unfold CDouble.round. intros H.
  destruct (Prim2SF x) as [s | s | | s m e] eqn:E; try (rewrite E; exact H).
  simpl in H. subst s.
  destruct (0 <=? e); [rewrite E; reflexivity | apply of_uint63_sign].
Qed.

Lemma to_int_sign (x : float) (i : Z) :
  not_negative (Prim2SF x) -> CDouble.to_int x = Some i -> 0 <= i.
Proof.
  unfold CDouble.to_int.
  destruct (Prim2SF x) as [s | s | | s m e]; cbn [not_negative];
    intros H Hi; try discriminate.
  - injection Hi as <-. lia.
  - subst s.
    assert (Ht : 0 <= (if 0 <=? e then Zpos m * 2 ^ e else Zpos m / 2 ^ (- e))).
    { destruct (Z.leb_spec 0 e).
      - apply Z.mul_nonneg_nonneg; [lia | apply Z.pow_nonneg; lia].
      - apply Z.div_pos; [lia | apply Z.pow_pos_nonneg; lia]. }
    revert Hi Ht. cbv zeta.
    generalize (if 0 <=? e then Zpos m * 2 ^ e else Zpos m / 2 ^ (- e)).
    intros t Hi Ht.
    destruct (CInt.in_range t); [ | discriminate].
    injection Hi as <-. exact Ht.
Qed.

(** The floor at 1: [if (h < 1) h = 1] leaves a value that is not negative. *)
Lemma floor_one_sign (h : float) :
  not_negative (Prim2SF (if (h <? 1)%float then 1%float else h)).
Proof.
  destruct (h <? 1)%float eqn:E; [rewrite Prim2SF_one; reflexivity | ].
  rewrite FloatAxioms.ltb_spec, Prim2SF_one in E.
  unfold SFltb, SFcompare in E.
  destruct (Prim2SF h) as [s | s | | s m e]; cbn [not_negative]; auto;
    destruct s; try reflexivity; discriminate E.
Qed.

(** *** Magnitudes *)

(** A positive number between 2^(k-1) and 2^k has k binary digits. *)
Lemma digits2_pos_unique (p : positive) (k : Z) :
  2 ^ (k - 1) <= Zpos p < 2 ^ k -> Zpos (digits2_pos p) = k.
Proof.
  intros [Hlo Hhi]. destruct (digits2_pos_bounds p) as [Dlo Dhi].
  assert (0 <= k).
  { destruct (Z.le_gt_cases 0 k); [assumption | ].
    rewrite Z.pow_neg_r in Hhi by assumption. lia. }
  assert (k - 1 < Zpos (digits2_pos p)).
  { apply (Z.pow_lt_mono_r_iff 2); lia. }
  assert (Zpos (digits2_pos p) - 1 < k).
  { apply (Z.pow_lt_mono_r_iff 2); lia. }
  lia.
Qed.

Lemma shr_m_shr_1 (mrs : shr_record) :
  0 <= shr_m mrs -> shr_m (shr_1 mrs) = shr_m mrs / 2.
Proof.
  destruct mrs as [m r s]. cbn [shr_m]. intros H.
  destruct m as [ | [p | p | ] | p]; cbn [shr_1 shr_m].
  - reflexivity.
  - rewrite Pos2Z.inj_xI. apply (Z.div_unique _ _ _ 1); lia.
  - rewrite Pos2Z.inj_xO. apply (Z.div_unique _ _ _ 0); lia.
  - reflexivity.
  - lia.
Qed.

Lemma shr_m_iter (n : positive) :
  forall mrs : shr_record,
    0 <= shr_m mrs ->
    shr_m (SpecFloat.iter_pos shr_1 n mrs) = shr_m mrs / 2 ^ Zpos n.
Proof.
  intros mrs. rewrite iter_pos_is_iter.
  induction n as [ | n IH] using Pos.peano_ind; intros H.
  - cbn [Pos.iter]. now rewrite shr_m_shr_1.
  - rewrite Pos.iter_succ, shr_m_shr_1, IH by
      (try rewrite IH; try apply Z.div_pos; try apply Z.pow_pos_nonneg; lia).
    rewrite Pos2Z.inj_succ, Z.pow_succ_r, Z.div_div by
      (try apply Z.pow_pos_nonneg; lia).
    f_equal. lia.
Qed.

Lemma round_nearest_even_bounds (m : Z) (l : location) :
  m <= round_nearest_even m l <= m + 1.
Proof.
  destruct l as [ | [ | | ]]; cbn [round_nearest_even]; try lia.
  destruct (Z.even m); lia.
Qed.

Lemma shr_m_of_loc (m : Z) (l : location) :
  shr_m (shr_record_of_loc m l) = m.
Proof. destruct l as [ | [ | | ]]; reflexivity. Qed.

Lemma pow2_53 : 2 ^ 53 = 9007199254740992.
Proof. reflexivity. Qed.

Lemma pow2_52 : 2 ^ 52 = 4503599627370496.
Proof. reflexivity. Qed.

(** Rounding a mantissa of at least 53 bits, away from the limits of the
    exponent range: the result is a normal number whose magnitude (number of
    bits plus exponent) is that of the input, or one more. *)
Lemma binary_round_aux_normal (s : bool) (mx : positive) (ex : Z) (lx : location) :
  53 <= Zpos (digits2_pos mx) ->
  -1000 <= Zpos (digits2_pos mx) + ex <= 1000 ->
  exists (m : positive) (e : Z),
    binary_round_aux prec emax s (Zpos mx) ex lx = S754_finite s m e
    /\ Zpos (digits2_pos m) = 53
    /\ Zpos (digits2_pos mx) + ex <= 53 + e <= Zpos (digits2_pos mx) + ex + 1.
Proof.
  intros Hd Hmag.
  destruct (digits2_pos_bounds mx) as [Dlo Dhi].
  set (d := Zpos (digits2_pos mx)) in *.
  assert (Hshr : exists mrs : shr_record,
             shr_fexp prec emax (Zpos mx) ex lx = (mrs, d + ex - 53)
             /\ 2 ^ 52 <= shr_m mrs < 2 ^ 53).
  { unfold shr_fexp. cbn [Zdigits2]. fold d.
    replace (fexp prec emax (d + ex)) with (d + ex - 53)
      by (unfold fexp, SpecFloat.emin, prec, emax; lia).
    replace (d + ex - 53 - ex) with (d - 53) by lia.
    destruct (d - 53) as [ | n | n] eqn:En; [ | | lia].
    - exists (shr_record_of_loc (Zpos mx) lx). unfold shr. split.
      + f_equal. lia.
      + rewrite shr_m_of_loc. replace d with 53 in * by lia.
        change (53 - 1) with 52 in Dlo. lia.
    - exists (SpecFloat.iter_pos shr_1 n (shr_record_of_loc (Zpos mx) lx)).
      unfold shr. split.
      + f_equal. lia.
      + rewrite shr_m_iter, shr_m_of_loc by (rewrite shr_m_of_loc; lia).
        assert (Hpow : 2 ^ d = 2 ^ 53 * 2 ^ Zpos n).
        { rewrite <- Z.pow_add_r by lia. f_equal. lia. }
        assert (Hpow' : 2 ^ (d - 1) = 2 ^ 52 * 2 ^ Zpos n).
        { rewrite <- Z.pow_add_r by lia. f_equal. lia. }
        assert (0 < 2 ^ Zpos n) by (apply Z.pow_pos_nonneg; lia).
        split.
        * apply Z.div_le_lower_bound; lia.
        * apply Z.div_lt_upper_bound; lia. }
  destruct Hshr as (mrs & Hshr & Hb).
  unfold binary_round_aux. rewrite Hshr.
  pose proof (round_nearest_even_bounds (shr_m mrs) (loc_of_shr_record mrs)) as Hr.
  destruct (round_nearest_even (shr_m mrs) (loc_of_shr_record mrs))
    as [ | p1 | p1]; [lia | | lia].
  destruct (Z.eq_dec (Zpos p1) (2 ^ 53)) as [Heq | Hne].
  - rewrite pow2_53 in Heq. injection Heq as ->.
    unfold shr_fexp. cbn [Zdigits2 digits2_pos Pos.succ].
    replace (fexp prec emax (54 + (d + ex - 53)) - (d + ex - 53)) with 1
      by (unfold fexp, SpecFloat.emin, prec, emax; lia).
    cbn [shr shr_record_of_loc SpecFloat.iter_pos shr_1 shr_m].
    replace (d + ex - 53 + 1 <=? emax - prec) with true
      by (symmetry; apply Z.leb_le; unfold emax, prec; lia).
    exists 4503599627370496%positive, (d + ex - 53 + 1).
    split; [reflexivity | ]. split; [reflexivity | lia].
  - assert (Hd1 : Zpos (digits2_pos p1) = 53).
    { apply digits2_pos_unique. change (53 - 1) with 52. lia. }
    unfold shr_fexp. cbn [Zdigits2]. rewrite Hd1.
    replace (fexp prec emax (53 + (d + ex - 53)) - (d + ex - 53)) with 0
      by (unfold fexp, SpecFloat.emin, prec, emax; lia).
    cbn [shr shr_record_of_loc shr_m].
    replace (d + ex - 53 <=? emax - prec) with true
      by (symmetry; apply Z.leb_le; unfold emax, prec; lia).
    exists p1, (d + ex - 53). split; [reflexivity | ]. split; [exact Hd1 | lia].
Qed.

Lemma digits2_pos_le (p : positive) (a : Z) :
  Zpos p < 2 ^ a -> Zpos (digits2_pos p) <= a.
Proof.
  intros H. destruct (digits2_pos_bounds p) as [Dlo _].
  assert (0 <= a).
  { destruct (Z.le_gt_cases 0 a); [assumption | ].
    rewrite Z.pow_neg_r in H by assumption. lia. }
  assert (Zpos (digits2_pos p) - 1 < a);
    [apply (Z.pow_lt_mono_r_iff 2); lia | lia].
Qed.

(** [(double) z] for [1 <= z < 2^a] is normal, of magnitude between 1
    and [a]. *)
Lemma of_int_normal (z a : Z) :
  1 <= z < 2 ^ a -> a <= 52 ->
  normal_pos (Prim2SF (CDouble.of_int z)) 1 a.
Proof.
  intros [Hlo Hhi] Ha. destruct z as [ | p | p]; try lia.
  assert (H52 : 2 ^ a <= 2 ^ 52) by (apply Z.pow_le_mono_r; lia).
  destruct (Prim2SF_of_pos p) as [k Hk]; [lia | ].
  pose proof (Prim2SF_valid (PrimFloat.of_uint63 (Uint63.of_Z (Zpos p)))) as Hv.
  rewrite Hk in Hv. cbn [SpecFloat.valid_binary] in Hv.
  unfold bounded, canonical_mantissa in Hv.
  apply andb_true_iff in Hv. destruct Hv as [Hc _]. apply Z.eqb_eq in Hc.
  rewrite digits2_pos_shift in Hc.
  pose proof (digits2_pos_le p a Hhi) as Hda.
  assert (Hdk : Zpos (digits2_pos p) + Zpos k = 53).
  { revert Hc. unfold fexp, SpecFloat.emin, prec, emax.
    pose proof (Pos2Z.is_pos (digits2_pos p)). lia. }
  unfold CDouble.of_int. change (Zpos p <? 0) with false. cbv iota.
  exists (Pos.iter xO p k), (Zneg k). split; [exact Hk | ].
  rewrite digits2_pos_shift. split; [lia | ].
  pose proof (Pos2Z.is_pos (digits2_pos p)). lia.
Qed.

Lemma normal_pos_weaken (x : spec_float) (lo hi lo' hi' : Z) :
  normal_pos x lo hi -> lo' <= lo -> hi <= hi' -> normal_pos x lo' hi'.
Proof.
  intros (m & e & Hx & Hd & Hm) Hlo Hhi. exists m, e. repeat split; try assumption; lia.
Qed.

Lemma mantissa_bounds (m : positive) :
  Zpos (digits2_pos m) = 53 -> 2 ^ 52 <= Zpos m < 2 ^ 53.
Proof.
  intros H. pose proof (digits2_pos_bounds m) as Hb. rewrite H in Hb.
  exact Hb.
Qed.

(** The product of two normal numbers. *)
Lemma mul_normal (x y : float) (lx hx ly hy : Z) :
  normal_pos (Prim2SF x) lx hx -> normal_pos (Prim2SF y) ly hy ->
  -400 <= lx -> hx <= 400 -> -400 <= ly -> hy <= 400 ->
  normal_pos (Prim2SF (x * y)%float) (lx + ly - 1) (hx + hy + 1).
Proof.
  intros (mx & ex & Hx & Hdx & Hmx) (my & ey & Hy & Hdy & Hmy) Hlx Hhx Hly Hhy.
  rewrite FloatAxioms.mul_spec, Hx, Hy. unfold SF64mul, SFmul. cbn [xorb].
  pose proof (mantissa_bounds _ Hdx) as Bx.
  pose proof (mantissa_bounds _ Hdy) as By.
  rewrite pow2_52, pow2_53 in Bx, By.
  destruct (digits2_pos_bounds (mx * my)) as [Dlo Dhi].
  rewrite Pos2Z.inj_mul in Dlo, Dhi.
  assert (H104 : 2 ^ 104 <= Zpos mx * Zpos my).
  { change (2 ^ 104) with (4503599627370496 * 4503599627370496). nia. }
  assert (H106 : Zpos mx * Zpos my < 2 ^ 106).
  { change (2 ^ 106) with (9007199254740992 * 9007199254740992). nia. }
  assert (Hd : 105 <= Zpos (digits2_pos (mx * my)) <= 106).
  { split.
    - assert (104 < Zpos (digits2_pos (mx * my)));
        [apply (Z.pow_lt_mono_r_iff 2); lia | lia].
    - assert (Zpos (digits2_pos (mx * my)) - 1 < 106);
        [apply (Z.pow_lt_mono_r_iff 2); lia | lia]. }
  destruct (binary_round_aux_normal false (mx * my) (ex + ey) loc_Exact)
    as (m & e & Hr & Hdm & Hmag); [lia | lia | ].
  exists m, e. split; [exact Hr | ]. split; [exact Hdm | lia].
Qed.

(** The quotient of two normal numbers. *)
Lemma div_normal (x y : float) (lx hx ly hy : Z) :
  normal_pos (Prim2SF x) lx hx -> normal_pos (Prim2SF y) ly hy ->
  -400 <= lx -> hx <= 400 -> -400 <= ly -> hy <= 400 ->
  normal_pos (Prim2SF (x / y)%float) (lx - hy) (hx - ly + 2).
Proof.
  intros (mx & ex & Hx & Hdx & Hmx) (my & ey & Hy & Hdy & Hmy) Hlx Hhx Hly Hhy.
  rewrite FloatAxioms.div_spec, Hx, Hy. unfold SF64div, SFdiv. cbn [xorb].
  pose proof (mantissa_bounds _ Hdx) as Bx.
  pose proof (mantissa_bounds _ Hdy) as By.
  rewrite pow2_52, pow2_53 in Bx, By.
  unfold SFdiv_core_binary. cbn [Zdigits2]. rewrite Hdx, Hdy.
  replace (Z.min (fexp prec emax (53 + ex - (53 + ey))) (ex - ey))
    with (ex - ey - 53)
    by (unfold fexp, SpecFloat.emin, prec, emax; lia).
  replace (ex - ey - (ex - ey - 53)) with 53 by lia.
  rewrite Z.shiftl_mul_pow2 by lia. rewrite pow2_53.
  pose proof (Z.div_eucl_eq (Zpos mx * 9007199254740992) (Zpos my)) as Hdiv.
  pose proof (Z.mod_pos_bound (Zpos mx * 9007199254740992) (Zpos my)) as Hmod.
  unfold Z.modulo in Hmod.
  destruct (Z.div_eucl (Zpos mx * 9007199254740992) (Zpos my)) as [q r].
  specialize (Hdiv ltac:(lia)). specialize (Hmod ltac:(lia)).
  assert (Hq : 2 ^ 52 <= q < 2 ^ 54).
  { rewrite pow2_52. change (2 ^ 54) with 18014398509481984. nia. }
  destruct q as [ | q | q]; [lia | | lia].
  assert (Hd : 53 <= Zpos (digits2_pos q) <= 54).
  { destruct (digits2_pos_bounds q) as [Dlo Dhi]. split.
    - assert (52 < Zpos (digits2_pos q));
        [apply (Z.pow_lt_mono_r_iff 2); lia | lia].
    - assert (Zpos (digits2_pos q) - 1 < 54);
        [apply (Z.pow_lt_mono_r_iff 2); lia | lia]. }
  destruct (binary_round_aux_normal false q (ex - ey - 53)
              (new_location (Zpos my) r))
    as (m & e & Hr & Hdm & Hmag); [lia | lia | ].
  exists m, e. split; [exact Hr | ]. split; [exact Hdm | lia].
Qed.

(** [round] of a normal number below 2^40: a small non-negative integer,
    converted back to double. *)
Lemma round_small (x : float) (lo hi : Z) :
  normal_pos (Prim2SF x) lo hi -> 0 <= hi <= 40 ->
  exists q : Z, 0 <= q <= 2 ^ hi /\ CDouble.round x = CDouble.of_int q.
Proof.
  intros (m & e & Hx & Hd & Hm) Hhi.
  pose proof (mantissa_bounds _ Hd) as [_ Bm].
  unfold CDouble.round. rewrite Hx.
  replace (0 <=? e) with false by (symmetry; apply Z.leb_gt; lia).
  set (q := (Zpos m + 2 ^ (- e - 1)) / 2 ^ (- e)).
  assert (Hpos : 0 < 2 ^ (- e)) by (apply Z.pow_pos_nonneg; lia).
  assert (Hhalf : 0 <= 2 ^ (- e - 1) < 2 ^ (- e)).
  { split; [apply Z.pow_nonneg; lia | apply Z.pow_lt_mono_r; lia]. }
  assert (Hq : 0 <= q <= 2 ^ hi).
  { split; [apply Z.div_pos; lia | ].
    apply Z.lt_succ_r, Z.div_lt_upper_bound; [exact Hpos | ].
    assert (2 ^ 53 <= 2 ^ hi * 2 ^ (- e)).
    { rewrite <- Z.pow_add_r by lia. apply Z.pow_le_mono_r; lia. }
    lia. }
  exists q. split; [exact Hq | ].
  unfold CDouble.of_int.
  now replace (q <? 0) with false by (symmetry; apply Z.ltb_ge; lia).
Qed.

Lemma of_int_one : CDouble.of_int 1 = 1%float.
Proof. reflexivity. Qed.

(** [(double) q < 1] for an [int] [q] that is not negative. *)
Lemma of_int_ltb_one (q : Z) :
  0 <= q < 2 ^ 31 -> (CDouble.of_int q <? 1)%float = (q <? 1).
Proof.
  intros Hq. destruct (Z.eq_dec q 0) as [-> | Hne]; [reflexivity | ].
  replace (q <? 1) with false by (symmetry; apply Z.ltb_ge; lia).
  destruct (of_int_normal q 31) as (m & e & Hsf & Hd & Hm); [lia | lia | ].
  pose proof (mantissa_bounds _ Hd) as [Bm _]. rewrite pow2_52 in Bm.
  rewrite FloatAxioms.ltb_spec, Hsf, Prim2SF_one.
  unfold SFltb, SFcompare.
  destruct (Z.compare_spec e (-52)) as [He | He | He]; [ | lia | reflexivity].
  rewrite Pos.compare_cont_spec.
  destruct (Pos.compare_spec m 4503599627370496) as [Hc | Hc | Hc];
    [reflexivity | | reflexivity].
  apply Pos2Z.pos_lt_pos in Hc. clear - Hc Bm. lia.
Qed.

End FloatFacts.

(* ================================================================== *)
(** ** The scale calculation of init_filters *)

Module Geometry.
Import FloatFacts.

Lemma make_even_inv (x y : float) :
  make_even x = Some y ->
  exists i : Z,
    CDouble.to_int (CDouble.round (x / 2)%float) = Some i
    /\ CInt.in_range (i * 2) = true
    /\ y = CDouble.of_int (i * 2).
Proof.
  unfold make_even, CInt.mul.
  destruct (CDouble.to_int _) as [i | ]; [ | discriminate]. cbn [bind].
  destruct (CInt.in_range (i * 2)) eqn:Hr; [ | discriminate]. cbn [bind].
  intros [= <-]. now exists i.
Qed.

(** The zero check and the final [(int)] cast on an even, non-negative
    count. *)
Lemma clamp_to_int (i : Z) :
  CInt.in_range (i * 2) = true -> 0 <= i ->
  CDouble.to_int
    (if (CDouble.of_int (i * 2) =? 0)%float then 2%float
     else CDouble.of_int (i * 2))
  = Some (Z.max 2 (i * 2)).
Proof.
  intros Hr Hi. rewrite (of_int_eqb_zero _ Hr).
  destruct (Z.eqb_spec (i * 2) 0) as [E | E].
  - rewrite E. reflexivity.
  - rewrite (to_int_of_int _ Hr). f_equal. lia.
Qed.

Lemma make_even_columns :
  make_even (CDouble.of_int MAX_ASCII_WIDTH) = Some 80%float.
Proof. vm_compute. reflexivity. Qed.

Lemma to_int_columns :
  CDouble.to_int (if (80 =? 0)%float then 2%float else 80%float) = Some 80.
Proof. vm_compute. reflexivity. Qed.

Lemma av_q2d_square : av_q2d (AVRational.mk 1 1) = 1%float.
Proof. vm_compute. reflexivity. Qed.


(** Everything after the floor, in one equation. *)
Lemma scale_dimensions_from_floor (video_width video_height : float) (c r : Z) :
  (target_width <- make_even (CDouble.of_int MAX_ASCII_WIDTH) ;;
   target_height <- make_even (floored_height video_width video_height) ;;
   let target_width :=
     if (target_width =? 0)%float then 2%float else target_width in
   let target_height :=
     if (target_height =? 0)%float then 2%float else target_height in
   columns <- CDouble.to_int target_width ;;
   rows <- CDouble.to_int target_height ;;
   Some (columns, rows)) = Some (c, r) ->
  exists i : Z,
    CDouble.to_int
      (CDouble.round (floored_height video_width video_height / 2)%float)
    = Some i
    /\ 0 <= i /\ c = 80 /\ r = Z.max 2 (i * 2).
Proof.
  rewrite make_even_columns. cbn [bind].
  destruct (make_even _) as [y | ] eqn:Ey; [ | discriminate]. cbn [bind].
  destruct (make_even_inv _ _ Ey) as (i & Hi & Hr & ->).
  assert (H0 : 0 <= i).
  { apply (to_int_sign _ _ (round_sign _ (half_sign _ (floor_one_sign _))) Hi). }
  cbv zeta. rewrite to_int_columns, (clamp_to_int i Hr H0). cbn [bind].
  intros [= <- <-]. exists i. auto.
Qed.

Lemma scale_dimensions_unfold (g : globals) (w h : Z) :
  scale_dimensions g w h
  = let sar := AVCodecContext.sample_aspect_ratio (dec_ctx g) in
    let video_width :=
      if (0 <? AVRational.num sar) && (0 <? AVRational.den sar)
      then (CDouble.of_int w * av_q2d sar)%float
      else CDouble.of_int w in
    (target_width <- make_even (CDouble.of_int MAX_ASCII_WIDTH) ;;
     target_height <-
       make_even (floored_height video_width (CDouble.of_int h)) ;;
     let target_width :=
       if (target_width =? 0)%float then 2%float else target_width in
     let target_height :=
       if (target_height =? 0)%float then 2%float else target_height in
     columns <- CDouble.to_int target_width ;;
     rows <- CDouble.to_int target_height ;;
     Some (columns, rows)).
Proof. reflexivity. Qed.

Lemma normal_half : normal_pos (Prim2SF CHARACTER_ASPECT_RATIO) 0 0.
Proof. exists 4503599627370496%positive, (-53). repeat split; reflexivity || lia. Qed.

Lemma normal_two : normal_pos (Prim2SF 2%float) 2 2.
Proof. exists 4503599627370496%positive, (-51). repeat split; reflexivity || lia. Qed.

Lemma normal_columns : normal_pos (Prim2SF (CDouble.of_int MAX_ASCII_WIDTH)) 7 7.
Proof. exists 5629499534213120%positive, (-46). repeat split; reflexivity || lia. Qed.

(** After the floor at 1, [target_height] holds a small positive integer
    when the corrected width and the height are normal numbers. *)
Lemma floored_height_small (video_width video_height : float)
  (lw hw lh hh : Z) :
  normal_pos (Prim2SF video_width) lw hw ->
  normal_pos (Prim2SF video_height) lh hh ->
  -100 <= lw -> hw <= 100 -> -100 <= lh -> hh <= 100 ->
  0 <= 9 - lw + hh <= 30 ->
  exists q : Z,
    1 <= q <= 2 ^ (9 - lw + hh)
    /\ floored_height video_width video_height = CDouble.of_int q.
Proof.
  intros Hw Hh Hlw Hhw Hlh Hhh Hhi.
  pose proof (div_normal _ _ _ _ _ _ Hw Hh) as Hdar.
  specialize (Hdar ltac:(lia) ltac:(lia) ltac:(lia) ltac:(lia)).
  pose proof (div_normal _ _ _ _ _ _ Hdar normal_half) as Hadj.
  specialize (Hadj ltac:(lia) ltac:(lia) ltac:(lia) ltac:(lia)).
  pose proof (div_normal _ _ _ _ _ _ normal_columns Hadj) as Hq.
  specialize (Hq ltac:(lia) ltac:(lia) ltac:(lia) ltac:(lia)).
  apply (normal_pos_weaken _ _ _ (7 - (hw - lh + 2 - 0 + 2)) (9 - lw + hh))
    in Hq; [ | lia | lia].
  destruct (round_small _ _ _ Hq) as (q & Hqb & Hround); [lia | ].
  assert (Hq31 : 2 ^ (9 - lw + hh) < 2 ^ 31)
    by (apply Z.pow_lt_mono_r; lia).
  unfold floored_height. cbv zeta. rewrite Hround.
  rewrite of_int_ltb_one by lia.
  destruct (Z.ltb_spec q 1).
  - exists 1. split; [ | now rewrite of_int_one].
    split; [lia | ]. apply (Z.pow_le_mono_r 2 0); lia.
  - exists q. split; [lia | reflexivity].
Qed.

(** The "make it even" step on a small positive integer. *)
Lemma make_even_small (q hi : Z) :
  1 <= q <= 2 ^ hi -> 0 <= hi <= 28 ->
  exists i : Z,
    0 <= i /\ CInt.in_range (i * 2) = true
    /\ make_even (CDouble.of_int q) = Some (CDouble.of_int (i * 2)).
Proof.
  intros Hq Hhi.
  assert (H1 : 2 ^ hi < 2 ^ (hi + 1)) by (apply Z.pow_lt_mono_r; lia).
  assert (H29 : 2 ^ (hi + 1) <= 2 ^ 29) by (apply Z.pow_le_mono_r; lia).
  change (2 ^ 29) with 536870912 in H29.
  pose proof (of_int_normal q (hi + 1) ltac:(lia) ltac:(lia)) as Hn.
  pose proof (div_normal _ _ _ _ _ _ Hn normal_two) as Hy.
  specialize (Hy ltac:(lia) ltac:(lia) ltac:(lia) ltac:(lia)).
  apply (normal_pos_weaken _ _ _ (1 - 2) (hi + 1)) in Hy; [ | lia | lia].
  destruct (round_small _ _ _ Hy) as (i & Hib & Hround); [lia | ].
  assert (Hri : CInt.in_range i = true).
  { unfold CInt.in_range, CInt.INT_MIN, CInt.INT_MAX.
    apply andb_true_iff. split; apply Z.leb_le; lia. }
  assert (Hri2 : CInt.in_range (i * 2) = true).
  { unfold CInt.in_range, CInt.INT_MIN, CInt.INT_MAX.
    apply andb_true_iff. split; apply Z.leb_le; lia. }
  exists i. split; [lia | ]. split; [exact Hri2 | ].
  unfold make_even. rewrite Hround, (to_int_of_int i Hri). cbn [bind].
  unfold CInt.mul. now rewrite Hri2.
Qed.

(** The sample aspect ratio as a double, for components below 2^b. *)
Lemma av_q2d_normal (sar : AVRational.t) (b : Z) :
  1 <= AVRational.num sar < 2 ^ b -> 1 <= AVRational.den sar < 2 ^ b ->
  b <= 52 ->
  normal_pos (Prim2SF (av_q2d sar)) (1 - b) (b + 1).
Proof.
  intros Hn Hd Hb. unfold av_q2d.
  pose proof (of_int_normal _ b Hn Hb) as Nn.
  pose proof (of_int_normal _ b Hd Hb) as Nd.
  pose proof (div_normal _ _ _ _ _ _ Nn Nd) as H.
  assert (0 <= b).
  { destruct (Z.le_gt_cases 0 b); [assumption | ].
    rewrite Z.pow_neg_r in Hn by assumption. lia. }
  specialize (H ltac:(lia) ltac:(lia) ltac:(lia) ltac:(lia)).
  apply (normal_pos_weaken _ _ _ _ _ H); lia.
Qed.

(** The scale calculation is defined for every source of ordinary size:
    width and height below 2^a and, if the sample aspect ratio is valid, its
    components below 2^b, with a + b at most 20. *)
Lemma scale_dimensions_defined (g : globals) (w h a b : Z) :
  0 <= b -> a + b <= 20 ->
  1 <= w < 2 ^ a -> 1 <= h < 2 ^ a ->
  AVRational.num (AVCodecContext.sample_aspect_ratio (dec_ctx g)) < 2 ^ b ->
  AVRational.den (AVCodecContext.sample_aspect_ratio (dec_ctx g)) < 2 ^ b ->
  exists r : Z, scale_dimensions g w h = Some (80, r).
Proof.
  intros Hb Hab Hw Hh Hnum Hden.
  assert (Ha : 0 <= a).
  { destruct (Z.le_gt_cases 0 a); [assumption | ].
    rewrite Z.pow_neg_r in Hw by assumption. lia. }
  pose proof (of_int_normal w a Hw ltac:(lia)) as Nw.
  pose proof (of_int_normal h a Hh ltac:(lia)) as Nh.
  rewrite scale_dimensions_unfold. cbv zeta.
  set (sar := AVCodecContext.sample_aspect_ratio (dec_ctx g)) in *.
  assert (Hfloor : exists q : Z,
             1 <= q <= 2 ^ 28
             /\ floored_height
                  (if (0 <? AVRational.num sar) && (0 <? AVRational.den sar)
                   then (CDouble.of_int w * av_q2d sar)%float
                   else CDouble.of_int w)
                  (CDouble.of_int h)
                = CDouble.of_int q).
  { destruct (Z.ltb_spec 0 (AVRational.num sar)) as [Hn | Hn];
      destruct (Z.ltb_spec 0 (AVRational.den sar)) as [Hd | Hd]; cbn [andb].
    - pose proof (av_q2d_normal sar b ltac:(lia) ltac:(lia) ltac:(lia)) as Ns.
      pose proof (mul_normal _ _ _ _ _ _ Nw Ns) as Nv.
      specialize (Nv ltac:(lia) ltac:(lia) ltac:(lia) ltac:(lia)).
      destruct (floored_height_small _ _ _ _ _ _ Nv Nh)
        as (q & Hq & Hf); try lia.
      exists q. split; [ | exact Hf].
      assert (2 ^ (9 - (1 + (1 - b) - 1) + a) <= 2 ^ 28)
        by (apply Z.pow_le_mono_r; lia).
      lia.
    - destruct (floored_height_small _ _ _ _ _ _ Nw Nh)
        as (q & Hq & Hf); try lia.
      exists q. split; [ | exact Hf].
      assert (2 ^ (9 - 1 + a) <= 2 ^ 28) by (apply Z.pow_le_mono_r; lia).
      lia.
    - destruct (floored_height_small _ _ _ _ _ _ Nw Nh)
        as (q & Hq & Hf); try lia.
      exists q. split; [ | exact Hf].
      assert (2 ^ (9 - 1 + a) <= 2 ^ 28) by (apply Z.pow_le_mono_r; lia).
      lia.
    - destruct (floored_height_small _ _ _ _ _ _ Nw Nh)
        as (q & Hq & Hf); try lia.
      exists q. split; [ | exact Hf].
      assert (2 ^ (9 - 1 + a) <= 2 ^ 28) by (apply Z.pow_le_mono_r; lia).
      lia. }
  destruct Hfloor as (q & Hq & ->).
  destruct (make_even_small q 28 Hq ltac:(lia)) as (i & Hi & Hr & ->).
  rewrite make_even_columns. cbn [bind].
  rewrite to_int_columns, (clamp_to_int i Hr Hi). cbn [bind].
  now exists (Z.max 2 (i * 2)).
Qed.

End Geometry.

Lemma scale_dimensions_some (g : globals) (w h c r : Z) :
  0 < AVRational.num (AVCodecContext.sample_aspect_ratio (dec_ctx g)) ->
  0 < AVRational.den (AVCodecContext.sample_aspect_ratio (dec_ctx g)) ->
  scale_dimensions g w h = Some (c, r) ->
  grid_as_specified w h (AVCodecContext.sample_aspect_ratio (dec_ctx g)) c r.
Proof.
  intros Hn Hd. rewrite Geometry.scale_dimensions_unfold. cbv zeta.
  apply Z.ltb_lt in Hn. apply Z.ltb_lt in Hd. rewrite Hn, Hd. cbn [andb].
  intros H. apply Geometry.scale_dimensions_from_floor in H.
  destruct H as (i & Hi & H0 & -> & ->).
  unfold grid_as_specified. repeat split.
  - destruct (Z.max_spec 2 (i * 2)) as [[_ ->] | [_ ->]];
      [now rewrite Z.even_mul, orb_true_r | reflexivity].
  - lia.
  - unfold spec_rows. cbv zeta.
    unfold floored_height in Hi. cbv zeta in Hi.
    change (CDouble.of_int MAX_ASCII_WIDTH) with 80%float in Hi.
    change CHARACTER_ASPECT_RATIO with 0.5%float in Hi.
    now rewrite Hi.
Qed.

(** X23.  The grid of sources of ordinary size.  For a source with a
    valid sample aspect ratio, every result the scale calculation returns
    has 80 columns and an even number of rows that is at least 2, and the
    rows are [round(80 / ((srcWidth * sarReal / srcHeight) / 0.5))] in double
    arithmetic, floored at 1, rounded to even by [round(x/2)*2] and clamped
    to at least 2; and it does return a result whenever the width and the
    height are positive and below 2^a and the components of the sample
    aspect ratio are below 2^b, with a + b at most 20 (sizes up to 8191 with
    ratios up to 127:127, say). *)
Theorem scale_dimensions_grid (g : globals) (input_width input_height a b : Z) :
  0 < AVRational.num (AVCodecContext.sample_aspect_ratio (dec_ctx g)) ->
  0 < AVRational.den (AVCodecContext.sample_aspect_ratio (dec_ctx g)) ->
  (forall c r : Z,
      scale_dimensions g input_width input_height = Some (c, r) ->
      grid_as_specified input_width input_height
        (AVCodecContext.sample_aspect_ratio (dec_ctx g)) c r)
  /\ (a + b <= 20 ->
      1 <= input_width < 2 ^ a ->
      1 <= input_height < 2 ^ a ->
      AVRational.num (AVCodecContext.sample_aspect_ratio (dec_ctx g)) < 2 ^ b ->
      AVRational.den (AVCodecContext.sample_aspect_ratio (dec_ctx g)) < 2 ^ b ->
      exists r : Z,
        scale_dimensions g input_width input_height = Some (80, r)
        /\ grid_as_specified input_width input_height
             (AVCodecContext.sample_aspect_ratio (dec_ctx g)) 80 r).
Proof.
  intros Hn Hd. split.
  - intros c r H. exact (scale_dimensions_some g _ _ c r Hn Hd H).
  - intros Hab Hw Hh Hnb Hdb.
    assert (Hb : 0 <= b).
    { destruct (Z.le_gt_cases 0 b); [assumption | ].
      rewrite Z.pow_neg_r in Hnb by assumption. lia. }
    destruct (Geometry.scale_dimensions_defined g _ _ a b Hb Hab Hw Hh Hnb Hdb)
      as [r Hr].
    exists r. split; [exact Hr | ].
    exact (scale_dimensions_some g _ _ 80 r Hn Hd Hr).
Qed.

(** A 720x720 source with square pixels: 80 columns and 40 rows. *)
Lemma scale_dimensions_grid_witness :
  scale_dimensions (example_globals 720 720 1 1) 720 720 = Some (80, 40)
  /\ grid_as_specified 720 720 (AVRational.mk 1 1) 80 40
  /\ exists r : Z,
       scale_dimensions (example_globals 720 720 1 1) 720 720 = Some (80, r)
       /\ grid_as_specified 720 720 (AVRational.mk 1 1) 80 r.
Proof.
  assert (H : scale_dimensions (example_globals 720 720 1 1) 720 720
              = Some (80, 40)) by (vm_compute; reflexivity).
  destruct (scale_dimensions_grid (example_globals 720 720 1 1) 720 720 10 1)
    as [Hsome Hdefined]; [reflexivity | reflexivity | ].
  split; [exact H | ]. split; [exact (Hsome 80 40 H) | ].
  apply Hdefined; cbn; lia.
Defined.

(** A 16x16 source with sample aspect ratio 1:134217728 is positive in
    every component, yet the row count 5368709120 does not fit an [int],
    the conversion is undefined, and no grid with 80 columns and an even
    number of rows is produced. *)
Lemma scale_dimensions_not_total :
  ~ (exists r : Z,
       scale_dimensions (example_globals 16 16 1 134217728) 16 16 = Some (80, r)
       /\ Z.even r = true /\ 2 <= r).
Proof.
  intros (r & H & _).
  assert (E : scale_dimensions (example_globals 16 16 1 134217728) 16 16 = None)
    by (vm_compute; reflexivity).
  rewrite E in H. discriminate H.
Qed.

(** The double arithmetic matters: an 80x29 source with square
    pixels has exactly 14.5 rows before rounding, which rounds to 15 and then
    to the even 16; in doubles the quotient falls just below 14.5, and
    [init_filters] asks for 14 rows.  The usual sizes agree. *)
Lemma scale_dimensions_rounds_in_double :
  scale_dimensions (example_globals 80 29 1 1) 80 29 = Some (80, 14)
  /\ exact_rows 80 29 (AVRational.mk 1 1) = 16
  /\ scale_dimensions (example_globals 720 720 1 1) 720 720 = Some (80, 40)
  /\ exact_rows 720 720 (AVRational.mk 1 1) = 40
  /\ scale_dimensions (example_globals 10 1000 1 1) 10 1000 = Some (80, 4000)
  /\ exact_rows 10 1000 (AVRational.mk 1 1) = 4000
  /\ scale_dimensions (example_globals 1920 1080 1 1) 1920 1080 = Some (80, 24)
  /\ exact_rows 1920 1080 (AVRational.mk 1 1) = 24.
Proof. repeat split; vm_compute; reflexivity. Qed.

(** C7.  A sample aspect ratio with a non-positive component gives the
    grid of the same width and height with sample aspect ratio 1:1. *)
Theorem invalid_sar_as_square (g : globals) (input_width input_height : Z) :
  AVRational.num (AVCodecContext.sample_aspect_ratio (dec_ctx g)) <= 0
  \/ AVRational.den (AVCodecContext.sample_aspect_ratio (dec_ctx g)) <= 0 ->
  scale_dimensions g input_width input_height
  = scale_dimensions (with_sample_aspect_ratio g (AVRational.mk 1 1))
      input_width input_height.
Proof.
  intros H. rewrite !Geometry.scale_dimensions_unfold.
  cbn [with_sample_aspect_ratio dec_ctx AVCodecContext.sample_aspect_ratio
       AVRational.num AVRational.den].
  cbv zeta.
  replace ((0 <? AVRational.num (AVCodecContext.sample_aspect_ratio (dec_ctx g)))
           && (0 <? AVRational.den (AVCodecContext.sample_aspect_ratio (dec_ctx g))))
    with false.
  - change ((0 <? 1) && (0 <? 1)) with true. cbv iota.
    now rewrite Geometry.av_q2d_square, FloatFacts.mul_one.
  - symmetry. apply andb_false_iff.
    destruct H as [H | H]; [left | right]; apply Z.ltb_ge; exact H.
Qed.

Lemma invalid_sar_as_square_witness :
  scale_dimensions (example_globals 1920 1080 0 1) 1920 1080
  = scale_dimensions
      (with_sample_aspect_ratio (example_globals 1920 1080 0 1) (AVRational.mk 1 1))
      1920 1080.
Proof.
  apply (invalid_sar_as_square (example_globals 1920 1080 0 1) 1920 1080).
  left. cbn. lia.
Defined.

(** C8.  The scale calculation reads nothing but its two arguments and the
    decoder's sample aspect ratio (the column limit and the cell aspect are
    constants): two program states that agree on these give the same grid. *)
Theorem scale_dimensions_deterministic (g1 g2 : globals) (input_width input_height : Z) :
  AVCodecContext.sample_aspect_ratio (dec_ctx g1)
  = AVCodecContext.sample_aspect_ratio (dec_ctx g2) ->
  scale_dimensions g1 input_width input_height
  = scale_dimensions g2 input_width input_height.
Proof.
  intros H. unfold scale_dimensions. now rewrite H.
Qed.

Lemma scale_dimensions_deterministic_witness :
  scale_dimensions (example_globals 720 720 4 3) 10 1000
  = scale_dimensions
      (mk_globals (AVCodecContext.mk 10 1000 7 (AVRational.mk 4 3))
         (AVRational.mk 1 90000) 2)
      10 1000.
Proof.
  apply (scale_dimensions_deterministic (example_globals 720 720 4 3)).
  reflexivity.
Defined.

(* ================================================================== *)
(** ** display_frame *)

Module Renderer.

Lemma sample_value_range (b : Byte.byte) : 0 <= sample_value b <= 255.
Proof.
  unfold sample_value. pose proof (Byte.to_N_bounded b) as H.
  split; [apply N2Z.is_nonneg | ].
  change 255 with (Z.of_N 255). now apply N2Z.inj_le.
Qed.

(** The character the program looks up is the one the grid calls for. *)
Lemma glyph_ramp_char (b : Byte.byte) : glyph b = Some (ramp_char b).
Proof. destruct b; reflexivity. Qed.

Lemma glyph_in_ramp (b : Byte.byte) :
  exists c : ascii, glyph b = Some c /\ In c (list_ascii_of_string ramp).
Proof.
  exists (ramp_char b). split; [apply glyph_ramp_char | ].
  destruct b; vm_compute; tauto.
Qed.

Lemma row_loop_spec (plane : list Byte.byte) (n : nat) :
  forall (p : Z) (out : list stdout_op) (row : nat -> Byte.byte),
    (forall x : nat, (x < n)%nat -> load plane (p + Z.of_nat x) = Some (row x)) ->
    row_loop plane n p out
    = Some (out ++ map (fun x => Putc (ramp_char (row x))) (seq 0 n)).
Proof.
  induction n as [ | n IH]; intros p out row H.
  - simpl. now rewrite app_nil_r.
  - cbn [row_loop].
    assert (H0 : load plane p = Some (row O)).
    { rewrite <- (H O) by lia. f_equal. simpl. lia. }
    rewrite H0. cbn [bind]. rewrite glyph_ramp_char. cbn [bind].
    rewrite (IH (p + 1) _ (fun x => row (S x))).
    + rewrite <- app_assoc. cbn [app seq map].
      now rewrite <- seq_shift, map_map.
    + intros x Hx. rewrite <- (H (S x)) by lia. f_equal. lia.
Qed.

Lemma flat_map_shift {A : Type} (f : nat -> list A) (n : nat) :
  flat_map f (seq 1 n) = flat_map (fun y => f (S y)) (seq 0 n).
Proof.
  rewrite <- seq_shift.
  induction (seq 0 n) as [ | y l IH]; simpl; [reflexivity | now rewrite IH].
Qed.

Lemma frame_loop_spec (frame : AVFrame.t) (n : nat) :
  forall (p0 : Z) (out : list stdout_op) (sample : nat -> nat -> Byte.byte),
    (forall y x : nat,
        (y < n)%nat -> (x < Z.to_nat (AVFrame.width frame))%nat ->
        load (AVFrame.plane frame)
          (p0 + Z.of_nat y * AVFrame.linesize0 frame + Z.of_nat x)
        = Some (sample y x)) ->
    frame_loop frame n p0 out
    = Some (out ++ flat_map
                     (fun y => rendered_row (Z.to_nat (AVFrame.width frame)) (sample y))
                     (seq 0 n)).
Proof.
  induction n as [ | n IH]; intros p0 out sample H.
  - simpl. now rewrite app_nil_r.
  - cbn [frame_loop].
    rewrite (row_loop_spec _ _ p0 out (sample O)).
    + cbn [bind].
      rewrite (IH _ _ (fun y => sample (S y))).
      * cbn [seq flat_map]. rewrite flat_map_shift.
        unfold rendered_row at 2. now rewrite <- !app_assoc.
      * intros y x Hy Hx. rewrite <- (H (S y) x) by lia. f_equal. lia.
    + intros x Hx. rewrite <- (H O x) by lia. f_equal. lia.
Qed.

(** [display_frame] on a frame that holds [sample] prints the grid. *)
Lemma display_frame_spec (frame : AVFrame.t) (time_base : AVRational.t)
  (out : list stdout_op) (sample : nat -> nat -> Byte.byte) :
  holds_samples frame sample ->
  display_frame frame time_base out
  = Some (out ++ rendered (Z.to_nat (AVFrame.width frame))
                   (Z.to_nat (AVFrame.height frame)) sample).
Proof.
  intros H. unfold display_frame.
  rewrite (frame_loop_spec _ _ _ _ sample) by exact H.
  cbn [bind]. unfold rendered. now rewrite <- !app_assoc.
Qed.

(** Every character a row writes is taken from the ramp. *)
Lemma row_loop_ramp (plane : list Byte.byte) (n : nat) :
  forall (p : Z) (out out' : list stdout_op),
    row_loop plane n p out = Some out' ->
    exists cs : list ascii,
      out' = out ++ map Putc cs
      /\ List.length cs = n
      /\ Forall (fun c => In c (list_ascii_of_string ramp)) cs.
Proof.
  induction n as [ | n IH]; intros p out out' H.
  - injection H as <-. exists []. simpl. now rewrite app_nil_r.
  - cbn [row_loop] in H.
    destruct (load plane p) as [b | ]; [ | discriminate]. cbn [bind] in H.
    destruct (glyph_in_ramp b) as (c & Hc & Hin).
    rewrite Hc in H. cbn [bind] in H.
    destruct (IH _ _ _ H) as (cs & -> & Hlen & Hall).
    exists (c :: cs). rewrite <- app_assoc. simpl.
    repeat split; [now rewrite Hlen | now constructor].
Qed.

End Renderer.

(** C5.  A sample is mapped by integer division by 52 into the ramp
    [" .-+#"]: 0 and 51 give a space, 52 a dot, 255 a hash, and the five
    buckets are 0-51, 52-103, 104-155, 156-207 and 208-255. *)
Theorem glyph_buckets :
  glyph Byte.x00 = Some " "%char
  /\ glyph Byte.x33 = Some " "%char
  /\ glyph Byte.x34 = Some "."%char
  /\ glyph Byte.xff = Some "#"%char
  /\ (sample_value Byte.x33 = 51 /\ sample_value Byte.x34 = 52
      /\ sample_value Byte.xff = 255)
  /\ (forall b : Byte.byte,
        glyph b = String.get (Z.to_nat (sample_value b / 52)) " .-+#")
  /\ (forall b : Byte.byte,
        glyph b
        = Some (if sample_value b <? 52 then " "%char
                else if sample_value b <? 104 then "."%char
                else if sample_value b <? 156 then "-"%char
                else if sample_value b <? 208 then "+"%char
                else "#"%char))
  /\ (forall b : Byte.byte,
        glyph b = Some "#"%char <-> 208 <= sample_value b <= 255).
Proof.
  assert (Hb : forall b : Byte.byte,
             glyph b
             = Some (if sample_value b <? 52 then " "%char
                     else if sample_value b <? 104 then "."%char
                     else if sample_value b <? 156 then "-"%char
                     else if sample_value b <? 208 then "+"%char
                     else "#"%char))
    by (intros b; destruct b; reflexivity).
  split; [reflexivity | ].
  split; [reflexivity | ].
  split; [reflexivity | ].
  split; [reflexivity | ].
  split; [repeat split | ].
  split; [intros b; destruct b; reflexivity | ].
  split; [exact Hb | ].
  intros b. rewrite Hb.
  pose proof (Renderer.sample_value_range b) as Hr.
  destruct (Z.ltb_spec (sample_value b) 52);
    [split; [discriminate | lia] | ].
  destruct (Z.ltb_spec (sample_value b) 104);
    [split; [discriminate | lia] | ].
  destruct (Z.ltb_spec (sample_value b) 156);
    [split; [discriminate | lia] | ].
  destruct (Z.ltb_spec (sample_value b) 208);
    [split; [discriminate | lia] | ].
  split; [lia | reflexivity].
Qed.

(** C6.  For every luminance frame (one whose plane holds a sample at each
    of its width x height positions) [display_frame] writes exactly the
    cursor reset, then for each row its ramp characters in order and a
    newline, then one flush. *)
Theorem display_frame_renders (frame : AVFrame.t) (time_base : AVRational.t)
  (out : list stdout_op) (sample : nat -> nat -> Byte.byte) :
  holds_samples frame sample ->
  display_frame frame time_base out
  = Some (out
          ++ printf cursor_home
          ++ flat_map
               (fun y =>
                  map (fun x => Putc (ramp_char (sample y x)))
                    (seq 0 (Z.to_nat (AVFrame.width frame)))
                  ++ [Putc newline])
               (seq 0 (Z.to_nat (AVFrame.height frame)))
          ++ [Fflush]).
Proof.
  intros H. now rewrite (Renderer.display_frame_spec _ _ _ _ H).
Qed.

(** The 2x2 frame with samples 0, 255, 255, 0: the reset sequence, a space
    and a hash, a newline, a hash and a space, a newline, a flush. *)
Lemma display_frame_renders_witness :
  display_frame frame_2x2 (AVRational.mk 1 25) []
  = Some [Putc (ascii_of_nat 27); Putc "["%char; Putc "H"%char;
          Putc " "%char; Putc "#"%char; Putc newline;
          Putc "#"%char; Putc " "%char; Putc newline;
          Fflush].
Proof.
  apply (display_frame_renders frame_2x2 (AVRational.mk 1 25) [] samples_2x2).
  intros y x Hy Hx. change (y < 2)%nat in Hy. change (x < 2)%nat in Hx.
  destruct y as [ | [ | y]]; destruct x as [ | [ | x]]; try lia; reflexivity.
Defined.

(** C9.  For every 8-bit sample the index [sample / 52] is between 0 and
    4, the lookup in the five-character ramp succeeds with one of its
    characters, and so every character a row of the grid writes is a ramp
    character. *)
Theorem glyph_index_in_bounds :
  (forall b : Byte.byte,
      0 <= Z.quot (sample_value b) 52 <= 4
      /\ exists c : ascii,
           glyph b = Some c /\ In c (list_ascii_of_string " .-+#"))
  /\ (forall (plane : list Byte.byte) (n : nat) (p : Z)
             (out out' : list stdout_op),
        row_loop plane n p out = Some out' ->
        exists cs : list ascii,
          out' = out ++ map Putc cs
          /\ List.length cs = n
          /\ Forall (fun c => In c (list_ascii_of_string " .-+#")) cs).
Proof.
  split.
  - intros b. split; [ | apply Renderer.glyph_in_ramp].
    pose proof (Renderer.sample_value_range b) as H.
    rewrite Z.quot_div_nonneg by lia. split.
    + apply Z.div_pos; lia.
    + apply Z.lt_succ_r, Z.div_lt_upper_bound; lia.
  - intros plane n p out out' H. exact (Renderer.row_loop_ramp _ _ _ _ _ H).
Qed.

(** C10.  Two frames of equal width and height that hold the same samples
    row by row are printed identically, whatever their line sizes and
    whatever lies between the rows. *)
Theorem display_frame_ignores_linesize (frame1 frame2 : AVFrame.t)
  (time_base1 time_base2 : AVRational.t) (out : list stdout_op)
  (sample : nat -> nat -> Byte.byte) :
  AVFrame.width frame1 = AVFrame.width frame2 ->
  AVFrame.height frame1 = AVFrame.height frame2 ->
  holds_samples frame1 sample ->
  holds_samples frame2 sample ->
  display_frame frame1 time_base1 out = display_frame frame2 time_base2 out.
Proof.
  intros Hw Hh H1 H2.
  rewrite (Renderer.display_frame_spec _ _ _ _ H1),
    (Renderer.display_frame_spec _ _ _ _ H2).
  now rewrite Hw, Hh.
Qed.

Lemma display_frame_ignores_linesize_witness :
  display_frame frame_2x2 (AVRational.mk 1 25) []
  = display_frame frame_2x2_padded (AVRational.mk 1 30) [].
Proof.
  apply (display_frame_ignores_linesize frame_2x2 frame_2x2_padded
           (AVRational.mk 1 25) (AVRational.mk 1 30) [] samples_2x2).
  - reflexivity.
  - reflexivity.
  - intros y x Hy Hx. change (y < 2)%nat in Hy. change (x < 2)%nat in Hx.
    destruct y as [ | [ | y]]; destruct x as [ | [ | x]]; try lia; reflexivity.
  - intros y x Hy Hx. change (y < 2)%nat in Hy. change (x < 2)%nat in Hx.
    destruct y as [ | [ | y]]; destruct x as [ | [ | x]]; try lia; reflexivity.
Defined.

(* ================================================================== *)
(** ** main *)

Module Driver.

Section Invariants.

Variable E : averror.
Variable g : globals.


Lemma pull_loop_inv (st st' : state) (fl : flow) :
  pull_loop E g st = Some (fl, st') -> left_properly E fl st st'.
Proof.
  unfold pull_loop, av_buffersink_get_frame, left_properly.
  destruct (pulls_left st) as [ | [r f] l]; cbn [set_ret].
  - rewrite Z.eqb_refl. cbn [orb]. intros [= <- <-]. now split.
  - destruct (Z.eqb_spec r (AVERROR_EAGAIN E));
      [cbn [orb]; intros [= <- <-]; now split | ].
    destruct (Z.eqb_spec r (AVERROR_EOF E));
      [cbn [orb]; intros [= <- <-]; now split | ].
    cbn [orb]. destruct (Z.ltb_spec r 0).
    + intros [= <- <-]. cbn. auto.
    + destruct (display_frame _ _ _) as [out | ]; [ | discriminate].
      cbn [bind]. intros [= <- <-]. now split.
Qed.

(** The part of the receive loop's body after the push: the pull, then
    the release of the frame and the next iteration. *)
Ltac after_push IH :=
  let fl1 := fresh "fl" in
  let st1 := fresh "st" in
  let Hpull := fresh "Hpull" in
  let Hfd := fresh "Hfd" in
  let Hg := fresh "Hg" in
  let H' := fresh "H" in
  match goal with
  | |- context [pull_loop ?E ?g ?s] =>
      destruct (pull_loop E g s) as [[fl1 st1] | ] eqn:Hpull; [ | discriminate]
  end;
  cbn [bind]; apply pull_loop_inv in Hpull; destruct Hpull as [Hfd Hg];
  destruct fl1;
  [ destruct (negb (frame_displayed (emit Frame_unref_frame st1) =? 0));
    [ intros [= <- <- <-]; cbn; split; [exact Hfd | discriminate]
    | intros H'; apply IH in H'; destruct H' as [H' ?];
      split; [rewrite H'; exact Hfd | assumption] ]
  | intros [= <- <- <-]; split; [exact Hfd | exact Hg] ].

Lemma receive_loop_inv (rs : list Z) :
  forall (st st' : state) (fl : flow) (rs' : list Z),
    receive_loop E g rs st = Some (fl, rs', st') -> left_properly E fl st st'.
Proof.
  unfold left_properly.
  induction rs as [ | r rs IH]; intros st st' fl rs'; cbn [receive_loop].
  - destruct (ret st <? 0); intros [= <- <- <-]; now split.
  - destruct (ret st <? 0); [intros [= <- <- <-]; now split | ].
    destruct ((r =? AVERROR_EAGAIN E) || (r =? AVERROR_EOF E)) eqn:Hstop;
      [intros [= <- <- <-]; now split | ].
    apply orb_false_iff in Hstop. destruct Hstop as [_ Heof].
    apply Z.eqb_neq in Heof.
    destruct (Z.ltb_spec r 0); [intros [= <- <- <-]; cbn; auto | ].
    unfold av_buffersrc_add_frame_flags.
    destruct (pushes_left (set_ret r st)) as [ | pushed l].
    + change (0 <? 0) with false. cbv iota. after_push IH.
    + destruct (pushed <? 0); [intros [= <- <- <-]; now split | ].
      after_push IH.
Qed.

(** The part of the read loop's body after [avcodec_send_packet]: the
    receive loop, then the release of the packet and the next iteration. *)
Ltac after_receive_loop IH Hfd :=
  let fl1 := fresh "fl" in
  let rs1 := fresh "rs" in
  let st1 := fresh "st" in
  let Hrecv := fresh "Hrecv" in
  let Hfd1 := fresh "Hfd" in
  let Hg1 := fresh "Hg" in
  let H' := fresh "H" in
  match goal with
  | |- context [receive_loop ?E ?g ?rs ?s] =>
      destruct (receive_loop E g rs s) as [[[fl1 rs1] st1] | ] eqn:Hrecv;
      [ | discriminate]
  end;
  cbn [bind]; apply receive_loop_inv in Hrecv;
  destruct Hrecv as [Hfd1 Hg1]; cbn in Hfd1; rewrite Hfd in Hfd1;
  destruct fl1;
  [ cbn; rewrite Hfd1; cbn [Z.eqb negb];
    intros H'; apply IH in H'; [exact H' | cbn; exact Hfd1]
  | intros [= <- <-]; split; [exact Hfd1 | right; now apply Hg1] ].

(** However the read loop is left, [frame_displayed] is still 0 and [ret]
    is [AVERROR_EOF] or negative. *)
Lemma read_loop_inv (rds : list (Z * Z)) :
  forall (rs : list Z) (st st' : state) (fl : flow),
    frame_displayed st = 0 ->
    read_loop E g rds rs st = Some (fl, st') ->
    frame_displayed st' = 0 /\ (ret st' = AVERROR_EOF E \/ ret st' < 0).
Proof.
  induction rds as [ | [r idx] rds IH]; intros rs st st' fl Hfd;
    cbn [read_loop]; rewrite Hfd; cbn [Z.eqb negb].
  - intros [= <- <-]. cbn. auto.
  - destruct (Z.ltb_spec r 0).
    + destruct (negb (r =? AVERROR_EOF E)); intros [= <- <-]; cbn; auto.
    + destruct (idx =? video_stream_index g).
      * unfold avcodec_send_packet.
        destruct (sends_left (set_ret r st)) as [ | sent l].
        -- change (0 <? 0) with false. cbn [andb].
           after_receive_loop IH Hfd.
        -- cbn [set_ret ret].
           destruct (Z.ltb_spec sent 0); cbn [andb].
           ++ destruct (negb (sent =? AVERROR_EAGAIN E)
                        && negb (sent =? AVERROR_EOF E)).
              ** intros [= <- <-]. cbn. auto.
              ** after_receive_loop IH Hfd.
           ++ after_receive_loop IH Hfd.
      * cbn. rewrite Hfd. cbn [Z.eqb negb].
        intros H'. apply IH in H'; [exact H' | cbn; exact Hfd].
Qed.

Lemma finish_exit_code (st : state) :
  frame_displayed st = 0 ->
  ret st = AVERROR_EOF E \/ ret st < 0 ->
  fst (finish E st) = 1.
Proof.
  intros Hfd Hret. unfold finish. cbn [emit ret frame_displayed].
  rewrite Hfd. cbn [Z.eqb andb]. rewrite andb_true_r.
  destruct (Z.eqb_spec (ret st) (AVERROR_EOF E)) as [Heq | Hne].
  - rewrite andb_false_r. reflexivity.
  - destruct Hret as [Hret | Hret]; [contradiction | ].
    apply Z.ltb_lt in Hret. rewrite Hret. reflexivity.
Qed.

(** Whatever FFmpeg answers, a run of [main] that ends, ends with exit
    code 1. *)
Lemma main_exit_code (argc : Z) (allocated : bool) (s : script)
  (code : Z) (st : state) :
  main E g argc allocated s = Some (code, st) -> code = 1.
Proof.
  unfold main.
  destruct (negb (argc =? 2)); [now intros [= <- _] | ].
  destruct (negb allocated); [now intros [= <- _] | ].
  destruct (open_ret s <? 0); [discriminate | ].
  destruct (init_filters g s) as [r | ]; [ | discriminate]. cbn [bind].
  destruct (r <? 0); [discriminate | ].
  destruct (read_loop E g _ _ _) as [[fl st1] | ] eqn:Hloop; [ | discriminate].
  cbn [bind snd]. apply read_loop_inv in Hloop; [ | reflexivity].
  destruct Hloop as [Hfd Hret].
  pose proof (finish_exit_code st1 Hfd Hret) as Hexit.
  destruct (finish E st1) as [c st2]. cbn in Hexit.
  intros [= <- _]. exact Hexit.
Qed.

End Invariants.

(** *** A stream of one-frame packets *)

Lemma frame_2x2_samples : holds_samples frame_2x2 samples_2x2.
Proof.
  intros y x Hy Hx. change (y < 2)%nat in Hy. change (x < 2)%nat in Hx.
  destruct y as [ | [ | y]]; destruct x as [ | [ | x]]; try lia; reflexivity.
Qed.


Lemma read_loop_video_step (rds : list (Z * Z)) (rs sl pl : list Z)
  (pll : list (Z * AVFrame.t)) (r : Z) (out : list stdout_op)
  (tr : list event) :
  read_loop averror_linux video_globals ((0, 0) :: rds)
    (0 :: AVERROR_EAGAIN averror_linux :: rs)
    (mk_state r 0 (0 :: sl) (0 :: pl) ((0, frame_2x2) :: pll) out tr)
  = read_loop averror_linux video_globals rds rs
      (mk_state (AVERROR_EAGAIN averror_linux) 0 sl pl pll
         (out ++ rendered 2 2 samples_2x2) (tr ++ one_pass)).
Proof.
  cbn [read_loop]. cbn -[display_frame read_loop rendered].
  rewrite (Renderer.display_frame_spec _ _ _ _ frame_2x2_samples).
  cbn -[read_loop rendered].
  unfold emit, set_ret, set_stdout, one_pass.
  cbn [ret frame_displayed sends_left pushes_left pulls_left stdout trace].
  change (Pos.to_nat 2) with 2%nat.
  now rewrite <- !app_assoc.
Qed.

Lemma read_loop_video (n : nat) :
  forall (r : Z) (out : list stdout_op) (tr : list event),
    read_loop averror_linux video_globals (repeat (0, 0) n)
      (one_frame_per_packet averror_linux n)
      (mk_state r 0 (repeat 0 n) (repeat 0 n) (repeat (0, frame_2x2) n) out tr)
    = Some (Fallthrough,
            mk_state (AVERROR_EOF averror_linux) 0 [] [] []
              (out ++ List.concat (repeat (rendered 2 2 samples_2x2) n))
              (tr ++ List.concat (repeat one_pass n))).
Proof.
  induction n as [ | n IH]; intros r out tr.
  - cbn. now rewrite !app_nil_r.
  - cbn [repeat one_frame_per_packet]. rewrite read_loop_video_step, IH.
    cbn [List.concat]. now rewrite !app_assoc.
Qed.

Lemma displayed_app (t1 t2 : list event) :
  displayed (t1 ++ t2) = (displayed t1 + displayed t2)%nat.
Proof.
  induction t1 as [ | e t1 IH]; [reflexivity | ].
  destruct e; cbn; now rewrite IH.
Qed.

Lemma logged_app (t1 t2 : list event) :
  logged (t1 ++ t2) = logged t1 ++ logged t2.
Proof.
  induction t1 as [ | e t1 IH]; [reflexivity | ].
  destruct e; cbn; now rewrite IH.
Qed.

Lemma displayed_passes (n : nat) : displayed (List.concat (repeat one_pass n)) = n.
Proof. induction n as [ | n IH]; [reflexivity | ]. cbn. now rewrite IH. Qed.

Lemma logged_passes (n : nat) : logged (List.concat (repeat one_pass n)) = [].
Proof. induction n as [ | n IH]; [reflexivity | ]. cbn. exact IH. Qed.

(** The run of [main] on a stream of [n] one-frame packets. *)
Lemma main_video (n : nat) :
  main averror_linux video_globals 2 true (video_script averror_linux n)
  = Some (1,
          mk_state (AVERROR_EOF averror_linux) 0 [] [] []
            (List.concat (repeat (rendered 2 2 samples_2x2) n))
            (List.concat (repeat one_pass n)
             ++ [Free_all; Log End_of_file_no_frame])).
Proof.
  unfold main.
  change (negb (2 =? 2)) with false. cbv iota.
  change (negb true) with false. cbv iota.
  change (open_ret (video_script averror_linux n) <? 0) with false. cbv iota.
  replace (init_filters video_globals (video_script averror_linux n))
    with (Some 0) by (vm_compute; reflexivity).
  cbn [bind]. change (0 <? 0) with false. cbv iota.
  cbn [video_script reads receives sends pushes pulls set_ret ret
       frame_displayed sends_left pushes_left pulls_left stdout trace].
  unfold set_ret.
  cbn [ret frame_displayed sends_left pushes_left pulls_left stdout trace].
  rewrite read_loop_video. cbn [bind snd app].
  unfold finish, emit. cbn -[rendered one_pass]. now rewrite <- app_assoc.
Qed.


(** *** One pass of the read loop, by the answer to the pull *)

Section OnePass.

Variable E : averror.
Variable g : globals.
Variables (rds : list (Z * Z)) (rs sl pl : list Z) (pll : list (Z * AVFrame.t)).
Variables (r0 read_ret sent received pushed : Z).
Variables (f : AVFrame.t) (out : list stdout_op) (tr : list event).

Hypothesis eof_negative : AVERROR_EOF E < 0.
Hypothesis eagain_negative : AVERROR_EAGAIN E < 0.
Hypothesis read_ok : 0 <= read_ret.
Hypothesis sent_ok : 0 <= sent.
Hypothesis received_ok : 0 <= received.
Hypothesis pushed_ok : 0 <= pushed.

(** The pass of the read loop in which a video packet is read, sent and
    decoded and its frame pushed, and the pull answers [code]. *)
Local Abbreviation pass code :=
  (read_loop E g ((read_ret, video_stream_index g) :: rds) (received :: rs)
     (mk_state r0 0 (sent :: sl) (pushed :: pl) ((code, f) :: pll) out tr)).


Lemma receive_loop_stops (rs' : list Z) (st : state) :
  ret st < 0 -> receive_loop E g rs' st = Some (Fallthrough, rs', st).
Proof.
  intros H. apply Z.ltb_lt in H.
  destruct rs'; cbn [receive_loop]; now rewrite H.
Qed.

(** Up to the pull, the pass is the same whatever the pull answers. *)
Lemma pass_unfold (code : Z) :
  pass code
  = (res <- pull_loop E g
             (mk_state received 0 sl pl ((code, f) :: pll) out tr) ;;
     match res with
     | (Goto_end, st) => Some (Goto_end, st)
     | (Fallthrough, st) =>
         if negb (frame_displayed (emit Frame_unref_frame st) =? 0)
         then Some (Fallthrough, emit Packet_unref (emit Frame_unref_frame st))
         else
           res <- receive_loop E g rs (emit Frame_unref_frame st) ;;
           match res with
           | (Goto_end, _, st) => Some (Goto_end, st)
           | (Fallthrough, rs, st) =>
               if negb (frame_displayed (emit Packet_unref st) =? 0)
               then Some (Fallthrough, emit Packet_unref st)
               else read_loop E g rds rs (emit Packet_unref st)
           end
     end).
Proof.
  assert (Hread : (read_ret <? 0) = false) by (apply Z.ltb_ge; lia).
  assert (Hsent : (sent <? 0) = false) by (apply Z.ltb_ge; lia).
  assert (Hrecv : (received <? 0) = false) by (apply Z.ltb_ge; lia).
  assert (Hpush : (pushed <? 0) = false) by (apply Z.ltb_ge; lia).
  assert (Hagain : (received =? AVERROR_EAGAIN E) = false)
    by (apply Z.eqb_neq; lia).
  assert (Heof : (received =? AVERROR_EOF E) = false)
    by (apply Z.eqb_neq; lia).
  cbn [read_loop].
  unfold avcodec_send_packet, set_ret.
  cbn [ret frame_displayed sends_left pushes_left pulls_left stdout trace].
  rewrite Hread, (Z.eqb_refl (video_stream_index g)), Hsent.
  cbn [Z.eqb negb andb].
  cbn [receive_loop].
  unfold av_buffersrc_add_frame_flags, set_ret.
  cbn [ret frame_displayed sends_left pushes_left pulls_left stdout trace].
  rewrite Hsent, Hagain, Heof, Hrecv, Hpush. cbn [orb].
  destruct (pull_loop E g _) as [[[ | ] st] | ]; cbn [bind]; try reflexivity.
  destruct (negb (frame_displayed (emit Frame_unref_frame st) =? 0)) eqn:Hd;
    [ | reflexivity].
  cbn [bind]. cbn in Hd |- *. now rewrite Hd.
Qed.

(** The pull answers "send me more" or "end of file": no frame is shown,
    nothing is reported, the frame and the packet are released and the read
    loop goes on with the next packet. *)
Lemma pass_no_frame (code : Z) :
  code = AVERROR_EAGAIN E \/ code = AVERROR_EOF E ->
  pass code
  = read_loop E g rds rs
      (mk_state code 0 sl pl pll out (tr ++ [Frame_unref_frame; Packet_unref])).
Proof.
  intros Hcode. rewrite pass_unfold.
  unfold pull_loop, av_buffersink_get_frame, set_ret.
  cbn [ret frame_displayed sends_left pushes_left pulls_left stdout trace].
  replace ((code =? AVERROR_EAGAIN E) || (code =? AVERROR_EOF E)) with true
    by (symmetry; apply orb_true_iff;
        destruct Hcode as [-> | ->]; [left | right]; apply Z.eqb_refl).
  cbn [bind]. cbn [emit frame_displayed Z.eqb negb].
  rewrite receive_loop_stops by (cbn; destruct Hcode as [-> | ->]; lia).
  cbn [bind]. unfold emit.
  cbn [ret frame_displayed sends_left pushes_left pulls_left stdout trace
       Z.eqb negb].
  now rewrite <- app_assoc.
Qed.

(** The pull answers another negative code: the error is reported and
    [main] jumps to [end]. *)
Lemma pass_fatal (code : Z) :
  code < 0 -> code <> AVERROR_EAGAIN E -> code <> AVERROR_EOF E ->
  pass code
  = Some (Goto_end,
          mk_state code 0 sl pl pll out
            (tr ++ [Log (Error_pulling_from_filtergraph code)])).
Proof.
  intros Hneg Hagain Heof. rewrite pass_unfold.
  unfold pull_loop, av_buffersink_get_frame, set_ret.
  cbn [ret frame_displayed sends_left pushes_left pulls_left stdout trace].
  apply Z.eqb_neq in Hagain. apply Z.eqb_neq in Heof. apply Z.ltb_lt in Hneg.
  rewrite Hagain, Heof, Hneg. reflexivity.
Qed.

Lemma finish_fatal (code : Z) (st : state) :
  code < 0 -> code <> AVERROR_EOF E ->
  ret st = code -> frame_displayed st = 0 ->
  finish E st
  = (1, emit (Log (Program_finished_with_error code)) (emit Free_all st)).
Proof.
  intros Hneg Heof Hret Hfd. unfold finish.
  cbn [emit ret frame_displayed]. rewrite Hret, Hfd.
  apply Z.eqb_neq in Heof. apply Z.ltb_lt in Hneg.
  now rewrite Hneg, Heof.
Qed.

End OnePass.

End Driver.

(** C1 (code bug).  The program does not stop after the first frame: the
    assignment [frame_displayed = 1] is commented out, so on a stream of
    [n] packets that each yield one frame, [display_frame] runs [n] times
    (each frame is shown and released), [frame_displayed] is still 0 at the
    end, and the read loop is left only at the end of the file. *)
Theorem read_loop_displays_every_frame (n : nat) :
  exists st : state,
    main averror_linux video_globals 2 true (video_script averror_linux n)
    = Some (1, st)
    /\ displayed (trace st) = n
    /\ frame_displayed st = 0
    /\ stdout st = List.concat (repeat (rendered 2 2 samples_2x2) n)
    /\ logged (trace st) = [End_of_file_no_frame].
Proof.
  eexists. split; [apply Driver.main_video | ].
  cbn [trace frame_displayed stdout].
  rewrite Driver.displayed_app, Driver.logged_app,
    Driver.displayed_passes, Driver.logged_passes.
  repeat split. cbn. lia.
Qed.

(** C2 (code bug).  A run of [main] never ends with exit code 0, whatever
    FFmpeg answers; in particular the run on a stream of one video packet
    shows its frame and still ends with exit code 1, reporting that no frame
    could be displayed. *)
Theorem main_never_exits_0 :
  (forall (E : averror) (g : globals) (argc : Z) (allocated : bool)
          (s : script) (code : Z) (st : state),
      main E g argc allocated s = Some (code, st) -> code = 1)
  /\ (exists st : state,
        main averror_linux video_globals 2 true (video_script averror_linux 1)
        = Some (1, st)
        /\ displayed (trace st) = 1%nat
        /\ logged (trace st) = [End_of_file_no_frame]).
Proof.
  split.
  - intros E g argc allocated s code st H.
    exact (Driver.main_exit_code E g argc allocated s code st H).
  - eexists. split; [vm_compute; reflexivity | ]. split; reflexivity.
Qed.

(** C4, as amended.  In a pass of the read loop in which a video packet was
    read, sent and decoded and its frame pushed, a pull that answers
    [AVERROR_EOF] is handled exactly as one that answers [AVERROR(EAGAIN)]:
    nothing is shown or reported, the frame and the packet are released and
    the read loop goes on with the next packet.  Only another negative
    answer is reported as an error while pulling and ends the run, with
    exit code 1. *)
Theorem drained_pull_continues (E : averror) (g : globals)
  (rds : list (Z * Z)) (rs sl pl : list Z) (pll : list (Z * AVFrame.t))
  (r0 read_ret sent received pushed : Z)
  (f : AVFrame.t) (out : list stdout_op) (tr : list event) :
  AVERROR_EOF E < 0 ->
  AVERROR_EAGAIN E < 0 ->
  0 <= read_ret -> 0 <= sent -> 0 <= received -> 0 <= pushed ->
  read_loop E g ((read_ret, video_stream_index g) :: rds) (received :: rs)
    (mk_state r0 0 (sent :: sl) (pushed :: pl) ((AVERROR_EOF E, f) :: pll) out tr)
  = read_loop E g rds rs
      (mk_state (AVERROR_EOF E) 0 sl pl pll out
         (tr ++ [Frame_unref_frame; Packet_unref]))
  /\ read_loop E g ((read_ret, video_stream_index g) :: rds) (received :: rs)
       (mk_state r0 0 (sent :: sl) (pushed :: pl)
          ((AVERROR_EAGAIN E, f) :: pll) out tr)
     = read_loop E g rds rs
         (mk_state (AVERROR_EAGAIN E) 0 sl pl pll out
            (tr ++ [Frame_unref_frame; Packet_unref]))
  /\ (forall code : Z,
        code < 0 -> code <> AVERROR_EAGAIN E -> code <> AVERROR_EOF E ->
        read_loop E g ((read_ret, video_stream_index g) :: rds) (received :: rs)
          (mk_state r0 0 (sent :: sl) (pushed :: pl) ((code, f) :: pll) out tr)
        = Some (Goto_end,
                mk_state code 0 sl pl pll out
                  (tr ++ [Log (Error_pulling_from_filtergraph code)]))
        /\ finish E
             (mk_state code 0 sl pl pll out
                (tr ++ [Log (Error_pulling_from_filtergraph code)]))
           = (1,
              mk_state code 0 sl pl pll out
                (tr ++ [Log (Error_pulling_from_filtergraph code); Free_all;
                        Log (Program_finished_with_error code)]))).
Proof.
  intros Heof Hagain Hread Hsent Hrecv Hpush.
  split; [ | split].
  - apply (Driver.pass_no_frame E g rds rs sl pl pll r0 read_ret sent received
             pushed f out tr); auto.
  - apply (Driver.pass_no_frame E g rds rs sl pl pll r0 read_ret sent received
             pushed f out tr); auto.
  - intros code Hneg Hne1 Hne2. split.
    + apply (Driver.pass_fatal E g rds rs sl pl pll r0 read_ret sent received
               pushed f out tr); auto.
    + rewrite (Driver.finish_fatal E code) by auto.
      unfold emit. cbn [ret frame_displayed sends_left pushes_left pulls_left
                        stdout trace].
      now rewrite <- !app_assoc.
Qed.

Lemma drained_pull_continues_witness :
  read_loop averror_linux video_globals [(0, 0)] [0]
    (mk_state 0 0 [0] [0] [(-541478725, empty_frame)] [] [])
  = read_loop averror_linux video_globals [] []
      (mk_state (-541478725) 0 [] [] [] [] [Frame_unref_frame; Packet_unref])
  /\ read_loop averror_linux video_globals [(0, 0)] [0]
       (mk_state 0 0 [0] [0] [(-11, empty_frame)] [] [])
     = read_loop averror_linux video_globals [] []
         (mk_state (-11) 0 [] [] [] [] [Frame_unref_frame; Packet_unref])
  /\ (forall code : Z,
        code < 0 -> code <> -11 -> code <> -541478725 ->
        read_loop averror_linux video_globals [(0, 0)] [0]
          (mk_state 0 0 [0] [0] [(code, empty_frame)] [] [])
        = Some (Goto_end,
                mk_state code 0 [] [] [] []
                  [Log (Error_pulling_from_filtergraph code)])
        /\ finish averror_linux
             (mk_state code 0 [] [] [] []
                [Log (Error_pulling_from_filtergraph code)])
           = (1,
              mk_state code 0 [] [] [] []
                [Log (Error_pulling_from_filtergraph code); Free_all;
                 Log (Program_finished_with_error code)])).
Proof.
  apply (drained_pull_continues averror_linux video_globals [] [] [] [] []
           0 0 0 0 0 empty_frame [] []); cbn; lia.
Defined.

(** C4, as stated, fails: in this run the first pull answers
    [AVERROR_EOF], yet no error while pulling is reported; the loop goes on,
    shows the frame of the second packet, and the run ends at the end of the
    file with the report that goes with it. *)
Lemma drained_pull_run :
  exists st : state,
    main averror_linux video_globals 2 true (drained_script averror_linux)
    = Some (1, st)
    /\ logged (trace st) = [End_of_file_no_frame]
    /\ (forall code : Z,
          ~ In (Error_pulling_from_filtergraph code) (logged (trace st)))
    /\ displayed (trace st) = 1%nat.
Proof.
  eexists. split; [vm_compute; reflexivity | ].
  split; [reflexivity | ]. split; [ | reflexivity].
  intros code [H | []]. discriminate H.
Qed.

(* ================================================================== *)
(** ** More about display_frame *)

Module Display.

Lemma row_loop_app (plane : list Byte.byte) (n : nat) :
  forall (p : Z) (out1 out2 : list stdout_op),
    row_loop plane n p (out1 ++ out2)
    = option_map (app out1) (row_loop plane n p out2).
Proof.
  induction n as [ | n IH]; intros p out1 out2; [reflexivity | ].
  cbn [row_loop].
  destruct (load plane p) as [b | ]; [ | reflexivity]. cbn [bind].
  destruct (glyph b) as [c | ]; [ | reflexivity]. cbn [bind].
  now rewrite <- app_assoc, IH.
Qed.

Lemma frame_loop_app (frame : AVFrame.t) (n : nat) :
  forall (p0 : Z) (out1 out2 : list stdout_op),
    frame_loop frame n p0 (out1 ++ out2)
    = option_map (app out1) (frame_loop frame n p0 out2).
Proof.
  induction n as [ | n IH]; intros p0 out1 out2; [reflexivity | ].
  cbn [frame_loop]. rewrite row_loop_app.
  destruct (row_loop _ _ p0 out2) as [out | ]; [ | reflexivity].
  cbn [option_map bind]. now rewrite <- app_assoc, IH.
Qed.

Lemma display_frame_app (frame : AVFrame.t) (tb tb' : AVRational.t)
  (out1 out2 : list stdout_op) :
  display_frame frame tb (out1 ++ out2)
  = option_map (app out1) (display_frame frame tb' out2).
Proof.
  unfold display_frame. rewrite <- app_assoc, frame_loop_app.
  destruct (frame_loop _ _ _ (out2 ++ _)) as [out | ]; [ | reflexivity].
  cbn [option_map bind]. now rewrite <- app_assoc.
Qed.

(** A row that is printed has read each of its [n] bytes. *)
Lemma row_loop_loads (plane : list Byte.byte) (n : nat) :
  forall (p : Z) (out out' : list stdout_op),
    row_loop plane n p out = Some out' ->
    forall x : nat, (x < n)%nat -> load plane (p + Z.of_nat x) <> None.
Proof.
  induction n as [ | n IH]; intros p out out' H x Hx; [lia | ].
  cbn [row_loop] in H.
  destruct (load plane p) as [b | ] eqn:Hb; [ | discriminate]. cbn [bind] in H.
  destruct (glyph b) as [c | ]; [ | discriminate]. cbn [bind] in H.
  destruct x as [ | x].
  - replace (p + Z.of_nat 0) with p by (simpl; lia). now rewrite Hb.
  - replace (p + Z.of_nat (S x)) with (p + 1 + Z.of_nat x) by lia.
    apply (IH _ _ _ H). lia.
Qed.

Lemma frame_loop_loads (frame : AVFrame.t) (n : nat) :
  forall (p0 : Z) (out out' : list stdout_op),
    frame_loop frame n p0 out = Some out' ->
    forall y x : nat,
      (y < n)%nat -> (x < Z.to_nat (AVFrame.width frame))%nat ->
      load (AVFrame.plane frame)
        (p0 + Z.of_nat y * AVFrame.linesize0 frame + Z.of_nat x) <> None.
Proof.
  induction n as [ | n IH]; intros p0 out out' H y x Hy Hx; [lia | ].
  cbn [frame_loop] in H.
  destruct (row_loop _ _ p0 out) as [out1 | ] eqn:Hrow; [ | discriminate].
  cbn [bind] in H.
  destruct y as [ | y].
  - replace (p0 + Z.of_nat 0 * AVFrame.linesize0 frame) with p0 by (simpl; lia).
    now apply (row_loop_loads _ _ _ _ _ Hrow).
  - replace (p0 + Z.of_nat (S y) * AVFrame.linesize0 frame)
      with (p0 + AVFrame.linesize0 frame + Z.of_nat y * AVFrame.linesize0 frame)
      by lia.
    apply (IH _ _ _ H); lia.
Qed.

Lemma load_defined (plane : list Byte.byte) (p : Z) :
  load plane p <> None <-> 0 <= p < Z.of_nat (List.length plane).
Proof.
  unfold load. destruct (Z.ltb_spec p 0) as [Hp | Hp].
  - split; [congruence | lia].
  - rewrite nth_error_Some. lia.
Qed.

Lemma in_bounds_holds (frame : AVFrame.t) :
  in_bounds frame -> holds_samples frame (sample_at frame).
Proof.
  intros H y x Hy Hx. unfold sample_at.
  specialize (H (Z.of_nat y) (Z.of_nat x) ltac:(lia) ltac:(lia)).
  apply load_defined in H. now destruct (load _ _).
Qed.

Lemma in_bounds_displays (frame : AVFrame.t) (time_base : AVRational.t)
  (out : list stdout_op) :
  in_bounds frame -> exists out', display_frame frame time_base out = Some out'.
Proof.
  intros H. eexists.
  apply Renderer.display_frame_spec, in_bounds_holds, H.
Qed.

Lemma flat_map_const {A B : Type} (b : B) (l : list A) :
  flat_map (fun _ => [b]) l = repeat b (List.length l).
Proof. induction l as [ | a l IH]; simpl; [reflexivity | now rewrite IH]. Qed.

(** The index into the ramp, [sample / 52], is one of 0 .. 4. *)
Lemma bucket_range (b : Byte.byte) : 0 <= sample_value b / 52 <= 4.
Proof.
  pose proof (Renderer.sample_value_range b) as H. split.
  - apply Z.div_pos; lia.
  - apply Z.lt_succ_r, Z.div_lt_upper_bound; lia.
Qed.

End Display.

(** X1.  [display_frame] stays inside the plane exactly when every byte at
    [data[0] + y * linesize[0] + x], for [y] below the height and [x] below the
    width, lies in it: then it prints, and otherwise some read is out of
    bounds. *)
Theorem display_frame_defined_iff (frame : AVFrame.t) (time_base : AVRational.t)
  (out : list stdout_op) :
  (exists out', display_frame frame time_base out = Some out')
  <-> in_bounds frame.
Proof.
  split.
  - intros [out' H]. unfold display_frame in H.
    destruct (frame_loop _ _ _ _) as [out1 | ] eqn:Hloop; [ | discriminate].
    intros y x Hy Hx. apply Display.load_defined.
    pose proof (Display.frame_loop_loads _ _ _ _ _ Hloop
                  (Z.to_nat y) (Z.to_nat x) ltac:(lia) ltac:(lia)) as Hload.
    now rewrite !Z2Nat.id in Hload by lia.
  - apply Display.in_bounds_displays.
Qed.

(** X2.  [display_frame] only appends to [stdout], and what it appends
    depends on the frame alone: not on what was written before, and not on
    [time_base], which the function never reads. *)
Theorem display_frame_appends (frame : AVFrame.t) (tb tb' : AVRational.t)
  (out : list stdout_op) :
  display_frame frame tb out
  = option_map (app out) (display_frame frame tb' []).
Proof.
  rewrite <- (app_nil_r out) at 1. apply Display.display_frame_app.
Qed.

(** X3.  Two samples are printed as the same character exactly when
    they fall into the same bucket of 52 values: the five characters of the
    ramp are distinct, so the picture loses nothing but the position of a
    sample within its bucket. *)
Theorem glyph_same_bucket (b1 b2 : Byte.byte) :
  glyph b1 = glyph b2 <-> sample_value b1 / 52 = sample_value b2 / 52.
Proof.
  rewrite !Renderer.glyph_ramp_char. unfold ramp_char.
  pose proof (Display.bucket_range b1) as H1.
  pose proof (Display.bucket_range b2) as H2.
  set (k1 := sample_value b1 / 52) in *.
  set (k2 := sample_value b2 / 52) in *.
  split; [ | now intros ->].
  assert (C1 : k1 = 0 \/ k1 = 1 \/ k1 = 2 \/ k1 = 3 \/ k1 = 4) by lia.
  assert (C2 : k2 = 0 \/ k2 = 1 \/ k2 = 2 \/ k2 = 3 \/ k2 = 4) by lia.
  clearbody k1 k2.
  destruct C1 as [-> | [-> | [-> | [-> | ->]]]];
    destruct C2 as [-> | [-> | [-> | [-> | ->]]]];
    vm_compute; intros H; congruence.
Qed.

(** X4.  A frame without rows or without columns ([height <= 0] or
    [width <= 0]) is displayed without a single read of its data: the cursor
    is reset, one newline is written per row, and [stdout] is flushed,
    whatever [data[0]], [linesize[0]] and the plane are. *)
Theorem display_frame_degenerate (frame : AVFrame.t) (time_base : AVRational.t)
  (out : list stdout_op) :
  AVFrame.width frame <= 0 \/ AVFrame.height frame <= 0 ->
  display_frame frame time_base out
  = Some (out ++ printf cursor_home
              ++ repeat (Putc newline) (Z.to_nat (AVFrame.height frame))
              ++ [Fflush]).
Proof.
  intros H.
  rewrite (Renderer.display_frame_spec _ _ _ (fun _ _ => Byte.x00))
    by (intros y x Hy Hx; lia).
  unfold rendered. do 3 f_equal.
  destruct H as [H | H].
  - replace (Z.to_nat (AVFrame.width frame)) with O by lia.
    unfold rendered_row. cbn [seq map app].
    now rewrite Display.flat_map_const, length_seq.
  - now replace (Z.to_nat (AVFrame.height frame)) with O by lia.
Qed.

Lemma display_frame_degenerate_witness :
  display_frame (AVFrame.mk [] 7 (-3) 0 2) (AVRational.mk 1 25) []
  = Some ([] ++ printf cursor_home
             ++ repeat (Putc newline) (Z.to_nat 2) ++ [Fflush]).
Proof.
  apply (display_frame_degenerate (AVFrame.mk [] 7 (-3) 0 2)).
  left. cbn. lia.
Defined.

(* ================================================================== *)
(** ** More about the runs of main *)

Module Run.

Lemma actions_trans (g : globals) (st1 st2 st3 : state) :
  actions g st1 st2 -> actions g st2 st3 -> actions g st1 st3.
Proof.
  intros H12 H23. induction H23 as [ | st2 st3 st4 _ IH Hstep];
    [exact H12 | ].
  exact (Then g _ _ _ (IH H12) Hstep).
Qed.

Lemma action_actions (g : globals) (st st' : state) :
  action g st st' -> actions g st st'.
Proof. intros H. exact (Then g _ _ _ (Done g st) H). Qed.

Lemma quiet_actions (g : globals) (st st' : state) :
  stdout st' = stdout st -> trace st' = trace st ->
  frame_displayed st' = frame_displayed st ->
  actions g st st'.
Proof. intros. now apply action_actions, Quiet. Qed.

Section Loops.

Variable E : averror.
Variable g : globals.

Lemma pull_loop_actions (st st' : state) (fl : flow) :
  pull_loop E g st = Some (fl, st') -> actions g st st'.
Proof.
  unfold pull_loop, av_buffersink_get_frame.
  destruct (pulls_left st) as [ | [r f] l].
  - rewrite Z.eqb_refl. cbn [orb]. intros [= <- <-].
    now apply quiet_actions.
  - destruct ((r =? AVERROR_EAGAIN E) || (r =? AVERROR_EOF E)).
    + intros [= <- <-]. now apply quiet_actions.
    + destruct (Z.ltb_spec r 0).
      * intros [= <- <-].
        eapply Then; [apply quiet_actions | apply Logs; exact H]; reflexivity.
      * destruct (display_frame _ _ _) as [out | ] eqn:Hout; [ | discriminate].
        cbn [bind]. intros [= <- <-].
        eapply Then; [ | apply Displays; exact Hout].
        now apply quiet_actions.
Qed.

Lemma push_actions (st : state) :
  actions g st (snd (av_buffersrc_add_frame_flags st))
  /\ ret (snd (av_buffersrc_add_frame_flags st)) = ret st.
Proof.
  unfold av_buffersrc_add_frame_flags.
  destruct (pushes_left st); split; try reflexivity;
    now apply quiet_actions.
Qed.

Lemma send_actions (st : state) :
  actions g st (snd (avcodec_send_packet st)).
Proof.
  unfold avcodec_send_packet.
  destruct (sends_left st); now apply quiet_actions.
Qed.

Lemma receive_loop_actions (rs : list Z) :
  forall (st st' : state) (fl : flow) (rs' : list Z),
    receive_loop E g rs st = Some (fl, rs', st') -> actions g st st'.
Proof.
  induction rs as [ | r rs IH]; intros st st' fl rs'; cbn [receive_loop].
  - destruct (ret st <? 0); intros [= <- <- <-];
      [apply Done | now apply quiet_actions].
  - destruct (ret st <? 0); [intros [= <- <- <-]; apply Done | ].
    assert (Hset : actions g st (set_ret r st)) by now apply quiet_actions.
    destruct ((r =? AVERROR_EAGAIN E) || (r =? AVERROR_EOF E));
      [intros [= <- <- <-]; exact Hset | ].
    destruct (Z.ltb_spec r 0) as [Hneg | Hpos].
    + intros [= <- <- <-].
      eapply Then; [exact Hset | apply Logs; exact Hneg].
    + destruct (push_actions (set_ret r st)) as [Hpush Hret].
      destruct (av_buffersrc_add_frame_flags (set_ret r st)) as [pushed st1].
      cbn [snd] in Hpush, Hret.
      pose proof (actions_trans _ _ _ _ Hset Hpush) as H1.
      destruct (pushed <? 0).
      * intros [= <- <- <-].
        eapply Then; [exact H1 | apply Logs].
        cbn [loop_message]. rewrite Hret. exact Hpos.
      * destruct (pull_loop E g st1) as [[fl1 st2] | ] eqn:Hpull;
          [ | discriminate].
        cbn [bind]. apply pull_loop_actions in Hpull.
        pose proof (actions_trans _ _ _ _ H1 Hpull) as H2.
        destruct fl1; [ | intros [= <- <- <-]; exact H2].
        pose proof (Then g _ _ _ H2 (Releases_frame g st2)) as H3.
        destruct (negb (frame_displayed (emit Frame_unref_frame st2) =? 0));
          [intros [= <- <- <-]; exact H3 | ].
        intros H. apply IH in H. exact (actions_trans _ _ _ _ H3 H).
Qed.

Lemma read_loop_actions (rds : list (Z * Z)) :
  forall (rs : list Z) (st st' : state) (fl : flow),
    read_loop E g rds rs st = Some (fl, st') -> actions g st st'.
Proof.
  induction rds as [ | [r idx] rds IH]; intros rs st st' fl; cbn [read_loop].
  - destruct (negb (frame_displayed st =? 0)); intros [= <- <-];
      [apply Done | now apply quiet_actions].
  - destruct (negb (frame_displayed st =? 0)); [intros [= <- <-]; apply Done | ].
    assert (Hset : actions g st (set_ret r st)) by now apply quiet_actions.
    destruct (Z.ltb_spec r 0) as [Hneg | Hpos].
    + destruct (negb (r =? AVERROR_EOF E)); intros [= <- <-];
        [eapply Then; [exact Hset | apply Logs; exact Hneg] | exact Hset].
    + destruct (idx =? video_stream_index g).
      * pose proof (send_actions (set_ret r st)) as Hsend.
        destruct (avcodec_send_packet (set_ret r st)) as [sent st1].
        cbn [snd] in Hsend.
        assert (H1 : actions g st
                       (if sent <? 0
                        then emit (Log (Error_sending_packet sent)) (set_ret sent st1)
                        else set_ret sent st1)).
        { apply (actions_trans _ _ (set_ret sent st1)).
          - apply (actions_trans _ _ _ _ Hset), (actions_trans _ _ _ _ Hsend).
            now apply quiet_actions.
          - destruct (Z.ltb_spec sent 0) as [Hs | Hs]; [ | apply Done].
            apply action_actions, Logs. exact Hs. }
        destruct ((sent <? 0) && negb (sent =? AVERROR_EAGAIN E)
                  && negb (sent =? AVERROR_EOF E));
          [intros [= <- <-]; exact H1 | ].
        destruct (receive_loop E g rs _) as [[[fl1 rs1] st2] | ] eqn:Hrecv;
          [ | discriminate].
        cbn [bind]. apply receive_loop_actions in Hrecv.
        pose proof (actions_trans _ _ _ _ H1 Hrecv) as H2.
        destruct fl1; [ | intros [= <- <-]; exact H2].
        pose proof (Then g _ _ _ H2 (Releases_packet g st2)) as H3.
        destruct (negb (frame_displayed (emit Packet_unref st2) =? 0));
          [intros [= <- <-]; exact H3 | ].
        intros H. apply IH in H. exact (actions_trans _ _ _ _ H3 H).
      * pose proof (Then g _ _ _ Hset (Releases_packet g (set_ret r st))) as H3.
        destruct (negb (frame_displayed (emit Packet_unref (set_ret r st)) =? 0));
          [intros [= <- <-]; exact H3 | ].
        intros H. apply IH in H. exact (actions_trans _ _ _ _ H3 H).
Qed.

Lemma pull_loop_ended (st st' : state) :
  pull_loop E g st = Some (Goto_end, st') -> ended E st'.
Proof.
  unfold pull_loop, av_buffersink_get_frame.
  destruct (pulls_left st) as [ | [r f] l].
  - rewrite Z.eqb_refl. cbn [orb]. discriminate.
  - destruct ((r =? AVERROR_EAGAIN E) || (r =? AVERROR_EOF E)) eqn:Hstop;
      [discriminate | ].
    apply orb_false_iff in Hstop. destruct Hstop as [_ Heof].
    apply Z.eqb_neq in Heof.
    destruct (Z.ltb_spec r 0) as [Hneg | Hpos].
    + intros [= <-]. right. cbn. repeat split; try assumption.
      eexists _, _. split; [reflexivity | ]. unfold origin. auto.
    + destruct (display_frame _ _ _); discriminate.
Qed.

Lemma receive_loop_ended (rs : list Z) :
  forall (st st' : state) (rs' : list Z),
    receive_loop E g rs st = Some (Goto_end, rs', st') -> ended E st'.
Proof.
  induction rs as [ | r rs IH]; intros st st' rs'; cbn [receive_loop].
  - destruct (ret st <? 0); discriminate.
  - destruct (ret st <? 0); [discriminate | ].
    destruct ((r =? AVERROR_EAGAIN E) || (r =? AVERROR_EOF E)) eqn:Hstop;
      [discriminate | ].
    apply orb_false_iff in Hstop. destruct Hstop as [_ Heof].
    apply Z.eqb_neq in Heof.
    destruct (Z.ltb_spec r 0) as [Hneg | Hpos].
    + intros [= <- <-]. right. cbn. repeat split; try assumption.
      eexists _, _. split; [reflexivity | ]. unfold origin. auto.
    + destruct (av_buffersrc_add_frame_flags (set_ret r st)) as [pushed st1].
      destruct (pushed <? 0); [discriminate | ].
      destruct (pull_loop E g st1) as [[fl1 st2] | ] eqn:Hpull;
        [ | discriminate].
      cbn [bind]. destruct fl1.
      * destruct (negb (frame_displayed (emit Frame_unref_frame st2) =? 0));
          [discriminate | ].
        apply IH.
      * intros [= <- <-]. exact (pull_loop_ended _ _ Hpull).
Qed.

End Loops.

Lemma shown_app (t1 t2 : list event) : shown (t1 ++ t2) = shown t1 ++ shown t2.
Proof.
  induction t1 as [ | [m | f | | | | ] t1 IH]; cbn [app shown]; try assumption;
    [reflexivity | now rewrite IH, app_assoc].
Qed.

Lemma released_at_once_app (t1 t2 : list event) :
  forall held : bool,
    released_at_once held t1 = true ->
    released_at_once held (t1 ++ t2) = released_at_once false t2.
Proof.
  induction t1 as [ | e t1 IH]; intros held H.
  - cbn in H. now destruct held.
  - destruct e; cbn [app released_at_once] in *;
      apply andb_true_iff in H; destruct H as [-> H]; cbn [andb];
      now apply IH.
Qed.

(** What a sequence of actions adds to the trace and to [stdout]. *)
Lemma actions_trace (g : globals) (st st' : state) :
  actions g st st' ->
  exists new : list event,
    trace st' = trace st ++ new
    /\ stdout st' = stdout st ++ shown new
    /\ released_at_once false new = true
    /\ Forall loop_event new
    /\ frame_displayed st' = frame_displayed st.
Proof.
  intros H. induction H as [st | st1 st2 st3 _ IH Hstep].
  - exists []. now rewrite !app_nil_r.
  - destruct IH as (new & Htr & Hout & Hrel & Hall & Hfd).
    destruct Hstep as [st2 st3 Hout' Htr' Hfd' | m st2 Hm | f out st2 Hf
                      | st2 | st2 ].
    + exists new. rewrite Hout', Htr', Hfd'. auto.
    + exists (new ++ [Log m]). cbn [emit trace stdout frame_displayed].
      rewrite Htr, Hout, shown_app, released_at_once_app, app_assoc by exact Hrel.
      cbn [shown]. rewrite app_nil_r.
      repeat split; try assumption; try reflexivity.
      apply Forall_app. split; [exact Hall | ]. now repeat constructor.
    + exists (new ++ [Display_frame f; Frame_unref_filt_frame]).
      cbn [emit set_stdout trace stdout frame_displayed].
      rewrite <- (app_nil_r (stdout st2)) in Hf.
      rewrite (Display.display_frame_app _ _ (AVRational.mk 0 1)) in Hf.
      rewrite Htr, shown_app, released_at_once_app, <- !app_assoc by exact Hrel.
      cbn [shown app]. unfold rendering.
      destruct (display_frame f _ []) as [ops | ]; [ | discriminate].
      injection Hf as <-. rewrite Hout, !app_nil_r, <- app_assoc.
      repeat split; try assumption; try reflexivity.
      apply Forall_app. split; [exact Hall | ]. now repeat constructor.
    + exists (new ++ [Frame_unref_frame]). cbn [emit trace stdout frame_displayed].
      rewrite Htr, Hout, shown_app, released_at_once_app, app_assoc by exact Hrel.
      cbn [shown]. rewrite app_nil_r.
      repeat split; try assumption; try reflexivity.
      apply Forall_app. split; [exact Hall | ]. now repeat constructor.
    + exists (new ++ [Packet_unref]). cbn [emit trace stdout frame_displayed].
      rewrite Htr, Hout, shown_app, released_at_once_app, app_assoc by exact Hrel.
      cbn [shown]. rewrite app_nil_r.
      repeat split; try assumption; try reflexivity.
      apply Forall_app. split; [exact Hall | ]. now repeat constructor.
Qed.

Section Ends.

Variable E : averror.
Variable g : globals.

Lemma read_loop_ended (rds : list (Z * Z)) :
  forall (rs : list Z) (st st' : state) (fl : flow),
    frame_displayed st = 0 ->
    read_loop E g rds rs st = Some (fl, st') -> ended E st'.
Proof.
  induction rds as [ | [r idx] rds IH]; intros rs st st' fl Hfd;
    cbn [read_loop]; rewrite Hfd; cbn [Z.eqb negb].
  - intros [= <- <-]. now left.
  - destruct (Z.ltb_spec r 0) as [Hneg | Hpos].
    + destruct (Z.eqb_spec r (AVERROR_EOF E)) as [Heof | Heof]; cbn [negb];
        intros [= <- <-]; [now left | ].
      right. cbn. repeat split; try assumption.
      eexists _, _. split; [reflexivity | ]. unfold origin. auto.
    + destruct (idx =? video_stream_index g).
      * pose proof (send_actions g (set_ret r st)) as Hsend.
        apply actions_trace in Hsend.
        destruct Hsend as (_ & _ & _ & _ & _ & Hfd1). cbn in Hfd1.
        destruct (avcodec_send_packet (set_ret r st)) as [sent st1].
        cbn [snd] in Hfd1. rewrite Hfd in Hfd1.
        set (st2 := if sent <? 0
                    then emit (Log (Error_sending_packet sent)) (set_ret sent st1)
                    else set_ret sent st1).
        assert (Hfd2 : frame_displayed st2 = 0)
          by (unfold st2; destruct (sent <? 0); exact Hfd1).
        destruct (Z.ltb_spec sent 0) as [Hs | Hs]; cbn [andb].
        -- destruct (Z.eqb_spec sent (AVERROR_EAGAIN E)) as [Ha | Ha];
             cbn [negb andb].
           ++ destruct (receive_loop E g rs st2) as [[[fl1 rs1] st3] | ] eqn:Hrecv;
                [ | discriminate].
              cbn [bind]. destruct fl1.
              ** pose proof (receive_loop_actions _ _ _ _ _ _ _ Hrecv) as Ha3.
                 apply actions_trace in Ha3.
                 destruct Ha3 as (_ & _ & _ & _ & _ & Hfd3).
                 cbn. rewrite Hfd3, Hfd2. cbn [Z.eqb negb].
                 apply IH. cbn. now rewrite Hfd3.
              ** intros [= <- <-]. exact (receive_loop_ended _ _ _ _ _ _ Hrecv).
           ++ destruct (Z.eqb_spec sent (AVERROR_EOF E)) as [He | He]; cbn [negb].
              ** destruct (receive_loop E g rs st2) as [[[fl1 rs1] st3] | ] eqn:Hrecv;
                   [ | discriminate].
                 cbn [bind]. destruct fl1.
                 --- pose proof (receive_loop_actions _ _ _ _ _ _ _ Hrecv) as Ha3.
                     apply actions_trace in Ha3.
                     destruct Ha3 as (_ & _ & _ & _ & _ & Hfd3).
                     cbn. rewrite Hfd3, Hfd2. cbn [Z.eqb negb].
                     apply IH. cbn. now rewrite Hfd3.
                 --- intros [= <- <-]. exact (receive_loop_ended _ _ _ _ _ _ Hrecv).
              ** intros [= <- <-]. right. unfold st2. cbn.
                 repeat split; try assumption.
                 eexists _, _. split; [reflexivity | ]. unfold origin. auto.
        -- destruct (receive_loop E g rs st2) as [[[fl1 rs1] st3] | ] eqn:Hrecv;
             [ | discriminate].
           cbn [bind]. destruct fl1.
           ++ pose proof (receive_loop_actions _ _ _ _ _ _ _ Hrecv) as Ha3.
              apply actions_trace in Ha3.
              destruct Ha3 as (_ & _ & _ & _ & _ & Hfd3).
              cbn. rewrite Hfd3, Hfd2. cbn [Z.eqb negb].
              apply IH. cbn. now rewrite Hfd3.
           ++ intros [= <- <-]. exact (receive_loop_ended _ _ _ _ _ _ Hrecv).
      * cbn. rewrite Hfd. cbn [Z.eqb negb]. apply IH. exact Hfd.
Qed.

(** From the label [end] on: the releases, then the report that fits the
    way the loop was left. *)
Lemma finish_trace (st : state) :
  frame_displayed st = 0 -> ended E st ->
  exists m : message,
    finish E st = (1, emit (Log m) (emit Free_all st))
    /\ ((m = End_of_file_no_frame /\ ret st = AVERROR_EOF E)
        \/ (m = Program_finished_with_error (ret st)
            /\ ret st < 0 /\ ret st <> AVERROR_EOF E
            /\ exists (tr : list event) (m0 : message),
                 trace st = tr ++ [Log m0] /\ origin m0 (ret st))).
Proof.
  intros Hfd Hend. unfold finish. cbn [emit ret frame_displayed].
  rewrite Hfd. cbn [Z.eqb andb]. rewrite andb_true_r.
  destruct Hend as [Heof | (Hneg & Hne & Hlast)].
  - rewrite Heof, Z.eqb_refl, andb_false_r.
    exists End_of_file_no_frame. split; [reflexivity | now left].
  - apply Z.ltb_lt in Hneg. rewrite Hneg. apply Z.ltb_lt in Hneg.
    apply Z.eqb_neq in Hne. rewrite Hne. apply Z.eqb_neq in Hne. cbn [negb andb].
    eexists. split; [reflexivity | right]. auto.
Qed.

(** The runs of [main] that get past the allocations. *)
Lemma main_run (argc : Z) (s : script) (code : Z) (st : state) :
  main E g argc true s = Some (code, st) -> argc = 2 ->
  exists (new : list event) (m : message),
    code = 1
    /\ trace st = new ++ [Free_all; Log m]
    /\ stdout st = shown new
    /\ released_at_once false new = true
    /\ Forall loop_event new
    /\ (m = End_of_file_no_frame
        \/ exists c : Z,
             m = Program_finished_with_error c /\ c < 0 /\ c <> AVERROR_EOF E
             /\ exists (tr : list event) (m0 : message),
                  new = tr ++ [Log m0] /\ origin m0 c).
Proof.
  intros H ->. unfold main in H. cbn [Z.eqb Pos.eqb negb] in H.
  destruct (open_ret s <? 0); [discriminate | ].
  destruct (init_filters g s) as [r | ]; [ | discriminate]. cbn [bind] in H.
  destruct (r <? 0); [discriminate | ].
  destruct (read_loop E g _ _ _) as [[fl st1] | ] eqn:Hloop; [ | discriminate].
  cbn [bind snd] in H.
  assert (Hend : ended E st1)
    by (eapply read_loop_ended; [ | exact Hloop]; reflexivity).
  apply read_loop_actions, actions_trace in Hloop.
  destruct Hloop as (new & Htr & Hout & Hrel & Hall & Hfd).
  cbn in Htr, Hout, Hfd.
  destruct (finish_trace st1 Hfd Hend) as (m & Hfin & Hm).
  rewrite Hfin in H. injection H as <- <-.
  exists new, m. cbn [emit trace stdout].
  rewrite Htr, <- app_assoc. repeat split; try assumption; try reflexivity.
  destruct Hm as [[-> _] | (-> & Hneg & Hne & tr & m0 & Hlast & Horigin)];
    [now left | right].
  exists (ret st1). repeat split; try assumption.
  exists tr, m0. rewrite <- Htr. now split.
Qed.

End Ends.

Lemma logged_loop_messages (t : list event) :
  Forall loop_event t -> Forall loop_message (logged t).
Proof.
  induction 1 as [ | [m | f | | | | ] t He _ IH]; cbn [logged];
    try assumption; now constructor.
Qed.

End Run.

(** X5.  Whatever FFmpeg answers, a run of [main] writes to [stdout] only
    through [display_frame]: at the end [stdout] holds the renderings of the
    frames displayed, in the order of the calls, and nothing else; and each
    filtered frame is released right after it is displayed, and at no other
    point. *)
Theorem main_stdout (E : averror) (g : globals) (argc : Z) (allocated : bool)
  (s : script) (code : Z) (st : state) :
  main E g argc allocated s = Some (code, st) ->
  stdout st = shown (trace st)
  /\ released_at_once false (trace st) = true.
Proof.
  intros H.
  destruct (Z.eq_dec argc 2) as [Hargc | Hargc].
  - destruct allocated.
    + destruct (Run.main_run E g argc s code st H Hargc)
        as (new & m & _ & Htr & Hout & Hrel & _).
      rewrite Htr, Run.shown_app, Run.released_at_once_app by exact Hrel.
      cbn [shown released_at_once]. now rewrite app_nil_r.
    + subst argc. injection H as _ <-. now split.
  - unfold main in H. apply Z.eqb_neq in Hargc. rewrite Hargc in H.
    injection H as _ <-. now split.
Qed.

Lemma main_stdout_witness :
  exists st : state,
    main averror_linux video_globals 2 true (video_script averror_linux 2)
    = Some (1, st)
    /\ stdout st = shown (trace st)
    /\ released_at_once false (trace st) = true.
Proof.
  eexists. split; [vm_compute; reflexivity | ].
  apply (main_stdout averror_linux video_globals 2 true
           (video_script averror_linux 2) 1).
  vm_compute. reflexivity.
Defined.



Module Stale.

Section Report.

Variable E : averror.
Variable g : globals.
Variable stale : Z.

(** Where [main] is defined, the value the storage held plays no role. *)
Lemma main_agrees (argc : Z) (allocated : bool) (s : script) (x : Z * state) :
  main E g argc allocated s = Some x ->
  main_with_stale E g stale argc allocated s = Some x.
Proof.
  unfold main, main_with_stale. cbv zeta.
  destruct (negb (argc =? 2)); [trivial | ].
  destruct (negb allocated); [trivial | ].
  destruct (open_ret s <? 0); [discriminate | ].
  destruct (init_filters g s) as [r | ]; [ | discriminate]. cbn [bind].
  destruct (r <? 0); [discriminate | trivial].
Qed.

(** A run is a run of [main], or it went to [end] from the set-up. *)
Lemma main_with_stale_cases (argc : Z) (allocated : bool) (s : script)
  (x : Z * state) :
  main_with_stale E g stale argc allocated s = Some x ->
  main E g argc allocated s = Some x
  \/ exists code : Z,
       setup_fails g s code
       /\ x = finish E (mk_state code stale (sends s) (pushes s) (pulls s) [] []).
Proof.
  unfold main, main_with_stale, setup_fails. cbv zeta.
  destruct (negb (argc =? 2)); [now left | ].
  destruct (negb allocated); [now left | ].
  destruct (Z.ltb_spec (open_ret s) 0) as [Ho | Ho].
  - intros [= <-]. right. exists (open_ret s). split; [left | ]; auto.
  - destruct (init_filters g s) as [r | ]; [ | discriminate]. cbn [bind].
    destruct (Z.ltb_spec r 0) as [Hr | Hr]; [ | now left].
    intros [= <-]. right. exists r. split; [right | ]; auto.
Qed.

(** The releases and the final report after a failed set-up. *)
Lemma finish_unset (s : script) (code : Z) :
  code < 0 ->
  finish E (mk_state code stale (sends s) (pushes s) (pulls s) [] [])
  = if stale =? 0
    then (1, mk_state code 0 (sends s) (pushes s) (pulls s) []
               [Free_all;
                Log (if code =? AVERROR_EOF E then End_of_file_no_frame
                     else Program_finished_with_error code)])
    else (0, mk_state code stale (sends s) (pushes s) (pulls s) [] [Free_all]).
Proof.
  intros Hc. unfold finish, emit.
  cbn [ret frame_displayed sends_left pushes_left pulls_left stdout trace app].
  apply Z.ltb_lt in Hc. rewrite Hc. cbn [andb].
  destruct (Z.eqb_spec stale 0) as [-> | Hs].
  - destruct (code =? AVERROR_EOF E); reflexivity.
  - rewrite !andb_false_r. reflexivity.
Qed.

Lemma setup_fails_negative (s : script) (code : Z) :
  setup_fails g s code -> code < 0.
Proof. intros [[H ->] | (_ & _ & H)]; exact H. Qed.

End Report.
End Stale.

(** X7.  The report "Program finished with an error" always carries a
    negative code other than [AVERROR_EOF], in every run, those whose set-up
    fails included (whatever the unassigned [frame_displayed] holds).
    Either the set-up failed with that code, and then nothing from the
    loops precedes the report: what there is to say was said by
    [open_input_file] or [init_filters]; or the error was reported where
    it arose: the message of the failed call ([av_read_frame],
    [avcodec_send_packet], [avcodec_receive_frame] or
    [av_buffersink_get_frame]) is the last thing before the releases at
    [end], with the same code. *)
Theorem main_error_report (E : averror) (g : globals) (stale argc : Z)
  (allocated : bool) (s : script) (code : Z) (st : state) (c : Z) :
  main_with_stale E g stale argc allocated s = Some (code, st) ->
  In (Program_finished_with_error c) (logged (trace st)) ->
  c < 0 /\ c <> AVERROR_EOF E
  /\ ((setup_fails g s c /\ stale = 0
       /\ trace st = [Free_all; Log (Program_finished_with_error c)])
      \/ exists (tr : list event) (m : message),
           trace st
           = tr ++ [Log m; Free_all; Log (Program_finished_with_error c)]
           /\ origin m c).
Proof.
  intros H Hin.
  destruct (Stale.main_with_stale_cases E g stale argc allocated s _ H)
    as [Hmain | (code' & Hfail & Hx)].
  - clear H. rename Hmain into H.
    destruct (Z.eq_dec argc 2) as [Hargc | Hargc].
    + destruct allocated.
      * destruct (Run.main_run E g argc s code st H Hargc)
          as (new & m & _ & Htr & _ & _ & Hall & Hm).
        rewrite Htr, Driver.logged_app in Hin. cbn [logged] in Hin.
        apply in_app_or in Hin. destruct Hin as [Hin | [Hin | []]].
        -- apply Run.logged_loop_messages in Hall.
           rewrite Forall_forall in Hall. destruct (Hall _ Hin).
        -- subst m.
           destruct Hm as [Hm | (c' & [= <-] & Hneg & Hne & tr & m0 & -> & Ho)];
             [discriminate | ].
           repeat split; try assumption. right.
           exists tr, m0. rewrite Htr, <- app_assoc. now split.
      * subst argc. injection H as _ <-. destruct Hin as [Hin | []].
        discriminate.
    + unfold main in H. apply Z.eqb_neq in Hargc. rewrite Hargc in H.
      injection H as _ <-. destruct Hin as [Hin | []]. discriminate.
  - pose proof (Stale.setup_fails_negative g s code' Hfail) as Hneg.
    rewrite (Stale.finish_unset E stale s code' Hneg) in Hx.
    destruct (Z.eqb_spec stale 0) as [Hs | Hs].
    + injection Hx as _ ->. cbn [trace logged] in Hin.
      destruct (Z.eqb_spec code' (AVERROR_EOF E)) as [He | He].
      * destruct Hin as [Hin | []]. discriminate.
      * destruct Hin as [[= <-] | []].
        repeat split; try assumption. left. now repeat split.
    + injection Hx as _ ->. destruct Hin.
Qed.

Lemma main_error_report_witness :
  exists st : state,
    main_with_stale averror_linux video_globals 0 2 true
      (mk_script (-2) 0 0 [(0, 0)] [0] [0] [0] [(0, frame_2x2)])
    = Some (1, st)
    /\ -2 < 0 /\ -2 <> AVERROR_EOF averror_linux
    /\ ((setup_fails video_globals
           (mk_script (-2) 0 0 [(0, 0)] [0] [0] [0] [(0, frame_2x2)]) (-2)
         /\ 0 = 0
         /\ trace st = [Free_all; Log (Program_finished_with_error (-2))])
        \/ exists (tr : list event) (m : message),
             trace st
             = tr ++ [Log m; Free_all; Log (Program_finished_with_error (-2))]
             /\ origin m (-2)).
Proof.
  eexists. split; [vm_compute; reflexivity | ].
  apply (main_error_report averror_linux video_globals 0 2 true
           (mk_script (-2) 0 0 [(0, 0)] [0] [0] [0] [(0, frame_2x2)]) 1).
  - vm_compute. reflexivity.
  - vm_compute. auto.
Defined.

(** X8.  The message for a failed [av_buffersrc_add_frame_flags] never
    carries an error code: the return value of the push is only compared
    with 0, and the message prints [ret], which still holds the
    non-negative code of the [avcodec_receive_frame] before it. *)
Theorem main_feeding_code (E : averror) (g : globals) (argc : Z)
  (allocated : bool) (s : script) (code : Z) (st : state) (c : Z) :
  main E g argc allocated s = Some (code, st) ->
  In (Error_feeding_filtergraph c) (logged (trace st)) ->
  0 <= c.
Proof.
  intros H Hin.
  destruct (Z.eq_dec argc 2) as [Hargc | Hargc].
  - destruct allocated.
    + destruct (Run.main_run E g argc s code st H Hargc)
        as (new & m & _ & Htr & _ & _ & Hall & Hm).
      rewrite Htr, Driver.logged_app in Hin. cbn [logged] in Hin.
      apply in_app_or in Hin. destruct Hin as [Hin | [Hin | []]].
      * apply Run.logged_loop_messages in Hall.
        rewrite Forall_forall in Hall. exact (Hall _ Hin).
      * subst m. destruct Hm as [Hm | (c' & Hm & _)]; discriminate.
    + subst argc. injection H as _ <-. destruct Hin as [Hin | []]. discriminate.
  - unfold main in H. apply Z.eqb_neq in Hargc. rewrite Hargc in H.
    injection H as _ <-. destruct Hin as [Hin | []]. discriminate.
Qed.

Lemma main_feeding_code_witness :
  exists st : state,
    main averror_linux video_globals 2 true
      (mk_script 0 0 0 [(0, 0)] [0] [0] [-22] [])
    = Some (1, st)
    /\ logged (trace st) = [Error_feeding_filtergraph 0; End_of_file_no_frame]
    /\ 0 <= 0.
Proof.
  eexists. split; [vm_compute; reflexivity | ].
  split; [reflexivity | ].
  eapply (main_feeding_code averror_linux video_globals 2 true
            (mk_script 0 0 0 [(0, 0)] [0] [0] [-22] []) 1).
  - vm_compute. reflexivity.
  - vm_compute. auto.
Defined.

Module Passes.

Lemma read_loop_other_streams (E : averror) (g : globals) (rds : list (Z * Z)) :
  forall (rs : list Z) (st : state),
    frame_displayed st = 0 ->
    Forall (other_stream g) rds ->
    read_loop E g rds rs st
    = Some (Fallthrough,
            mk_state (AVERROR_EOF E) 0 (sends_left st) (pushes_left st)
              (pulls_left st) (stdout st)
              (trace st ++ repeat Packet_unref (List.length rds))).
Proof.
  induction rds as [ | [r idx] rds IH]; intros rs st Hfd Hall;
    cbn [read_loop]; rewrite Hfd; cbn [Z.eqb negb].
  - unfold set_ret. cbn [List.length repeat]. now rewrite app_nil_r, Hfd.
  - inversion Hall as [ | p l [Hr Hidx] Hrest]; subst. cbn [fst snd] in Hr, Hidx.
    replace (r <? 0) with false by (symmetry; apply Z.ltb_ge; exact Hr).
    apply Z.eqb_neq in Hidx. rewrite Hidx.
    cbn [emit set_ret frame_displayed]. rewrite Hfd. cbn [Z.eqb negb].
    rewrite IH by (exact Hrest || exact Hfd).
    unfold emit, set_ret.
    cbn [ret frame_displayed sends_left pushes_left pulls_left stdout trace
         List.length repeat].
    now rewrite <- app_assoc.
Qed.

End Passes.

(** X9.  A file whose packets all belong to other streams than the one
    selected: every packet is released and nothing else happens.  The
    decoder and the filter graph are never called (their answers are all
    left), nothing is displayed, and the run ends with "End of file
    reached, but no video frame could be displayed" and exit code 1. *)
Theorem main_other_streams (E : averror) (g : globals) (s : script) (r : Z) :
  0 <= open_ret s ->
  init_filters g s = Some r -> 0 <= r ->
  Forall (other_stream g) (reads s) ->
  main E g 2 true s
  = Some (1, mk_state (AVERROR_EOF E) 0 (sends s) (pushes s) (pulls s) []
               (repeat Packet_unref (List.length (reads s))
                ++ [Free_all; Log End_of_file_no_frame])).
Proof.
  intros Hopen Hinit Hr Hall. unfold main. cbn [Z.eqb Pos.eqb negb].
  replace (open_ret s <? 0) with false by (symmetry; apply Z.ltb_ge; exact Hopen).
  rewrite Hinit. cbn [bind].
  replace (r <? 0) with false by (symmetry; apply Z.ltb_ge; exact Hr).
  rewrite Passes.read_loop_other_streams by (try exact Hall; reflexivity).
  cbn [bind snd]. unfold finish.
  cbn [emit set_ret ret frame_displayed sends_left pushes_left pulls_left
       stdout trace app Z.eqb].
  rewrite Z.eqb_refl. cbn [negb andb]. rewrite andb_false_r.
  unfold emit.
  cbn [andb ret frame_displayed sends_left pushes_left pulls_left stdout trace].
  now rewrite <- app_assoc.
Qed.

Lemma main_other_streams_witness :
  main averror_linux video_globals 2 true
    (mk_script 0 0 0 [(0, 1); (0, 2)] [0] [0] [0] [(0, frame_2x2)])
  = Some (1, mk_state (AVERROR_EOF averror_linux) 0 [0] [0] [(0, frame_2x2)] []
               [Packet_unref; Packet_unref; Free_all; Log End_of_file_no_frame]).
Proof.
  apply (main_other_streams averror_linux video_globals
           (mk_script 0 0 0 [(0, 1); (0, 2)] [0] [0] [0] [(0, frame_2x2)]) 0).
  - cbn. lia.
  - vm_compute. reflexivity.
  - lia.
  - cbn [reads].
    apply Forall_cons; [ | apply Forall_cons; [ | apply Forall_nil]];
      split; cbn; lia.
Defined.

(** X10.  A failed [av_buffersrc_add_frame_flags] does not end the run: the
    failure is logged (with the code of the [avcodec_receive_frame] before
    it), the filter graph is not asked for a frame, the decoded frame is
    not released, the decoder is not asked for another frame of this packet,
    and the read loop goes on with the next packet, [ret] still
    non-negative. *)
Theorem push_failure_continues (E : averror) (g : globals)
  (rds : list (Z * Z)) (rs sl pl : list Z) (pll : list (Z * AVFrame.t))
  (r0 read_ret sent received pushed : Z)
  (out : list stdout_op) (tr : list event) :
  AVERROR_EOF E < 0 -> AVERROR_EAGAIN E < 0 ->
  0 <= read_ret -> 0 <= sent -> 0 <= received -> pushed < 0 ->
  read_loop E g ((read_ret, video_stream_index g) :: rds) (received :: rs)
    (mk_state r0 0 (sent :: sl) (pushed :: pl) pll out tr)
  = read_loop E g rds rs
      (mk_state received 0 sl pl pll out
         (tr ++ [Log (Error_feeding_filtergraph received); Packet_unref])).
Proof.
  intros Heof Hagain Hread Hsent Hrecv Hpush.
  assert (Hr : (read_ret <? 0) = false) by (apply Z.ltb_ge; lia).
  assert (Hs : (sent <? 0) = false) by (apply Z.ltb_ge; lia).
  assert (Hc : (received <? 0) = false) by (apply Z.ltb_ge; lia).
  assert (Hp : (pushed <? 0) = true) by (apply Z.ltb_lt; lia).
  assert (Ha : (received =? AVERROR_EAGAIN E) = false)
    by (apply Z.eqb_neq; lia).
  assert (He : (received =? AVERROR_EOF E) = false)
    by (apply Z.eqb_neq; lia).
  cbn [read_loop].
  unfold avcodec_send_packet, set_ret.
  cbn [ret frame_displayed sends_left pushes_left pulls_left stdout trace].
  rewrite Hr, (Z.eqb_refl (video_stream_index g)), Hs.
  cbn [Z.eqb negb andb].
  cbn [receive_loop].
  unfold av_buffersrc_add_frame_flags, set_ret.
  cbn [ret frame_displayed sends_left pushes_left pulls_left stdout trace].
  rewrite Hs, Ha, He, Hc, Hp. cbn [orb bind].
  unfold emit.
  cbn [ret frame_displayed sends_left pushes_left pulls_left stdout trace
       Z.eqb negb].
  now rewrite <- app_assoc.
Qed.

Lemma push_failure_continues_witness :
  read_loop averror_linux video_globals [(0, 0); (0, 0)] [0; 0]
    (mk_state 0 0 [0; 0] [-22; 0] [(0, frame_2x2)] [] [])
  = read_loop averror_linux video_globals [(0, 0)] [0]
      (mk_state 0 0 [0] [0] [(0, frame_2x2)] []
         ([] ++ [Log (Error_feeding_filtergraph 0); Packet_unref])).
Proof.
  apply (push_failure_continues averror_linux video_globals
           [(0, 0)] [0] [0] [0] [(0, frame_2x2)] 0 0 0 0 (-22) [] []);
    cbn; lia.
Defined.

(** X11.  A failed [avcodec_send_packet] is logged.  If its code is
    [AVERROR(EAGAIN)] or [AVERROR_EOF] the decoder is not asked for a frame,
    the packet is released without being sent again, and the read loop goes
    on with the next packet; with any other code the loop is left at once,
    and the packet is not released. *)
Theorem send_failure (E : averror) (g : globals)
  (rds : list (Z * Z)) (rs sl pl : list Z) (pll : list (Z * AVFrame.t))
  (r0 read_ret sent : Z) (out : list stdout_op) (tr : list event) :
  0 <= read_ret -> sent < 0 ->
  read_loop E g ((read_ret, video_stream_index g) :: rds) rs
    (mk_state r0 0 (sent :: sl) pl pll out tr)
  = if (sent =? AVERROR_EAGAIN E) || (sent =? AVERROR_EOF E)
    then read_loop E g rds rs
           (mk_state sent 0 sl pl pll out
              (tr ++ [Log (Error_sending_packet sent); Packet_unref]))
    else Some (Fallthrough,
               mk_state sent 0 sl pl pll out
                 (tr ++ [Log (Error_sending_packet sent)])).
Proof.
  intros Hread Hsent.
  assert (Hr : (read_ret <? 0) = false) by (apply Z.ltb_ge; lia).
  assert (Hs : (sent <? 0) = true) by (apply Z.ltb_lt; lia).
  cbn [read_loop].
  unfold avcodec_send_packet, set_ret.
  cbn [ret frame_displayed sends_left pushes_left pulls_left stdout trace].
  rewrite Hr, (Z.eqb_refl (video_stream_index g)), Hs.
  cbn [Z.eqb negb andb].
  destruct (sent =? AVERROR_EAGAIN E); cbn [negb andb orb].
  - rewrite Driver.receive_loop_stops by exact Hsent.
    cbn [bind]. unfold emit.
    cbn [ret frame_displayed sends_left pushes_left pulls_left stdout trace
         Z.eqb negb].
    now rewrite <- app_assoc.
  - destruct (sent =? AVERROR_EOF E); cbn [negb]; [ | reflexivity].
    rewrite Driver.receive_loop_stops by exact Hsent.
    cbn [bind]. unfold emit.
    cbn [ret frame_displayed sends_left pushes_left pulls_left stdout trace
         Z.eqb negb].
    now rewrite <- app_assoc.
Qed.

Lemma send_failure_witness :
  read_loop averror_linux video_globals [(0, 0); (0, 0)] [0]
    (mk_state 0 0 [-11; 0] [0] [(0, frame_2x2)] [] [])
  = if (-11 =? AVERROR_EAGAIN averror_linux) || (-11 =? AVERROR_EOF averror_linux)
    then read_loop averror_linux video_globals [(0, 0)] [0]
           (mk_state (-11) 0 [0] [0] [(0, frame_2x2)] []
              ([] ++ [Log (Error_sending_packet (-11)); Packet_unref]))
    else Some (Fallthrough,
               mk_state (-11) 0 [0] [0] [(0, frame_2x2)] []
                 ([] ++ [Log (Error_sending_packet (-11))])).
Proof.
  apply (send_failure averror_linux video_globals
           [(0, 0)] [0] [0] [0] [(0, frame_2x2)] 0 0 (-11) [] []); lia.
Defined.

Module Safety.

Section Answers.

Variable E : averror.
Variable g : globals.

Lemma pull_loop_defined (st : state) :
  Forall displayable (pulls_left st) ->
  exists (fl : flow) (st' : state),
    pull_loop E g st = Some (fl, st')
    /\ Forall displayable (pulls_left st').
Proof.
  intros Hall. unfold pull_loop, av_buffersink_get_frame.
  destruct (pulls_left st) as [ | [r f] l] eqn:Hpulls.
  - rewrite Z.eqb_refl. cbn [orb]. eexists _, _. split; [reflexivity | ].
    cbn. now rewrite Hpulls.
  - inversion Hall as [ | p l' Hf Hl]; subst.
    destruct ((r =? AVERROR_EAGAIN E) || (r =? AVERROR_EOF E));
      [eexists _, _; split; [reflexivity | exact Hl] | ].
    destruct (Z.ltb_spec r 0) as [Hneg | Hpos];
      [eexists _, _; split; [reflexivity | exact Hl] | ].
    destruct (Display.in_bounds_displays f (stream_time_base g)
                (stdout (set_ret r
                   (mk_state (ret st) (frame_displayed st) (sends_left st)
                      (pushes_left st) l (stdout st) (trace st)))) (Hf Hpos))
      as [out Hout].
    rewrite Hout. cbn [bind]. eexists _, _. split; [reflexivity | exact Hl].
Qed.

Lemma receive_loop_defined (rs : list Z) :
  forall st : state,
    Forall displayable (pulls_left st) ->
    exists (fl : flow) (rs' : list Z) (st' : state),
      receive_loop E g rs st = Some (fl, rs', st')
      /\ Forall displayable (pulls_left st').
Proof.
  induction rs as [ | r rs IH]; intros st Hall; cbn [receive_loop].
  - destruct (ret st <? 0); eexists _, _, _; (split; [reflexivity | exact Hall]).
  - destruct (ret st <? 0);
      [eexists _, _, _; split; [reflexivity | exact Hall] | ].
    destruct ((r =? AVERROR_EAGAIN E) || (r =? AVERROR_EOF E));
      [eexists _, _, _; split; [reflexivity | exact Hall] | ].
    destruct (r <? 0);
      [eexists _, _, _; split; [reflexivity | exact Hall] | ].
    assert (Hpush : Forall displayable
                      (pulls_left (snd (av_buffersrc_add_frame_flags (set_ret r st))))).
    { unfold av_buffersrc_add_frame_flags.
      destruct (pushes_left (set_ret r st)); exact Hall. }
    destruct (av_buffersrc_add_frame_flags (set_ret r st)) as [pushed st1].
    cbn [snd] in Hpush.
    destruct (pushed <? 0);
      [eexists _, _, _; split; [reflexivity | exact Hpush] | ].
    destruct (pull_loop_defined st1 Hpush) as (fl1 & st2 & Hpull & H2).
    rewrite Hpull. cbn [bind].
    destruct fl1; [ | eexists _, _, _; split; [reflexivity | exact H2]].
    destruct (negb (frame_displayed (emit Frame_unref_frame st2) =? 0));
      [eexists _, _, _; split; [reflexivity | exact H2] | ].
    apply IH. exact H2.
Qed.

Lemma read_loop_defined (rds : list (Z * Z)) :
  forall (rs : list Z) (st : state),
    Forall displayable (pulls_left st) ->
    exists (fl : flow) (st' : state), read_loop E g rds rs st = Some (fl, st').
Proof.
  induction rds as [ | [r idx] rds IH]; intros rs st Hall; cbn [read_loop].
  - destruct (negb (frame_displayed st =? 0)); eexists _, _; reflexivity.
  - destruct (negb (frame_displayed st =? 0)); [eexists _, _; reflexivity | ].
    destruct (r <? 0); [eexists _, _; reflexivity | ].
    destruct (idx =? video_stream_index g).
    + assert (Hsend : Forall displayable
                        (pulls_left (snd (avcodec_send_packet (set_ret r st))))).
      { unfold avcodec_send_packet.
        destruct (sends_left (set_ret r st)); exact Hall. }
      destruct (avcodec_send_packet (set_ret r st)) as [sent st1].
      cbn [snd] in Hsend.
      destruct ((sent <? 0) && negb (sent =? AVERROR_EAGAIN E)
                && negb (sent =? AVERROR_EOF E));
        [eexists _, _; reflexivity | ].
      destruct (receive_loop_defined rs
                  (if sent <? 0
                   then emit (Log (Error_sending_packet sent)) (set_ret sent st1)
                   else set_ret sent st1))
        as (fl1 & rs1 & st2 & Hrecv & H2);
        [destruct (sent <? 0); exact Hsend | ].
      rewrite Hrecv. cbn [bind].
      destruct fl1; [ | eexists _, _; reflexivity].
      destruct (negb (frame_displayed (emit Packet_unref st2) =? 0));
        [eexists _, _; reflexivity | ].
      apply IH. exact H2.
    + destruct (negb (frame_displayed (emit Packet_unref (set_ret r st)) =? 0));
        [eexists _, _; reflexivity | ].
      apply IH. exact Hall.
Qed.

End Answers.
End Safety.

(** X12.  [display_frame] never reads outside a plane during a run,
    if the frames are well formed.  For every finite sequence of answers
    of FFmpeg after a successful set-up, if every frame the buffer sink
    hands over with a non-negative code holds its [width] x [height] samples
    inside its plane, the run is defined up to the final report, and its
    exit code is 1.  That the answers are finitely many, so that
    [av_read_frame] ends by answering a negative code, is an assumption on
    FFmpeg that the script carries: the loops themselves never set
    [frame_displayed] and leave only on such an answer. *)
Theorem main_defined (E : averror) (g : globals) (s : script) (r : Z) :
  0 <= open_ret s ->
  init_filters g s = Some r -> 0 <= r ->
  Forall displayable (pulls s) ->
  exists st : state, main E g 2 true s = Some (1, st).
Proof.
  intros Hopen Hinit Hr Hall.
  assert (H : exists (code : Z) (st : state),
             main E g 2 true s = Some (code, st)).
  { unfold main. cbn [Z.eqb Pos.eqb negb].
    replace (open_ret s <? 0) with false
      by (symmetry; apply Z.ltb_ge; exact Hopen).
    rewrite Hinit. cbn [bind].
    replace (r <? 0) with false by (symmetry; apply Z.ltb_ge; exact Hr).
    destruct (Safety.read_loop_defined E g (reads s) (receives s)
                (set_ret r (mk_state 0 0 (sends s) (pushes s) (pulls s) [] [])))
      as (fl & st1 & Hloop); [exact Hall | ].
    rewrite Hloop. cbn [bind snd].
    destruct (finish E st1) as [code st]. now exists code, st. }
  destruct H as (code & st & H). exists st.
  now rewrite <- (Driver.main_exit_code E g _ _ _ _ _ H).
Qed.

Lemma main_defined_witness :
  exists st : state,
    main averror_linux video_globals 2 true (drained_script averror_linux)
    = Some (1, st).
Proof.
  apply (main_defined averror_linux video_globals
           (drained_script averror_linux) 0).
  - cbn. lia.
  - vm_compute. reflexivity.
  - lia.
  - unfold drained_script. cbn [pulls].
    apply Forall_cons; [ | apply Forall_cons; [ | apply Forall_nil]];
      intros _ y x Hy Hx; cbn in *; lia.
Defined.

(* ================================================================== *)
(** ** More about the scale calculation *)

Module Sizes.
Import FloatFacts.

Lemma pow2_31 : 2 ^ 31 = 2147483648.
Proof. reflexivity. Qed.

(** The width after the aspect correction, for a positive [int] width and
    a sample aspect ratio of [int] components: a positive normal number. *)
Lemma video_width_normal (g : globals) (w : Z) :
  1 <= w < 2 ^ 31 ->
  AVRational.num (AVCodecContext.sample_aspect_ratio (dec_ctx g)) < 2 ^ 31 ->
  AVRational.den (AVCodecContext.sample_aspect_ratio (dec_ctx g)) < 2 ^ 31 ->
  let sar := AVCodecContext.sample_aspect_ratio (dec_ctx g) in
  exists (m : positive) (e : Z),
    Prim2SF (if (0 <? AVRational.num sar) && (0 <? AVRational.den sar)
             then (CDouble.of_int w * av_q2d sar)%float
             else CDouble.of_int w)
    = S754_finite false m e.
Proof.
  intros Hw Hn Hd sar. fold sar in Hn, Hd.
  pose proof (of_int_normal w 31 Hw ltac:(lia)) as Nw.
  destruct ((0 <? AVRational.num sar) && (0 <? AVRational.den sar)) eqn:Hv.
  - apply andb_true_iff in Hv. destruct Hv as [Hn0 Hd0].
    apply Z.ltb_lt in Hn0. apply Z.ltb_lt in Hd0.
    pose proof (Geometry.av_q2d_normal sar 31 ltac:(lia) ltac:(lia) ltac:(lia))
      as Ns.
    pose proof (mul_normal _ _ _ _ _ _ Nw Ns) as Nv.
    specialize (Nv ltac:(lia) ltac:(lia) ltac:(lia) ltac:(lia)).
    destruct Nv as (m & e & Hm & _). now exists m, e.
  - destruct Nw as (m & e & Hm & _). now exists m, e.
Qed.

(** A width of 0 stays 0 through the aspect correction. *)
Lemma video_width_zero (g : globals) :
  AVRational.num (AVCodecContext.sample_aspect_ratio (dec_ctx g)) < 2 ^ 31 ->
  AVRational.den (AVCodecContext.sample_aspect_ratio (dec_ctx g)) < 2 ^ 31 ->
  let sar := AVCodecContext.sample_aspect_ratio (dec_ctx g) in
  (if (0 <? AVRational.num sar) && (0 <? AVRational.den sar)
   then (CDouble.of_int 0 * av_q2d sar)%float
   else CDouble.of_int 0)
  = 0%float.
Proof.
  intros Hn Hd sar. fold sar in Hn, Hd.
  destruct ((0 <? AVRational.num sar) && (0 <? AVRational.den sar)) eqn:Hv;
    [ | reflexivity].
  apply andb_true_iff in Hv. destruct Hv as [Hn0 Hd0].
  apply Z.ltb_lt in Hn0. apply Z.ltb_lt in Hd0.
  destruct (Geometry.av_q2d_normal sar 31 ltac:(lia) ltac:(lia) ltac:(lia))
    as (m & e & Hs & _).
  apply Prim2SF_inj.
  rewrite FloatAxioms.mul_spec, Hs. reflexivity.
Qed.

(** Division by a height of 0: plus infinity, and the row count before
    the "make it even" step is floored to 1. *)
Lemma floored_height_zero_height (video_width : float) (m : positive) (e : Z) :
  Prim2SF video_width = S754_finite false m e ->
  floored_height video_width (CDouble.of_int 0) = 1%float.
Proof.
  intros Hw. unfold floored_height.
  replace (video_width / CDouble.of_int 0)%float with infinity.
  - vm_compute. reflexivity.
  - apply Prim2SF_inj. rewrite FloatAxioms.div_spec, Hw. reflexivity.
Qed.

(** A width of 0: the quotient is 0 or NaN, the row count is infinite or
    NaN, and its conversion to [int] is undefined. *)
Lemma make_even_zero_width (h : Z) :
  0 <= h < 2 ^ 31 ->
  make_even (floored_height 0 (CDouble.of_int h)) = None.
Proof.
  intros Hh. destruct (Z.eq_dec h 0) as [-> | Hne]; [vm_compute; reflexivity | ].
  destruct (of_int_normal h 31 ltac:(lia) ltac:(lia)) as (m & e & Hv & _).
  unfold floored_height.
  replace (0 / CDouble.of_int h)%float with 0%float.
  - vm_compute. reflexivity.
  - apply Prim2SF_inj. rewrite FloatAxioms.div_spec, Hv. reflexivity.
Qed.

End Sizes.

(** X13.  A height of 0 with a positive width does not stop
    [init_filters]: the division by zero gives plus infinity, the row count
    is 0 before the floor, and the grid is 80 columns by 2 rows, for every
    sample aspect ratio. *)
Theorem zero_height_two_rows (g : globals) (input_width : Z) :
  1 <= input_width < 2 ^ 31 ->
  AVRational.num (AVCodecContext.sample_aspect_ratio (dec_ctx g)) < 2 ^ 31 ->
  AVRational.den (AVCodecContext.sample_aspect_ratio (dec_ctx g)) < 2 ^ 31 ->
  scale_dimensions g input_width 0 = Some (80, 2).
Proof.
  intros Hw Hn Hd.
  destruct (Sizes.video_width_normal g input_width Hw Hn Hd) as (m & e & Hv).
  rewrite Geometry.scale_dimensions_unfold. cbv zeta.
  rewrite (Sizes.floored_height_zero_height _ m e Hv).
  vm_compute. reflexivity.
Qed.

Lemma zero_height_two_rows_witness :
  scale_dimensions (example_globals 640 0 4 3) 640 0 = Some (80, 2).
Proof.
  apply (zero_height_two_rows (example_globals 640 0 4 3) 640);
    cbn; rewrite ?Sizes.pow2_31; lia.
Defined.

(** X14.  A width of 0 makes the scale calculation undefined, whatever
    the height (0 included) and the sample aspect ratio: the aspect ratio is
    0 or NaN, the row count is infinite or NaN, and its conversion to [int]
    in the "make it even" step has no defined result. *)
Theorem zero_width_undefined (g : globals) (input_height : Z) :
  0 <= input_height < 2 ^ 31 ->
  AVRational.num (AVCodecContext.sample_aspect_ratio (dec_ctx g)) < 2 ^ 31 ->
  AVRational.den (AVCodecContext.sample_aspect_ratio (dec_ctx g)) < 2 ^ 31 ->
  scale_dimensions g 0 input_height = None.
Proof.
  intros Hh Hn Hd.
  rewrite Geometry.scale_dimensions_unfold. cbv zeta.
  rewrite (Sizes.video_width_zero g Hn Hd).
  rewrite Geometry.make_even_columns, (Sizes.make_even_zero_width _ Hh).
  reflexivity.
Qed.

Lemma zero_width_undefined_witness :
  scale_dimensions (example_globals 0 0 0 1) 0 0 = None.
Proof.
  apply (zero_width_undefined (example_globals 0 0 0 1) 0);
    cbn; rewrite ?Sizes.pow2_31; lia.
Defined.

(* ------------------------------------------------------------------ *)
(** *** Scaling by a power of two *)

Module Scaling.
Import FloatFacts.

(** Only one power of two brings a positive integer to 53 bits. *)
Lemma binade_unique (z a b : Z) :
  0 < z -> 0 <= a -> 0 <= b ->
  2 ^ 52 <= z * 2 ^ a < 2 ^ 53 ->
  2 ^ 52 <= z * 2 ^ b < 2 ^ 53 ->
  a = b.
Proof.
  intros Hz Ha Hb HA HB.
  assert (Hlt : forall u v : Z,
             0 <= u -> u < v ->
             2 ^ 52 <= z * 2 ^ u -> z * 2 ^ v < 2 ^ 53 -> False).
  { intros u v Hu Huv Hlo Hhi.
    assert (Hsplit : 2 ^ v = 2 ^ u * 2 ^ (v - u)).
    { rewrite <- Z.pow_add_r by lia. f_equal. lia. }
    assert (H2 : 2 ^ 1 <= 2 ^ (v - u)) by (apply Z.pow_le_mono_r; lia).
    change (2 ^ 1) with 2 in H2.
    assert (Hpos : 0 < 2 ^ u) by (apply Z.pow_pos_nonneg; lia).
    rewrite Hsplit in Hhi. rewrite pow2_52 in Hlo. rewrite pow2_53 in Hhi.
    nia. }
  destruct (Z.lt_trichotomy a b) as [H | [H | H]]; [ | exact H | ].
  - exfalso. apply (Hlt a b); lia.
  - exfalso. apply (Hlt b a); lia.
Qed.

(** [(double)(z * 2^k)] has the mantissa of [(double) z] and an exponent
    that is [k] higher. *)
Lemma of_int_scaled (z k : Z) :
  1 <= z -> 0 <= k -> z * 2 ^ k < 2 ^ 31 ->
  exists (m : positive) (e : Z),
    Prim2SF (CDouble.of_int z) = S754_finite false m e
    /\ Prim2SF (CDouble.of_int (z * 2 ^ k)) = S754_finite false m (e + k)
    /\ Zpos (digits2_pos m) = 53
    /\ 1 <= 53 + e /\ 53 + e + k <= 31.
Proof.
  intros Hz Hk Hzk.
  assert (Hpow : 1 <= 2 ^ k) by (apply (Z.pow_le_mono_r 2 0); lia).
  assert (Hz31 : z < 2 ^ 31) by nia.
  assert (Hzk1 : 1 <= z * 2 ^ k) by nia.
  destruct (of_int_normal z 31 (conj Hz Hz31) ltac:(lia)) as (m & e & H1 & Hd & Hmag).
  destruct (of_int_normal (z * 2 ^ k) 31 (conj Hzk1 Hzk) ltac:(lia))
    as (m' & e' & H2 & Hd' & Hmag').
  assert (Hr : forall v : Z, 1 <= v < 2 ^ 31 -> CInt.in_range v = true).
  { intros v Hv. rewrite Sizes.pow2_31 in Hv.
    unfold CInt.in_range, CInt.INT_MIN, CInt.INT_MAX.
    apply andb_true_iff. split; apply Z.leb_le; lia. }
  destruct (Prim2SF_of_int z (Hr z (conj Hz Hz31)) ltac:(clear - Hz; lia))
    as (m0 & k0 & H0 & Hm0).
  assert (Hne : z * 2 ^ k <> 0) by (clear - Hzk1; lia).
  destruct (Prim2SF_of_int (z * 2 ^ k) (Hr _ (conj Hzk1 Hzk)) Hne)
    as (m1 & k1 & H3 & Hm1).
  rewrite H1 in H0. injection H0 as _ -> ->.
  rewrite H2 in H3. injection H3 as _ -> ->.
  rewrite Z.abs_eq in Hm0, Hm1 by lia.
  pose proof (mantissa_bounds _ Hd) as B0.
  pose proof (mantissa_bounds _ Hd') as B1.
  assert (Hm1' : Zpos m1 = z * 2 ^ (k + Zpos k1)).
  { rewrite Hm1, Z.pow_add_r by lia. ring. }
  assert (Hk0 : Zpos k0 = k + Zpos k1).
  { apply (binade_unique z); lia. }
  assert (Hmm : m1 = m0).
  { apply Pos2Z.inj. now rewrite Hm1', Hm0, Hk0. }
  subst m1. exists m0, (Zneg k0). repeat split; try assumption; try lia.
  rewrite H2. f_equal. lia.
Qed.

(** Rounding a mantissa of at least 53 bits gives the same mantissa at
    every exponent away from the limits of the range; the exponent of the
    result follows that of the argument. *)
Lemma binary_round_aux_uniform (s : bool) (mx : positive) (lx : location) :
  53 <= Zpos (digits2_pos mx) ->
  exists (m : positive) (c : Z),
    forall ex : Z,
      -1000 <= Zpos (digits2_pos mx) + ex <= 1000 ->
      binary_round_aux prec emax s (Zpos mx) ex lx
      = S754_finite s m (ex + c).
Proof.
  intros Hd.
  destruct (digits2_pos_bounds mx) as [Dlo Dhi].
  set (d := Zpos (digits2_pos mx)) in *.
  assert (Hshr : exists mrs : shr_record,
             2 ^ 52 <= shr_m mrs < 2 ^ 53
             /\ forall ex : Z,
                 -1000 <= d + ex <= 1000 ->
                 shr_fexp prec emax (Zpos mx) ex lx = (mrs, d + ex - 53)).
  { destruct (d - 53) as [ | n | n] eqn:En; [ | | lia].
    - exists (shr_record_of_loc (Zpos mx) lx). split.
      + rewrite shr_m_of_loc. replace d with 53 in * by lia.
        change (53 - 1) with 52 in Dlo. lia.
      + intros ex Hex. unfold shr_fexp. cbn [Zdigits2]. fold d.
        replace (fexp prec emax (d + ex)) with (d + ex - 53)
          by (unfold fexp, SpecFloat.emin, prec, emax; lia).
        replace (d + ex - 53 - ex) with (d - 53) by lia.
        rewrite En. unfold shr. f_equal. lia.
    - exists (SpecFloat.iter_pos shr_1 n (shr_record_of_loc (Zpos mx) lx)). split.
      + rewrite shr_m_iter, shr_m_of_loc by (rewrite shr_m_of_loc; lia).
        assert (Hpow : 2 ^ d = 2 ^ 53 * 2 ^ Zpos n).
        { rewrite <- Z.pow_add_r by lia. f_equal. lia. }
        assert (Hpow' : 2 ^ (d - 1) = 2 ^ 52 * 2 ^ Zpos n).
        { rewrite <- Z.pow_add_r by lia. f_equal. lia. }
        assert (0 < 2 ^ Zpos n) by (apply Z.pow_pos_nonneg; lia).
        split.
        * apply Z.div_le_lower_bound; lia.
        * apply Z.div_lt_upper_bound; lia.
      + intros ex Hex. unfold shr_fexp. cbn [Zdigits2]. fold d.
        replace (fexp prec emax (d + ex)) with (d + ex - 53)
          by (unfold fexp, SpecFloat.emin, prec, emax; lia).
        replace (d + ex - 53 - ex) with (d - 53) by lia.
        rewrite En. unfold shr. f_equal. lia. }
  destruct Hshr as (mrs & Hb & Hshr).
  pose proof (round_nearest_even_bounds (shr_m mrs) (loc_of_shr_record mrs)) as Hr.
  destruct (round_nearest_even (shr_m mrs) (loc_of_shr_record mrs))
    as [ | p1 | p1] eqn:Hrne; [lia | | lia].
  destruct (Z.eq_dec (Zpos p1) (2 ^ 53)) as [Heq | Hne].
  - rewrite pow2_53 in Heq. injection Heq as ->.
    exists 4503599627370496%positive, (d - 53 + 1). intros ex Hex.
    unfold binary_round_aux. rewrite (Hshr ex Hex), Hrne.
    unfold shr_fexp. cbn [Zdigits2 digits2_pos Pos.succ].
    replace (fexp prec emax (54 + (d + ex - 53)) - (d + ex - 53)) with 1
      by (unfold fexp, SpecFloat.emin, prec, emax; lia).
    cbn [shr shr_record_of_loc SpecFloat.iter_pos shr_1 shr_m].
    replace (d + ex - 53 + 1 <=? emax - prec) with true
      by (symmetry; apply Z.leb_le; unfold emax, prec; lia).
    f_equal. lia.
  - assert (Hd1 : Zpos (digits2_pos p1) = 53).
    { apply digits2_pos_unique. change (53 - 1) with 52. lia. }
    exists p1, (d - 53). intros ex Hex.
    unfold binary_round_aux. rewrite (Hshr ex Hex), Hrne.
    unfold shr_fexp. cbn [Zdigits2]. rewrite Hd1.
    replace (fexp prec emax (53 + (d + ex - 53)) - (d + ex - 53)) with 0
      by (unfold fexp, SpecFloat.emin, prec, emax; lia).
    cbn [shr shr_record_of_loc shr_m].
    replace (d + ex - 53 <=? emax - prec) with true
      by (symmetry; apply Z.leb_le; unfold emax, prec; lia).
    f_equal. lia.
Qed.

(** A quotient depends on the difference of the exponents only. *)
Lemma div_scaled (x y x' y' : float) (sx sy : bool) (mx my : positive)
  (ex ey k : Z) :
  Prim2SF x = S754_finite sx mx ex ->
  Prim2SF x' = S754_finite sx mx (ex + k) ->
  Prim2SF y = S754_finite sy my ey ->
  Prim2SF y' = S754_finite sy my (ey + k) ->
  (x' / y')%float = (x / y)%float.
Proof.
  intros Hx Hx' Hy Hy'. apply Prim2SF_inj.
  rewrite !FloatAxioms.div_spec, Hx, Hx', Hy, Hy'.
  unfold SF64div, SFdiv, SFdiv_core_binary.
  replace (ex + k - (ey + k)) with (ex - ey) by lia.
  replace (Zdigits2 (Zpos mx) + (ex + k) - (Zdigits2 (Zpos my) + (ey + k)))
    with (Zdigits2 (Zpos mx) + ex - (Zdigits2 (Zpos my) + ey)) by lia.
  reflexivity.
Qed.

(** A product follows the exponent of its first factor. *)
Lemma mul_scaled (x x' y : float) (mx : positive) (ex k ly hy : Z) :
  Prim2SF x = S754_finite false mx ex ->
  Prim2SF x' = S754_finite false mx (ex + k) ->
  Zpos (digits2_pos mx) = 53 ->
  -400 <= 53 + ex <= 400 -> -400 <= 53 + ex + k <= 400 ->
  normal_pos (Prim2SF y) ly hy -> -400 <= ly -> hy <= 400 ->
  exists (m : positive) (e : Z),
    Prim2SF (x * y)%float = S754_finite false m e
    /\ Prim2SF (x' * y)%float = S754_finite false m (e + k).
Proof.
  intros Hx Hx' Hdx Hmx Hmx' (my & ey & Hy & Hdy & Hmy) Hly Hhy.
  rewrite !FloatAxioms.mul_spec, Hx, Hx', Hy. unfold SF64mul, SFmul.
  cbn [xorb].
  pose proof (mantissa_bounds _ Hdx) as Bx.
  pose proof (mantissa_bounds _ Hdy) as By.
  rewrite pow2_52, pow2_53 in Bx, By.
  destruct (digits2_pos_bounds (mx * my)) as [Dlo Dhi].
  rewrite Pos2Z.inj_mul in Dlo, Dhi.
  assert (H104 : 2 ^ 104 <= Zpos mx * Zpos my).
  { change (2 ^ 104) with (4503599627370496 * 4503599627370496). nia. }
  assert (H106 : Zpos mx * Zpos my < 2 ^ 106).
  { change (2 ^ 106) with (9007199254740992 * 9007199254740992). nia. }
  assert (Hd : 105 <= Zpos (digits2_pos (mx * my)) <= 106).
  { split.
    - assert (104 < Zpos (digits2_pos (mx * my)));
        [apply (Z.pow_lt_mono_r_iff 2); lia | lia].
    - assert (Zpos (digits2_pos (mx * my)) - 1 < 106);
        [apply (Z.pow_lt_mono_r_iff 2); lia | lia]. }
  destruct (binary_round_aux_uniform false (mx * my) loc_Exact ltac:(lia))
    as (m & c & Hround).
  exists m, (ex + ey + c). split.
  - apply Hround. lia.
  - rewrite (Hround (ex + k + ey)) by lia. f_equal. lia.
Qed.

End Scaling.

(** X15.  The grid depends on the shape of the picture, not on its
    size: a source whose width and height are both multiplied by the same
    power of two gets the same grid (or is undefined alike), for every
    sample aspect ratio.  The doubles involved differ only in their
    exponents, so every rounding step agrees. *)
Theorem scale_dimensions_scaled (g : globals) (input_width input_height k : Z) :
  1 <= input_width -> 1 <= input_height -> 0 <= k ->
  input_width * 2 ^ k < 2 ^ 31 -> input_height * 2 ^ k < 2 ^ 31 ->
  AVRational.num (AVCodecContext.sample_aspect_ratio (dec_ctx g)) < 2 ^ 31 ->
  AVRational.den (AVCodecContext.sample_aspect_ratio (dec_ctx g)) < 2 ^ 31 ->
  scale_dimensions g (input_width * 2 ^ k) (input_height * 2 ^ k)
  = scale_dimensions g input_width input_height.
Proof.
  intros Hw Hh Hk Hwk Hhk Hn Hd.
  destruct (Scaling.of_int_scaled input_width k Hw Hk Hwk)
    as (mw & ew & Hw1 & Hw2 & Hdw & Hlw & Hhw).
  destruct (Scaling.of_int_scaled input_height k Hh Hk Hhk)
    as (mh & eh & Hh1 & Hh2 & Hdh & Hlh & Hhh).
  rewrite !Geometry.scale_dimensions_unfold. cbv zeta.
  set (sar := AVCodecContext.sample_aspect_ratio (dec_ctx g)) in *.
  assert (Hq : forall vw vw' : float,
             (vw' / CDouble.of_int (input_height * 2 ^ k))%float
             = (vw / CDouble.of_int input_height)%float ->
             floored_height vw' (CDouble.of_int (input_height * 2 ^ k))
             = floored_height vw (CDouble.of_int input_height)).
  { intros vw vw' H. unfold floored_height. now rewrite H. }
  destruct ((0 <? AVRational.num sar) && (0 <? AVRational.den sar)) eqn:Hv.
  - apply andb_true_iff in Hv. destruct Hv as [Hn0 Hd0].
    apply Z.ltb_lt in Hn0. apply Z.ltb_lt in Hd0.
    pose proof (Geometry.av_q2d_normal sar 31 ltac:(lia) ltac:(lia) ltac:(lia))
      as Ns.
    destruct (Scaling.mul_scaled _ _ (av_q2d sar) mw ew k _ _ Hw1 Hw2 Hdw
                ltac:(lia) ltac:(lia) Ns ltac:(lia) ltac:(lia))
      as (m & e & Hm1 & Hm2).
    now rewrite (Hq _ _ (Scaling.div_scaled _ _ _ _ _ _ _ _ _ _ _ Hm1 Hm2 Hh1 Hh2)).
  - now rewrite (Hq _ _ (Scaling.div_scaled _ _ _ _ _ _ _ _ _ _ _ Hw1 Hw2 Hh1 Hh2)).
Qed.

Lemma scale_dimensions_scaled_witness :
  scale_dimensions (example_globals 1920 1080 4 3) (480 * 2 ^ 2) (270 * 2 ^ 2)
  = scale_dimensions (example_globals 1920 1080 4 3) 480 270.
Proof.
  apply (scale_dimensions_scaled (example_globals 1920 1080 4 3) 480 270 2);
    cbn; rewrite ?Sizes.pow2_31; lia.
Defined.

(* ------------------------------------------------------------------ *)
(** *** Square sources *)

Module Square.
Import FloatFacts.

(** A normal number divided by itself is exactly 1. *)
Lemma div_self (x : float) (s : bool) (m : positive) (e : Z) :
  Prim2SF x = S754_finite s m e ->
  Zpos (digits2_pos m) = 53 ->
  (x / x)%float = 1%float.
Proof.
  intros Hx Hd. apply Prim2SF_inj.
  rewrite FloatAxioms.div_spec, Hx. unfold SF64div, SFdiv, SFdiv_core_binary.
  cbn [Zdigits2]. rewrite Hd.
  replace (53 + e - (53 + e)) with 0 by lia.
  replace (e - e) with 0 by lia.
  change (Z.min (fexp prec emax 0) 0) with (-53).
  change (0 - -53) with 53.
  rewrite Z.shiftl_mul_pow2 by lia.
  pose proof (Z.div_mul (2 ^ 53) (Zpos m) ltac:(lia)) as Hq.
  pose proof (Z.mod_mul (2 ^ 53) (Zpos m) ltac:(lia)) as Hr.
  rewrite (Z.mul_comm (2 ^ 53)) in Hq, Hr.
  unfold Z.div, Z.modulo in Hq, Hr.
  destruct (Z.div_eucl (Zpos m * 2 ^ 53) (Zpos m)) as [q r].
  subst q r.
  unfold new_location, new_location_even, new_location_odd.
  destruct (Z.even (Zpos m)); destruct s; vm_compute; reflexivity.
Qed.

End Square.

(** X16.  A square picture with square pixels (a sample aspect ratio that
    is invalid, or whose two components are equal) always gets the grid of
    80 columns by 40 rows, whatever its size: the aspect ratio is exactly 1
    in doubles, and the cells are taken to be twice as high as wide. *)
Theorem square_source_grid (g : globals) (size : Z) :
  1 <= size < 2 ^ 31 ->
  AVRational.num (AVCodecContext.sample_aspect_ratio (dec_ctx g)) < 2 ^ 31 ->
  AVRational.num (AVCodecContext.sample_aspect_ratio (dec_ctx g)) <= 0
  \/ AVRational.den (AVCodecContext.sample_aspect_ratio (dec_ctx g)) <= 0
  \/ AVRational.num (AVCodecContext.sample_aspect_ratio (dec_ctx g))
     = AVRational.den (AVCodecContext.sample_aspect_ratio (dec_ctx g)) ->
  scale_dimensions g size size = Some (80, 40).
Proof.
  intros Hs Hn31 Hsar.
  destruct (FloatFacts.of_int_normal size 31 Hs ltac:(lia))
    as (m & e & Hm & Hd & _).
  rewrite Geometry.scale_dimensions_unfold. cbv zeta.
  set (sar := AVCodecContext.sample_aspect_ratio (dec_ctx g)) in *.
  assert (Hw : (if (0 <? AVRational.num sar) && (0 <? AVRational.den sar)
                then (CDouble.of_int size * av_q2d sar)%float
                else CDouble.of_int size) = CDouble.of_int size).
  { destruct (Z.ltb_spec 0 (AVRational.num sar)) as [Hn | Hn];
      destruct (Z.ltb_spec 0 (AVRational.den sar)) as [Hd0 | Hd0]; cbn [andb];
      try reflexivity.
    assert (Heq : AVRational.num sar = AVRational.den sar) by lia.
    destruct (FloatFacts.of_int_normal (AVRational.num sar) 31
                ltac:(lia) ltac:(lia)) as (ms & es & Hms & Hds & _).
    unfold av_q2d. rewrite <- Heq, (Square.div_self _ _ _ _ Hms Hds).
    apply FloatFacts.mul_one. }
  rewrite Hw. unfold floored_height.
  rewrite (Square.div_self _ _ _ _ Hm Hd).
  vm_compute. reflexivity.
Qed.

Lemma square_source_grid_witness :
  scale_dimensions (example_globals 480 480 5 5) 480 480 = Some (80, 40).
Proof.
  apply (square_source_grid (example_globals 480 480 5 5) 480);
    cbn; rewrite ?Sizes.pow2_31; lia.
Defined.

(* ------------------------------------------------------------------ *)
(** *** The "make it even" step *)

Module Even.
Import FloatFacts.

(** Halving a normal number lowers its exponent by one. *)
Lemma half_exact (x : float) (m : positive) (e : Z) :
  Prim2SF x = S754_finite false m e ->
  Zpos (digits2_pos m) = 53 ->
  -1000 <= e <= 0 ->
  Prim2SF (x / 2)%float = S754_finite false m (e - 1).
Proof.
  intros Hx Hd He.
  rewrite FloatAxioms.div_spec, Hx, Prim2SF_two.
  unfold SF64div, SFdiv, SFdiv_core_binary. cbn [Zdigits2 xorb].
  rewrite Hd. change (Zpos (digits2_pos 4503599627370496)) with 53.
  replace (Z.min (fexp prec emax (53 + e - (53 + -51))) (e - -51))
    with (e - 2) by (unfold fexp, SpecFloat.emin, prec, emax; lia).
  replace (e - -51 - (e - 2)) with 53 by lia.
  rewrite Z.shiftl_mul_pow2 by lia.
  assert (Hq : Zpos m * 2 ^ 53 = Zpos (m~0) * 4503599627370496).
  { change (2 ^ 53) with 9007199254740992. lia. }
  rewrite Hq.
  pose proof (Z.div_mul (Zpos m~0) 4503599627370496 ltac:(lia)) as Hdiv.
  pose proof (Z.mod_mul (Zpos m~0) 4503599627370496 ltac:(lia)) as Hmod.
  unfold Z.div, Z.modulo in Hdiv, Hmod.
  destruct (Z.div_eucl (Zpos m~0 * 4503599627370496) 4503599627370496) as [q r].
  subst q r.
  change (new_location 4503599627370496 0) with loc_Exact.
  replace (e - 2) with (e - 1 - 1) by lia.
  apply (binary_round_aux_shifted false m 1 (e - 1)).
  unfold bounded, canonical_mantissa. rewrite Hd.
  apply andb_true_iff. split.
  - apply Z.eqb_eq. unfold fexp, SpecFloat.emin, prec, emax. lia.
  - apply Z.leb_le. unfold emax, prec. lia.
Qed.

(** [round(q / 2.0)] for a positive [int] [q]: half of [q], rounded up. *)
Lemma round_half (q : Z) :
  1 <= q < 2 ^ 31 ->
  CDouble.round (CDouble.of_int q / 2)%float = CDouble.of_int ((q + 1) / 2).
Proof.
  intros Hq.
  assert (Hr : CInt.in_range q = true).
  { rewrite Sizes.pow2_31 in Hq.
    unfold CInt.in_range, CInt.INT_MIN, CInt.INT_MAX.
    apply andb_true_iff. split; apply Z.leb_le; lia. }
  destruct (Prim2SF_of_int q Hr ltac:(lia)) as (m & k & Hsf & Hm).
  replace (q <? 0) with false in Hsf by (symmetry; apply Z.ltb_ge; lia).
  rewrite Z.abs_eq in Hm by lia.
  destruct (of_int_normal q 31 Hq ltac:(lia)) as (m' & e' & Hsf' & Hd & Hmag).
  rewrite Hsf in Hsf'. injection Hsf' as <- <-.
  pose proof (half_exact _ _ _ Hsf Hd ltac:(lia)) as Hhalf.
  unfold CDouble.round. rewrite Hhalf.
  replace (0 <=? Zneg k - 1) with false by (symmetry; apply Z.leb_gt; lia).
  replace (- (Zneg k - 1) - 1) with (Zpos k) by lia.
  replace (- (Zneg k - 1)) with (Zpos k + 1) by lia.
  rewrite Hm, Z.pow_add_r by lia. change (2 ^ 1) with 2.
  replace (q * 2 ^ Zpos k + 2 ^ Zpos k) with ((q + 1) * 2 ^ Zpos k) by ring.
  rewrite (Z.mul_comm (2 ^ Zpos k) 2).
  rewrite Z.div_mul_cancel_r by (try apply Z.pow_nonzero; lia).
  unfold CDouble.of_int.
  now replace ((q + 1) / 2 <? 0) with false
    by (symmetry; apply Z.ltb_ge; apply Z.div_pos; lia).
Qed.

(** The step [(double)((int)round(x / 2.0) * 2)] on a positive integer:
    the integer itself if it is even, the next one if it is odd. *)
Lemma make_even_int (q : Z) :
  1 <= q < 2 ^ 30 ->
  make_even (CDouble.of_int q) = Some (CDouble.of_int (2 * ((q + 1) / 2))).
Proof.
  intros Hq.
  assert (H30 : 2 ^ 30 = 1073741824) by reflexivity.
  assert (Hh : 1 <= (q + 1) / 2 <= q).
  { split.
    - apply Z.div_le_lower_bound; lia.
    - apply Z.div_le_upper_bound; lia. }
  unfold make_even.
  rewrite round_half by (rewrite Sizes.pow2_31; lia).
  rewrite to_int_of_int.
  - cbn [bind]. unfold CInt.mul.
    replace (CInt.in_range ((q + 1) / 2 * 2)) with true.
    + cbn [bind]. now rewrite (Z.mul_comm 2).
    + symmetry. unfold CInt.in_range, CInt.INT_MIN, CInt.INT_MAX.
      apply andb_true_iff. split; apply Z.leb_le; lia.
  - unfold CInt.in_range, CInt.INT_MIN, CInt.INT_MAX.
    apply andb_true_iff. split; apply Z.leb_le; lia.
Qed.

(** For a source of ordinary size the row count before the "make it
    even" step is a positive integer. *)
Lemma floored_height_int (g : globals) (w h a b : Z) :
  0 <= b -> a + b <= 20 ->
  1 <= w < 2 ^ a -> 1 <= h < 2 ^ a ->
  AVRational.num (AVCodecContext.sample_aspect_ratio (dec_ctx g)) < 2 ^ b ->
  AVRational.den (AVCodecContext.sample_aspect_ratio (dec_ctx g)) < 2 ^ b ->
  exists q : Z,
    1 <= q <= 2 ^ 28
    /\ floored_height (video_width g w) (CDouble.of_int h) = CDouble.of_int q.
Proof.
  intros Hb Hab Hw Hh Hnum Hden.
  assert (Ha : 0 <= a).
  { destruct (Z.le_gt_cases 0 a); [assumption | ].
    rewrite Z.pow_neg_r in Hw by assumption. lia. }
  pose proof (of_int_normal w a Hw ltac:(lia)) as Nw.
  pose proof (of_int_normal h a Hh ltac:(lia)) as Nh.
  unfold video_width. cbv zeta.
  set (sar := AVCodecContext.sample_aspect_ratio (dec_ctx g)) in *.
  assert (Hsquare : exists q : Z,
             1 <= q <= 2 ^ 28
             /\ floored_height (CDouble.of_int w) (CDouble.of_int h)
                = CDouble.of_int q).
  { destruct (Geometry.floored_height_small _ _ _ _ _ _ Nw Nh)
      as (q & Hq & Hf); try lia.
    exists q. split; [ | exact Hf].
    assert (2 ^ (9 - 1 + a) <= 2 ^ 28) by (apply Z.pow_le_mono_r; lia).
    lia. }
  destruct (Z.ltb_spec 0 (AVRational.num sar)) as [Hn | Hn];
    destruct (Z.ltb_spec 0 (AVRational.den sar)) as [Hd | Hd]; cbn [andb];
    try exact Hsquare.
  pose proof (Geometry.av_q2d_normal sar b ltac:(lia) ltac:(lia) ltac:(lia))
    as Ns.
  pose proof (mul_normal _ _ _ _ _ _ Nw Ns) as Nv.
  specialize (Nv ltac:(lia) ltac:(lia) ltac:(lia) ltac:(lia)).
  destruct (Geometry.floored_height_small _ _ _ _ _ _ Nv Nh)
    as (q & Hq & Hf); try lia.
  exists q. split; [ | exact Hf].
  assert (2 ^ (9 - (1 + (1 - b) - 1) + a) <= 2 ^ 28)
    by (apply Z.pow_le_mono_r; lia).
  lia.
Qed.

End Even.

(** X17.  How the rows are made even.  For a source of ordinary size
    (width and height below 2^a, components of a valid sample aspect ratio
    below 2^b, a + b at most 20) the row count after [round] and the floor at
    1 is a positive integer [q], and [init_filters] asks for [q] rows if [q]
    is even and for [q + 1] rows if it is odd: an odd count always goes up,
    never down. *)
Theorem rows_rounded_up_to_even (g : globals) (input_width input_height a b : Z) :
  0 <= b -> a + b <= 20 ->
  1 <= input_width < 2 ^ a -> 1 <= input_height < 2 ^ a ->
  AVRational.num (AVCodecContext.sample_aspect_ratio (dec_ctx g)) < 2 ^ b ->
  AVRational.den (AVCodecContext.sample_aspect_ratio (dec_ctx g)) < 2 ^ b ->
  exists q : Z,
    1 <= q
    /\ floored_height (video_width g input_width) (CDouble.of_int input_height)
       = CDouble.of_int q
    /\ scale_dimensions g input_width input_height
       = Some (80, if Z.even q then q else q + 1).
Proof.
  intros Hb Hab Hw Hh Hnum Hden.
  destruct (Even.floored_height_int g _ _ a b Hb Hab Hw Hh Hnum Hden)
    as (q & Hq & Hfloor).
  clear Hb Hab Hw Hh Hnum Hden.
  change (2 ^ 28) with 268435456 in Hq.
  exists q. split; [lia | ]. split; [exact Hfloor | ].
  rewrite Geometry.scale_dimensions_unfold. cbv zeta.
  fold (video_width g input_width). rewrite Hfloor.
  rewrite (Even.make_even_int q) by (change (2 ^ 30) with 1073741824; lia).
  rewrite Geometry.make_even_columns. cbn [bind].
  assert (Hh : 1 <= (q + 1) / 2 <= q).
  { split.
    - apply Z.div_le_lower_bound; lia.
    - apply Z.div_le_upper_bound; lia. }
  rewrite Geometry.to_int_columns, (Z.mul_comm 2).
  rewrite Geometry.clamp_to_int.
  - cbn [bind]. do 2 f_equal.
    rewrite Z.max_r by lia.
    destruct (Z.even q) eqn:Heven.
    + apply Z.even_spec in Heven. destruct Heven as [k ->].
      replace ((2 * k + 1) / 2) with k
        by (apply (Z.div_unique _ 2 k 1); lia).
      lia.
    + rewrite <- Z.negb_odd in Heven. apply negb_false_iff in Heven.
      apply Z.odd_spec in Heven. destruct Heven as [k ->].
      replace ((2 * k + 1 + 1) / 2) with (k + 1)
        by (apply (Z.div_unique _ 2 (k + 1) 0); lia).
      lia.
  - unfold CInt.in_range, CInt.INT_MIN, CInt.INT_MAX.
    apply andb_true_iff. split; apply Z.leb_le; lia.
  - lia.
Qed.

Lemma rows_rounded_up_to_even_witness :
  exists q : Z,
    1 <= q
    /\ floored_height (video_width (example_globals 80 35 1 1) 80)
         (CDouble.of_int 35)
       = CDouble.of_int q
    /\ scale_dimensions (example_globals 80 35 1 1) 80 35
       = Some (80, if Z.even q then q else q + 1).
Proof.
  apply (rows_rounded_up_to_even (example_globals 80 35 1 1) 80 35 7 1);
    cbn; lia.
Defined.

(* ------------------------------------------------------------------ *)
(** *** Row counts that do not fit an int *)

Module Overflow.
Import FloatFacts.

(** [(double) z] for [2^(lo-1) <= z < 2^hi]: a normal number of
    magnitude between [lo] and [hi]. *)
Lemma of_int_normal_between (z lo hi : Z) :
  1 <= lo -> hi <= 52 -> 2 ^ (lo - 1) <= z < 2 ^ hi ->
  normal_pos (Prim2SF (CDouble.of_int z)) lo hi.
Proof.
  intros Hlo Hhi [Hz1 Hz2].
  assert (H1 : 1 <= 2 ^ (lo - 1)) by (apply (Z.pow_le_mono_r 2 0); lia).
  destruct (of_int_normal z hi ltac:(lia) Hhi) as (m & e & Hsf & Hd & Hmag).
  exists m, e. split; [exact Hsf | ]. split; [exact Hd | ].
  split; [ | lia].
  destruct z as [ | p | p]; try lia.
  assert (H52 : 2 ^ hi <= 2 ^ 52) by (apply Z.pow_le_mono_r; lia).
  destruct (Prim2SF_of_pos p ltac:(lia)) as [k Hk].
  unfold CDouble.of_int in Hsf. change (Zpos p <? 0) with false in Hsf.
  cbv iota in Hsf. rewrite Hk in Hsf. injection Hsf as <- <-.
  pose proof (mantissa_bounds _ Hd) as [_ Bm].
  rewrite Zpos_shift in Bm.
  assert (Hk53 : lo - 1 + Zpos k < 53).
  { apply (Z.pow_lt_mono_r_iff 2); [lia | lia | ].
    rewrite Z.pow_add_r by lia.
    assert (0 < 2 ^ Zpos k) by (apply Z.pow_pos_nonneg; lia).
    nia. }
  lia.
Qed.

(** [round] of a normal number between 2^(lo-1) and 2^hi. *)
Lemma round_between (x : float) (lo hi : Z) :
  normal_pos (Prim2SF x) lo hi -> 1 <= lo -> hi <= 40 ->
  exists q : Z, 2 ^ (lo - 1) <= q <= 2 ^ hi /\ CDouble.round x = CDouble.of_int q.
Proof.
  intros (m & e & Hx & Hd & Hm) Hlo Hhi.
  pose proof (mantissa_bounds _ Hd) as [Bl Bm].
  unfold CDouble.round. rewrite Hx.
  replace (0 <=? e) with false by (symmetry; apply Z.leb_gt; lia).
  set (q := (Zpos m + 2 ^ (- e - 1)) / 2 ^ (- e)).
  assert (Hpos : 0 < 2 ^ (- e)) by (apply Z.pow_pos_nonneg; lia).
  assert (Hhalf : 0 <= 2 ^ (- e - 1) < 2 ^ (- e)).
  { split; [apply Z.pow_nonneg; lia | apply Z.pow_lt_mono_r; lia]. }
  assert (Hq : 2 ^ (lo - 1) <= q <= 2 ^ hi).
  { split.
    - apply Z.div_le_lower_bound; [exact Hpos | ].
      assert (2 ^ (- e) * 2 ^ (lo - 1) <= 2 ^ 52).
      { rewrite <- Z.pow_add_r by lia. apply Z.pow_le_mono_r; lia. }
      lia.
    - apply Z.lt_succ_r, Z.div_lt_upper_bound; [exact Hpos | ].
      assert (2 ^ 53 <= 2 ^ hi * 2 ^ (- e)).
      { rewrite <- Z.pow_add_r by lia. apply Z.pow_le_mono_r; lia. }
      lia. }
  exists q. split; [exact Hq | ].
  assert (0 <= 2 ^ (lo - 1)) by (apply Z.pow_nonneg; lia).
  unfold CDouble.of_int.
  now replace (q <? 0) with false by (symmetry; apply Z.ltb_ge; lia).
Qed.

(** [(double) q < 1] is false for a positive integer. *)
Lemma of_int_not_below_one (q : Z) :
  1 <= q < 2 ^ 52 -> (CDouble.of_int q <? 1)%float = false.
Proof.
  intros Hq.
  destruct (of_int_normal q 52 Hq ltac:(lia)) as (m & e & Hsf & Hd & Hm).
  pose proof (mantissa_bounds _ Hd) as [Bm _]. rewrite pow2_52 in Bm.
  rewrite FloatAxioms.ltb_spec, Hsf, Prim2SF_one.
  unfold SFltb, SFcompare.
  destruct (Z.compare_spec e (-52)) as [He | He | He]; [ | lia | reflexivity].
  rewrite Pos.compare_cont_spec.
  destruct (Pos.compare_spec m 4503599627370496) as [Hc | Hc | Hc];
    [reflexivity | | reflexivity].
  apply Pos2Z.pos_lt_pos in Hc. clear - Hc Bm. lia.
Qed.

(** The conversion to [int] of an integer from 2^31 on is undefined. *)
Lemma to_int_of_int_big (q : Z) :
  2 ^ 31 <= q < 2 ^ 52 -> CDouble.to_int (CDouble.of_int q) = None.
Proof.
  intros Hq. rewrite Sizes.pow2_31 in Hq.
  destruct q as [ | p | p]; try lia.
  destruct (Prim2SF_of_pos p ltac:(lia)) as [k Hk].
  unfold CDouble.to_int, CDouble.of_int.
  change (Zpos p <? 0) with false. cbv iota. rewrite Hk.
  change (0 <=? Zneg k) with false. change (- Zneg k) with (Zpos k).
  rewrite Zpos_shift, Z.div_mul by (apply Z.pow_nonzero; lia).
  cbv zeta iota.
  replace (CInt.in_range (Zpos p)) with false; [reflexivity | ].
  symmetry. unfold CInt.in_range, CInt.INT_MAX.
  apply andb_false_iff. right. apply Z.leb_gt. lia.
Qed.

(** The "make it even" step on an integer from 2^31 on: the conversion
    of its half to [int], or the product by 2, is out of range. *)
Lemma make_even_big (q : Z) :
  2 ^ 31 <= q <= 2 ^ 39 -> make_even (CDouble.of_int q) = None.
Proof.
  intros Hq.
  assert (H39 : 2 ^ 39 < 2 ^ 40) by (apply Z.pow_lt_mono_r; lia).
  destruct (of_int_normal_between q 32 40 ltac:(lia) ltac:(lia))
    as (m & e & Hsf & Hd & Hmag); [change (32 - 1) with 31; lia | ].
  pose proof (Even.half_exact _ _ _ Hsf Hd ltac:(lia)) as Hhalf.
  assert (Nh : normal_pos (Prim2SF (CDouble.of_int q / 2)%float) 31 39).
  { exists m, (e - 1). split; [exact Hhalf | ]. split; [exact Hd | lia]. }
  destruct (round_between _ _ _ Nh ltac:(lia) ltac:(lia)) as (i & Hi & Hround).
  change (31 - 1) with 30 in Hi.
  assert (H30 : 2 ^ 30 = 1073741824) by reflexivity.
  assert (H52 : 2 ^ 39 < 2 ^ 52) by (apply Z.pow_lt_mono_r; lia).
  unfold make_even. rewrite Hround.
  destruct (Z.lt_ge_cases i (2 ^ 31)) as [Hlt | Hge].
  - rewrite Sizes.pow2_31 in Hlt.
    rewrite to_int_of_int.
    + cbn [bind]. unfold CInt.mul.
      replace (CInt.in_range (i * 2)) with false; [reflexivity | ].
      symmetry. unfold CInt.in_range, CInt.INT_MAX.
      apply andb_false_iff. right. apply Z.leb_gt. lia.
    + unfold CInt.in_range, CInt.INT_MIN, CInt.INT_MAX.
      apply andb_true_iff. split; apply Z.leb_le; lia.
  - now rewrite to_int_of_int_big by lia.
Qed.

(** A width below 2^a with a height of 2^(a+28) or more: the row count
    before the "make it even" step is an integer from 2^31 on. *)
Lemma floored_height_big (w h a : Z) :
  1 <= w < 2 ^ a -> 2 ^ (a + 28) <= h < 2 ^ 31 ->
  exists q : Z,
    2 ^ 31 <= q <= 2 ^ 39
    /\ floored_height (CDouble.of_int w) (CDouble.of_int h) = CDouble.of_int q.
Proof.
  intros Hw Hh.
  assert (Ha : 1 <= a).
  { destruct (Z.le_gt_cases 1 a); [assumption | ].
    assert (2 ^ a <= 2 ^ 0) by (apply Z.pow_le_mono_r; lia).
    change (2 ^ 0) with 1 in *. lia. }
  assert (Ha2 : a + 28 < 31).
  { apply (Z.pow_lt_mono_r_iff 2); lia. }
  pose proof (of_int_normal w a Hw ltac:(lia)) as Nw.
  assert (Nh : normal_pos (Prim2SF (CDouble.of_int h)) (a + 29) 31).
  { apply of_int_normal_between; try lia.
    replace (a + 29 - 1) with (a + 28) by lia. exact Hh. }
  pose proof (div_normal _ _ _ _ _ _ Nw Nh) as Hdar.
  specialize (Hdar ltac:(lia) ltac:(lia) ltac:(lia) ltac:(lia)).
  pose proof (div_normal _ _ _ _ _ _ Hdar Geometry.normal_half) as Hadj.
  specialize (Hadj ltac:(lia) ltac:(lia) ltac:(lia) ltac:(lia)).
  pose proof (div_normal _ _ _ _ _ _ Geometry.normal_columns Hadj) as Hq.
  specialize (Hq ltac:(lia) ltac:(lia) ltac:(lia) ltac:(lia)).
  apply (normal_pos_weaken _ _ _ 32 39) in Hq; [ | lia | lia].
  destruct (round_between _ _ _ Hq ltac:(lia) ltac:(lia)) as (q & Hqb & Hround).
  change (32 - 1) with 31 in Hqb.
  assert (H52 : 2 ^ 39 < 2 ^ 52) by (apply Z.pow_lt_mono_r; lia).
  assert (H31 : 1 <= 2 ^ 31) by (rewrite Sizes.pow2_31; lia).
  exists q. split; [exact Hqb | ].
  unfold floored_height. cbv zeta. rewrite Hround.
  now rewrite of_int_not_below_one by lia.
Qed.

(** With square pixels the aspect correction leaves the width as it is. *)
Lemma video_width_square (g : globals) (w : Z) :
  AVRational.num (AVCodecContext.sample_aspect_ratio (dec_ctx g)) < 2 ^ 31 ->
  AVRational.num (AVCodecContext.sample_aspect_ratio (dec_ctx g)) <= 0
  \/ AVRational.den (AVCodecContext.sample_aspect_ratio (dec_ctx g)) <= 0
  \/ AVRational.num (AVCodecContext.sample_aspect_ratio (dec_ctx g))
     = AVRational.den (AVCodecContext.sample_aspect_ratio (dec_ctx g)) ->
  video_width g w = CDouble.of_int w.
Proof.
  intros Hn31 Hsar. unfold video_width. cbv zeta.
  set (sar := AVCodecContext.sample_aspect_ratio (dec_ctx g)) in *.
  destruct (Z.ltb_spec 0 (AVRational.num sar)) as [Hn | Hn];
    destruct (Z.ltb_spec 0 (AVRational.den sar)) as [Hd0 | Hd0]; cbn [andb];
    try reflexivity.
  assert (Heq : AVRational.num sar = AVRational.den sar) by lia.
  destruct (of_int_normal (AVRational.num sar) 31 ltac:(lia) ltac:(lia))
    as (ms & es & Hms & Hds & _).
  unfold av_q2d. rewrite <- Heq, (Square.div_self _ _ _ _ Hms Hds).
  apply mul_one.
Qed.

End Overflow.

(** C3.  What the scale calculation does where the claim fails.  The row
    count has no upper limit: for a picture with square pixels whose width
    is below 2^a and whose height is 2^(a+28) or more, [round(80 /
    ((srcWidth * sarReal / srcHeight) / 0.5))] is 2^31 or more, and the step
    [(int)round(target_height / 2.0) * 2] of line 189 converts a double that
    is out of the range of [int], or overflows in the product: the result is
    undefined, so no even row count of at least 2 is returned.  The limit is
    sharp for a width of 1: a height of 53687091 still gets 2147483640 rows,
    a height of 53687092 does not fit; and a 16x16 picture with sample
    aspect ratio 1:134217728 fails in the same way. *)
Theorem scale_dimensions_overflows (g : globals) (input_width input_height a : Z) :
  0 < AVRational.num (AVCodecContext.sample_aspect_ratio (dec_ctx g)) < 2 ^ 31 ->
  AVRational.num (AVCodecContext.sample_aspect_ratio (dec_ctx g))
  = AVRational.den (AVCodecContext.sample_aspect_ratio (dec_ctx g)) ->
  1 <= input_width < 2 ^ a ->
  2 ^ (a + 28) <= input_height < 2 ^ 31 ->
  scale_dimensions g input_width input_height = None
  /\ scale_dimensions (example_globals 1 53687092 1 1) 1 53687092 = None
  /\ scale_dimensions (example_globals 1 53687091 1 1) 1 53687091
     = Some (80, 2147483640)
  /\ scale_dimensions (example_globals 16 16 1 134217728) 16 16 = None.
Proof.
  intros Hn Hsar Hw Hh.
  split; [ | repeat split; vm_compute; reflexivity].
  destruct (Overflow.floored_height_big _ _ a Hw Hh) as (q & Hq & Hfloor).
  rewrite Geometry.scale_dimensions_unfold. cbv zeta.
  fold (video_width g input_width).
  rewrite Overflow.video_width_square by (try lia; right; right; exact Hsar).
  rewrite Hfloor, Geometry.make_even_columns, (Overflow.make_even_big q Hq).
  reflexivity.
Qed.

Lemma scale_dimensions_overflows_witness :
  scale_dimensions (example_globals 1 536870912 1 1) 1 536870912 = None
  /\ scale_dimensions (example_globals 1 53687092 1 1) 1 53687092 = None
  /\ scale_dimensions (example_globals 1 53687091 1 1) 1 53687091
     = Some (80, 2147483640)
  /\ scale_dimensions (example_globals 16 16 1 134217728) 16 16 = None.
Proof.
  apply (scale_dimensions_overflows (example_globals 1 536870912 1 1)
           1 536870912 1); cbn; rewrite ?Sizes.pow2_31; lia.
Defined.

(* ================================================================== *)
(** ** open_input_file and the graph of init_filters *)

Module Opening.

(** The outcome of [open_input_file], call by call. *)
Lemma open_input_file_cases (ENOMEM : Z) (a : open_answers)
  (video_stream_index : Z) :
  0 < ENOMEM ->
  let r := open_input_file ENOMEM a video_stream_index in
  (opens a
   /\ r = mk_opened 0 (av_find_best_stream a) true [])
  \/ (~ opens a /\ open_returned r < 0).
Proof.
  intros HE. unfold opens, open_input_file, AVERROR. cbv zeta.
  destruct (Z.ltb_spec (avformat_open_input a) 0) as [H1 | H1];
    [right; cbn; split; [lia | exact H1] | ].
  destruct (Z.ltb_spec (avformat_find_stream_info a) 0) as [H2 | H2];
    [right; cbn; split; [lia | exact H2] | ].
  destruct (Z.ltb_spec (av_find_best_stream a) 0) as [H3 | H3];
    [right; cbn; split; [lia | exact H3] | ].
  destruct (avcodec_alloc_context3 a);
    [ | right; cbn; split; [intros (_ & _ & _ & H & _); discriminate | lia]].
  cbn [negb].
  destruct (Z.ltb_spec (avcodec_open2 a) 0) as [H5 | H5];
    [right; cbn; split; [lia | exact H5] | ].
  left. split; [repeat split; assumption | reflexivity].
Qed.

End Opening.

(** X18.  [open_input_file] returns 0 exactly when the four calls it
    checks succeed (a positive answer counts as success and is not passed
    on; what [avcodec_parameters_to_context] answers plays no role), and
    then [video_stream_index] is the stream [av_find_best_stream] chose, a
    decoder context exists and nothing was logged.  Otherwise the return
    value is negative. *)
Theorem open_input_file_result (ENOMEM : Z) (a : open_answers)
  (video_stream_index : Z) :
  0 < ENOMEM ->
  let r := open_input_file ENOMEM a video_stream_index in
  (opens a ->
   open_returned r = 0
   /\ open_stream_index r = av_find_best_stream a
   /\ 0 <= open_stream_index r
   /\ open_dec_ctx r = true
   /\ open_logged r = [])
  /\ (~ opens a -> open_returned r < 0).
Proof.
  intros HE r.
  destruct (Opening.open_input_file_cases ENOMEM a video_stream_index HE)
    as [[Hok Hr] | [Hno Hr]]; fold r in Hr.
  - split; [ | contradiction]. intros _. rewrite Hr. cbn.
    destruct Hok as (_ & _ & H3 & _). auto.
  - split; [contradiction | auto].
Qed.

Lemma open_input_file_result_witness :
  let r := open_input_file 12 (mk_open_answers 0 0 1 true (-22) 3) (-1) in
  (opens (mk_open_answers 0 0 1 true (-22) 3) ->
   open_returned r = 0
   /\ open_stream_index r = 1
   /\ 0 <= open_stream_index r
   /\ open_dec_ctx r = true
   /\ open_logged r = [])
  /\ (~ opens (mk_open_answers 0 0 1 true (-22) 3) -> open_returned r < 0).
Proof.
  apply (open_input_file_result 12 (mk_open_answers 0 0 1 true (-22) 3) (-1)).
  lia.
Defined.

Module Graph.

Lemma length_digits (fuel : nat) :
  forall (n : Z) (acc : string),
    (String.length (digits fuel n acc) <= fuel + String.length acc)%nat.
Proof.
  induction fuel as [ | fuel IH]; intros n acc; cbn [digits]; [lia | ].
  destruct (n <? 10).
  - cbn [String.length]. lia.
  - specialize (IH (n / 10) (String (digit (n mod 10)) acc)).
    cbn [String.length] in IH. lia.
Qed.

Lemma length_print_int (z : Z) : (String.length (print_int z) <= 11)%nat.
Proof.
  unfold print_int. destruct (z <? 0).
  - pose proof (length_digits 10 (- z) "") as H.
    cbn [String.length] in *. lia.
  - pose proof (length_digits 10 z "") as H. cbn [String.length] in H. lia.
Qed.

Lemma length_append (s1 s2 : string) :
  String.length (s1 ++ s2) = (String.length s1 + String.length s2)%nat.
Proof.
  induction s1 as [ | c s1 IH]; cbn [append String.length];
    [reflexivity | now rewrite IH].
Qed.

Lemma substring_all (s : string) :
  forall n : nat, (String.length s <= n)%nat -> substring 0 n s = s.
Proof.
  induction s as [ | c s IH]; intros n H.
  - now destruct n.
  - destruct n as [ | n]; cbn [String.length] in H; [lia | ].
    cbn [substring]. now rewrite IH by lia.
Qed.

(** A text shorter than the buffer is stored whole. *)
Lemma snprintf_fits (size : nat) (s : string) :
  (String.length s < size)%nat -> snprintf size s = s.
Proof. intros H. unfold snprintf. apply substring_all. lia. Qed.

Lemma buffer_args_fits (g : globals) (w h : Z) :
  snprintf 512 (buffer_args g w h) = buffer_args g w h.
Proof.
  apply snprintf_fits. unfold buffer_args. cbv zeta.
  rewrite !length_append.
  pose proof (length_print_int w).
  pose proof (length_print_int h).
  pose proof (length_print_int (AVCodecContext.pix_fmt (dec_ctx g))).
  pose proof (length_print_int (AVRational.num (stream_time_base g))).
  pose proof (length_print_int (AVRational.den (stream_time_base g))).
  pose proof (length_print_int
                (AVRational.num (AVCodecContext.sample_aspect_ratio (dec_ctx g)))).
  pose proof (length_print_int
                (AVRational.den (AVCodecContext.sample_aspect_ratio (dec_ctx g)))).
  cbn [String.length]. lia.
Qed.

Lemma scale_descr_fits (c r : Z) :
  snprintf 128 (scale_descr c r) = scale_descr c r.
Proof.
  apply snprintf_fits. unfold scale_descr.
  rewrite !length_append.
  pose proof (length_print_int c). pose proof (length_print_int r).
  cbn [String.length]. lia.
Qed.

(** Whenever the scale calculation is defined, it asks for 80 columns and
    at least 2 rows, for every sample aspect ratio. *)
Lemma scale_dimensions_columns (g : globals) (w h : Z) (dims : Z * Z) :
  scale_dimensions g w h = Some dims -> fst dims = 80 /\ 2 <= snd dims.
Proof.
  destruct dims as [c r]. rewrite Geometry.scale_dimensions_unfold. cbv zeta.
  intros H. apply Geometry.scale_dimensions_from_floor in H.
  destruct H as (i & _ & _ & -> & ->). cbn. split; [reflexivity | lia].
Qed.

Lemma filters_end_inv (ret ret' : Z) (before done : list filter_event) :
  filters_end ret before = Some (ret', done) ->
  ret' = ret /\ done = before ++ [Inout_free_outputs; Inout_free_inputs].
Proof. unfold filters_end. intros H. injection H as <- <-. now split. Qed.

(** At [end], the two frees come after steps that free nothing. *)
Ltac freed :=
  let H := fresh "H" in
  let H' := fresh "H" in
  intros H; apply filters_end_inv in H; destruct H as [_ H];
  eexists; split; [exact H | ];
  cbn; split; intros H'; decompose [or] H'; (discriminate || contradiction).

(** The texts among the steps done are the two that were formatted. *)
Ltac texts :=
  let H := fresh "H" in
  let x := fresh "x" in
  intros [= _ <-]; split; intros x H; cbn [In app] in H; decompose [or] H;
  try contradiction;
  match goal with
  | H' : Create_buffer _ = Create_buffer _ |- _ = _ =>
      injection H' as <-; reflexivity
  | H' : Graph_parse_ptr (scale_descr 80 ?r) = Graph_parse_ptr _ |- _ =>
      injection H' as <-; exists r; repeat split; assumption || reflexivity
  | H' : @eq filter_event _ _ |- _ => discriminate H'
  end.

(** The digits [%d] prints, on some values. *)
Example print_int_examples :
  print_int 0 = "0"%string
  /\ print_int 80 = "80"%string
  /\ print_int (-7) = "-7"%string
  /\ print_int 2147483647 = "2147483647"%string
  /\ print_int (-2147483648) = "-2147483648"%string.
Proof. repeat split. Qed.

End Graph.

(** X19.  [init_filters] returns the code of the first step that fails:
    [AVERROR(ENOMEM)] for an allocation, else the negative answer of one of
    the three calls that set up the buffers; with these done it goes through
    the scale calculation and returns the answer of
    [avfilter_graph_parse_ptr] if that is negative and of
    [avfilter_graph_config] otherwise.  This is the return value [main]
    tests. *)
Theorem init_filters_graph_returns (ENOMEM : Z) (g : globals)
  (a : filter_answers) (s : script) :
  0 < ENOMEM ->
  buffers_ret s = buffers_code ENOMEM a ->
  graph_ret s = graph_code a ->
  option_map fst
    (init_filters_graph ENOMEM g a (AVCodecContext.width (dec_ctx g))
       (AVCodecContext.height (dec_ctx g)))
  = init_filters g s.
Proof.
  intros HE Hb Hg. unfold init_filters. rewrite Hb, Hg.
  unfold init_filters_graph, buffers_code, graph_code, filters_end, AVERROR.
  destruct (negb (inout_alloc_outputs a) || negb (inout_alloc_inputs a)
            || negb (graph_alloc a)).
  - replace (- ENOMEM <? 0) with true by (symmetry; apply Z.ltb_lt; lia).
    reflexivity.
  - cbv zeta.
    destruct (create_buffer a <? 0) eqn:H1; cbv iota;
      [now rewrite H1 | ].
    destruct (create_buffersink a <? 0) eqn:H2; cbv iota;
      [now rewrite H2 | ].
    destruct (set_pix_fmts a <? 0); cbv iota; [reflexivity | ].
    destruct (scale_dimensions g _ _) as [dims | ]; [ | reflexivity].
    cbn [bind].
    destruct (graph_parse_ptr a <? 0); [reflexivity | ].
    destruct (graph_config a <? 0); reflexivity.
Qed.

Lemma init_filters_graph_returns_witness :
  option_map fst
    (init_filters_graph 12 video_globals
       (mk_filter_answers true true true 0 0 (-22) 0 0)
       (AVCodecContext.width (dec_ctx video_globals))
       (AVCodecContext.height (dec_ctx video_globals)))
  = init_filters video_globals (mk_script 0 (-22) 0 [] [] [] [] []).
Proof.
  apply (init_filters_graph_returns 12 video_globals
           (mk_filter_answers true true true 0 0 (-22) 0 0)
           (mk_script 0 (-22) 0 [] [] [] [] [])).
  - lia.
  - reflexivity.
  - reflexivity.
Defined.

(** X20.  Whichever step fails, and also when none does, [init_filters]
    frees [outputs] and [inputs] exactly once each, as the last two things
    it does. *)
Theorem init_filters_graph_frees (ENOMEM : Z) (g : globals)
  (a : filter_answers) (input_width input_height ret : Z)
  (done : list filter_event) :
  init_filters_graph ENOMEM g a input_width input_height = Some (ret, done) ->
  exists before : list filter_event,
    done = before ++ [Inout_free_outputs; Inout_free_inputs]
    /\ ~ In Inout_free_outputs before
    /\ ~ In Inout_free_inputs before.
Proof.
  unfold init_filters_graph.
  destruct (negb (inout_alloc_outputs a) || negb (inout_alloc_inputs a)
            || negb (graph_alloc a)); [Graph.freed | ].
  cbv zeta.
  destruct (create_buffer a <? 0); [Graph.freed | ].
  destruct (create_buffersink a <? 0); [Graph.freed | ].
  destruct (set_pix_fmts a <? 0); [Graph.freed | ].
  destruct (scale_dimensions g _ _) as [dims | ]; [ | discriminate].
  cbn [bind].
  destruct (graph_parse_ptr a <? 0); [Graph.freed | ].
  destruct (graph_config a <? 0); Graph.freed.
Qed.

Lemma init_filters_graph_frees_witness :
  exists (ret : Z) (done before : list filter_event),
    init_filters_graph 12 video_globals
      (mk_filter_answers true true true 0 0 0 (-22) 0) 720 720
    = Some (ret, done)
    /\ done = before ++ [Inout_free_outputs; Inout_free_inputs]
    /\ ~ In Inout_free_outputs before
    /\ ~ In Inout_free_inputs before.
Proof.
  assert (H : init_filters_graph 12 video_globals
                (mk_filter_answers true true true 0 0 0 (-22) 0) 720 720
              <> None) by (vm_compute; discriminate).
  destruct (init_filters_graph 12 video_globals
              (mk_filter_answers true true true 0 0 0 (-22) 0) 720 720)
    as [[ret done] | ] eqn:Hrun; [ | contradiction].
  destruct (init_filters_graph_frees 12 video_globals
              (mk_filter_answers true true true 0 0 0 (-22) 0) 720 720
              ret done Hrun) as (before & Hb).
  exists ret, done, before. split; [reflexivity | exact Hb].
Defined.

(** X21.  Neither text [init_filters] formats is cut short by its
    buffer: the buffer source is created with all of
    ["video_size=WxH:pix_fmt=P:time_base=N/D:pixel_aspect=N/D"] (512 bytes
    are enough for seven [int]s), and the description handed to
    [avfilter_graph_parse_ptr] is ["scale=80:R,format=gray"] with the [R]
    rows of the scale calculation, whatever their number of digits. *)
Theorem init_filters_graph_texts (ENOMEM : Z) (g : globals)
  (a : filter_answers) (input_width input_height ret : Z)
  (done : list filter_event) :
  init_filters_graph ENOMEM g a input_width input_height = Some (ret, done) ->
  (forall args : string,
      In (Create_buffer args) done ->
      args = buffer_args g input_width input_height)
  /\ (forall filters_descr : string,
         In (Graph_parse_ptr filters_descr) done ->
         exists rows : Z,
           scale_dimensions g input_width input_height = Some (80, rows)
           /\ 2 <= rows
           /\ filters_descr = scale_descr 80 rows).
Proof.
  unfold init_filters_graph, filters_end.
  rewrite Graph.buffer_args_fits.
  destruct (negb (inout_alloc_outputs a) || negb (inout_alloc_inputs a)
            || negb (graph_alloc a)); [Graph.texts | ].
  cbv zeta.
  destruct (create_buffer a <? 0); [Graph.texts | ].
  destruct (create_buffersink a <? 0); [Graph.texts | ].
  destruct (set_pix_fmts a <? 0); [Graph.texts | ].
  destruct (scale_dimensions g _ _) as [[c r] | ] eqn:Hdims; [ | discriminate].
  cbn [bind fst snd].
  destruct (Graph.scale_dimensions_columns _ _ _ _ Hdims) as [Hc Hr].
  cbn [fst snd] in Hc, Hr. subst c.
  rewrite Graph.scale_descr_fits.
  destruct (graph_parse_ptr a <? 0); [Graph.texts | ].
  destruct (graph_config a <? 0); Graph.texts.
Qed.

Lemma init_filters_graph_texts_witness :
  exists (ret : Z) (done : list filter_event),
    init_filters_graph 12 video_globals
      (mk_filter_answers true true true 0 0 0 0 0) 720 720
    = Some (ret, done)
    /\ In (Graph_parse_ptr "scale=80:40,format=gray") done
    /\ (forall args : string,
           In (Create_buffer args) done -> args = buffer_args video_globals 720 720)
    /\ (forall filters_descr : string,
           In (Graph_parse_ptr filters_descr) done ->
           exists rows : Z,
             scale_dimensions video_globals 720 720 = Some (80, rows)
             /\ 2 <= rows
             /\ filters_descr = scale_descr 80 rows).
Proof.
  eexists _, _. split; [vm_compute; reflexivity | ].
  split; [cbn [In]; tauto | ].
  apply (init_filters_graph_texts 12 video_globals
           (mk_filter_answers true true true 0 0 0 0 0) 720 720 0).
  vm_compute. reflexivity.
Defined.

(** X22.  After a failed set-up the exit status hangs on a variable that
    was never assigned.  [main] goes to [end] over the initialisation of
    [frame_displayed], releases the structures, and tests the variable in
    its final report: if its storage holds 0, [main] reports the code of the
    failed call ("Program finished with an error", or the end-of-file
    message when the code is [AVERROR_EOF]) and exits with 1; if it holds
    anything else, [main] reports nothing and exits with 0.  On the runs
    whose set-up succeeds the value plays no role. *)
Theorem main_setup_failure (E : averror) (g : globals) (stale : Z)
  (s : script) (code : Z) :
  setup_fails g s code ->
  main_with_stale E g stale 2 true s
  = Some (if stale =? 0
          then (1, mk_state code 0 (sends s) (pushes s) (pulls s) []
                     [Free_all;
                      Log (if code =? AVERROR_EOF E then End_of_file_no_frame
                           else Program_finished_with_error code)])
          else (0, mk_state code stale (sends s) (pushes s) (pulls s) []
                     [Free_all]))
  /\ (forall (stale' argc : Z) (allocated : bool) (s' : script)
         (x : Z * state),
         main E g argc allocated s' = Some x ->
         main_with_stale E g stale' argc allocated s' = Some x).
Proof.
  intros Hfail. split; [ | intros; now apply Stale.main_agrees].
  pose proof (Stale.setup_fails_negative g s code Hfail) as Hneg.
  rewrite <- (Stale.finish_unset E stale s code Hneg).
  unfold main_with_stale. cbv zeta. cbn [Z.eqb Pos.eqb negb].
  destruct Hfail as [[Ho ->] | (Ho & Hinit & Hr)].
  - apply Z.ltb_lt in Ho. now rewrite Ho.
  - replace (open_ret s <? 0) with false by (symmetry; apply Z.ltb_ge; exact Ho).
    rewrite Hinit. cbn [bind]. apply Z.ltb_lt in Hr. now rewrite Hr.
Qed.

Lemma main_setup_failure_witness :
  (main_with_stale averror_linux video_globals 7 2 true
     (mk_script 0 (-12) 0 [(0, 0)] [0] [0] [0] [(0, frame_2x2)])
   = Some (0, mk_state (-12) 7 [0] [0] [(0, frame_2x2)] [] [Free_all]))
  /\ (forall (stale' argc : Z) (allocated : bool) (s' : script)
         (x : Z * state),
         main averror_linux video_globals argc allocated s' = Some x ->
         main_with_stale averror_linux video_globals stale' argc allocated s'
         = Some x).
Proof.
  apply (main_setup_failure averror_linux video_globals 7
           (mk_script 0 (-12) 0 [(0, 0)] [0] [0] [0] [(0, frame_2x2)]) (-12)).
  right. cbn. repeat split; lia.
Defined.
